(** * DevLog_AI: multi-path retrieval and score fusion

    A shallow embedding of the Python backend's retrieval core:

    - [backend/services/database.py]: the SQLite accessors
      ([get_all_logs], [get_logs_by_date_range], [get_logs_by_tags],
      [get_log_embeddings]);
    - [backend/services/agent/brain_agent.py]: [cosine_similarity] and
      [BrainAgent._retrieve_logs];
    - [backend/llm/base.py]: [BaseLLM._extract_json];

    and of what stands around it:

    - [backend/llm/factory.py]: [get_llm], [get_current_provider_name];
    - [backend/services/embedding.py]: [chunk_text],
      [compute_similarity_matrix];
    - [backend/services/ai_utils.py]: [generate_conversation_title];
    - [backend/services/tag_extraction.py]: [batch_process_entries];
    - [backend/services/agent/brain_agent.py]: [_parse_intent],
      [_generate_answer].

    Python floats are IEEE-754 binary64 numbers: they are modelled by Rocq's
    primitive floats, whose operations are the same binary64 operations
    (round to nearest, ties to even).  Python exceptions are modelled by a
    [result] type; a [try ... except Exception] block is a [match] on it. *)

From Stdlib Require Import ZArith List Bool Lia Permutation Sorted.
From Stdlib Require Import Strings.String Strings.Ascii.
From Stdlib Require Import Floats.
From Stdlib Require Import Reals Lra.
From Stdlib Require NArith DecimalString.
From stdpp Require Import base list sorting strings gmap sets.
Import ListNotations.

Set Warnings "-inexact-float,-register-all".

(* ===================================================================== *)
(** * Part I: the model                                                   *)
(* ===================================================================== *)

(** ** Exceptions *)

(** The exception classes that occur in the modelled code. *)
Inductive exn : Type :=
| OperationalError   (* sqlite3: the connection or the query failed *)
| ValueError         (* strptime on a malformed date; np.dot on a shape mismatch *)
| JSONDecodeError    (* json.loads *)
| RuntimeError.      (* the embedding model could not be run *)

(** A call either returns a value or raises. *)
Inductive result (A : Type) : Type :=
| Ok (a : A)
| Raise (e : exn).
Arguments Ok {A} a.
Arguments Raise {A} e.

Definition bind {A B : Type} (r : result A) (k : A -> result B) : result B :=
  match r with
  | Ok a => k a
  | Raise e => Raise e
  end.

Notation "'let!' x ':=' r 'in' k" := (bind r (fun x => k))
  (at level 10, x name, r at level 100, k at level 200).

(** ** Python's [list.sort(key=..., reverse=True)]

    [list.sort] is stable, and stays stable under [reverse=True]: elements
    whose keys compare equal keep their original relative order.  For keys
    that are totally ordered the result of a stable descending sort is
    unique ([sort_desc_unique] below), so the insertion sort here returns
    what [list.sort] returns.  Like [list.sort] it only ever asks [lt] of
    two keys. *)
Section StableSort.
Context {A K : Type}.
Variable key : A -> K.
Variable lt : K -> K -> bool.

(** [x] goes after the elements with a strictly greater key and before the
    first element whose key is not greater. *)
Fixpoint insert_desc (x : A) (l : list A) : list A :=
  match l with
  | [] => [x]
  | y :: l' => if lt (key x) (key y) then y :: insert_desc x l' else x :: l
  end.

Definition sort_desc (l : list A) : list A := foldr insert_desc [] l.

End StableSort.

(** ** [backend/services/database.py] *)
Module Database.

(** One element of a row's [tags_json] array.  [t.get("name", "")] reads the
    name and falls back to the empty string when the key is missing. *)
Record Tag : Type := mkTag {
  tag_name : option string;
  tag_category : string
}.

(** A row of table [logs]; [tags_json] is held parsed
    ([json.loads(row["tags_json"] or "[]")]). *)
Record Row : Type := mkRow {
  row_id : string;
  row_content : string;
  row_timestamp : Z;           (* epoch milliseconds *)
  row_tags_json : list Tag;
  row_source : string;
  row_summary : option string  (* NULL is None *)
}.

(** A row of table [log_embeddings]; [embedding] is held parsed. *)
Record EmbeddingRow : Type := mkEmbeddingRow {
  er_log_id : string;
  er_embedding : list float
}.

(** The four read operations; each opens its own connection ([get_db]). *)
Inductive StoreOp : Type := OpAllLogs | OpDateRange | OpByTags | OpEmbeddings.

(** The database as the accessors see it: the two tables in rowid order,
    and for each operation whether its connection or query fails. *)
Record Db : Type := mkDb {
  logs : list Row;
  log_embeddings : list EmbeddingRow;
  db_fault : StoreOp -> bool
}.

(** The dictionary the accessors build for one log. *)
Record Log : Type := mkLog {
  log_id : string;
  log_content : string;
  log_timestamp : Z;
  log_tags : list Tag;
  log_source : string;
  log_summary : option string
}.

(** The dictionary [get_log_embeddings] builds for one joined row. *)
Record LogEmbedding : Type := mkLogEmbedding {
  le_id : string;
  le_embedding : list float;
  le_content : string;
  le_timestamp : Z;
  le_tags : list Tag
}.

Definition row_to_log (r : Row) : Log :=
  {| log_id := row_id r;
     log_content := row_content r;
     log_timestamp := row_timestamp r;
     log_tags := row_tags_json r;
     log_source := row_source r;
     log_summary := row_summary r |}.

(** [ORDER BY timestamp DESC].  SQLite leaves the order of rows with equal
    timestamps open; the model keeps them in table order. *)
Definition order_by_timestamp_desc (rows : list Row) : list Row :=
  sort_desc row_timestamp Z.ltb rows.

(** [LIMIT ?]: a negative bound means no bound in SQLite. *)
Definition sql_limit {A : Type} (limit : Z) (rows : list A) : list A :=
  if (limit <? 0)%Z then rows else firstn (Z.to_nat limit) rows.

(** [with get_db() as conn: ...]: the body runs unless the operation fails. *)
Definition with_db {A : Type} (db : Db) (op : StoreOp) (body : A) : result A :=
  if db_fault db op then Raise OperationalError else Ok body.

Definition get_all_logs (db : Db) (limit : Z) : result (list Log) :=
  with_db db OpAllLogs
    (map row_to_log (sql_limit limit (order_by_timestamp_desc (logs db)))).

Definition in_range (start_ts end_ts : Z) (r : Row) : bool :=
  (start_ts <=? row_timestamp r)%Z && (row_timestamp r <=? end_ts)%Z.

(** [WHERE timestamp >= ? AND timestamp <= ? ORDER BY timestamp DESC].  The
    bounds are integers of any size here; [sqlite3] refuses to bind one
    that does not fit 64 bits. *)
Definition get_logs_by_date_range (db : Db) (start_ts end_ts : Z)
  : result (list Log) :=
  with_db db OpDateRange
    (map row_to_log
       (order_by_timestamp_desc (List.filter (in_range start_ts end_ts) (logs db)))).

(** *** Texts

    A text (an id, a content, a tag name) is held as a [string], the bytes
    of its UTF-8 encoding, so that the literals of this file are the texts
    they show and two texts are equal when their strings are.  [str.lower]
    works on the characters of a text, its code points. *)

Definition byte (c : ascii) : N := N_of_ascii c.

(** A byte that continues a character: 10xxxxxx. *)
Definition continues (c : ascii) : bool :=
  ((128 <=? byte c) && (byte c <=? 191))%N.

(** What a byte brings to the code point: its low 6 bits. *)
Definition low6 (c : ascii) : N := (byte c mod 64)%N.

(** The code points of a text.  A byte that is no part of a well-formed
    character (there is none in the encoding of a text) is kept apart, as
    1114112 plus the byte, a number that is no code point. *)
Fixpoint utf8_decode (s : string) : list N :=
  match s with
  | EmptyString => []
  | String b0 s1 =>
    let stray := ((1114112 + byte b0)%N :: utf8_decode s1) in
    if (byte b0 <? 128)%N then byte b0 :: utf8_decode s1
    else match s1 with
    | String b1 s2 =>
      if negb (continues b1) then stray
      else if ((194 <=? byte b0) && (byte b0 <=? 223))%N
      then ((byte b0 mod 32) * 64 + low6 b1)%N :: utf8_decode s2
      else match s2 with
      | String b2 s3 =>
        if negb (continues b2) then stray
        else if ((224 <=? byte b0) && (byte b0 <=? 239))%N
        then ((byte b0 mod 16) * 4096 + low6 b1 * 64 + low6 b2)%N :: utf8_decode s3
        else match s3 with
        | String b3 s4 =>
          if continues b3 && ((240 <=? byte b0) && (byte b0 <=? 244))%N
          then ((byte b0 mod 8) * 262144 + low6 b1 * 4096 + low6 b2 * 64 + low6 b3)%N
               :: utf8_decode s4
          else stray
        | EmptyString => stray
        end
      | EmptyString => stray
      end
    | EmptyString => stray
    end
  end.

Definition chr (n : N) : ascii := ascii_of_N n.

(** The bytes of one code point. *)
Definition utf8_char (c : N) : string :=
  if (c <? 128)%N then String (chr c) EmptyString
  else if (c <? 2048)%N then
    String (chr (192 + c / 64)) (String (chr (128 + c mod 64)) EmptyString)
  else if (c <? 65536)%N then
    String (chr (224 + c / 4096))
      (String (chr (128 + (c / 64) mod 64)) (String (chr (128 + c mod 64)) EmptyString))
  else if (c <? 1114112)%N then
    String (chr (240 + c / 262144))
      (String (chr (128 + (c / 4096) mod 64))
         (String (chr (128 + (c / 64) mod 64))
            (String (chr (128 + c mod 64)) EmptyString)))
  else String (chr ((c - 1114112) mod 256)) EmptyString.

Fixpoint utf8_encode (l : list N) : string :=
  match l with
  | [] => EmptyString
  | c :: l' => utf8_char c +:+ utf8_encode l'
  end.

(** The lowercase mapping of the Unicode character database (version
    14.0.0, that of CPython 3.11), in runs
    [(first, last, step, image of first)]: a character of the run, [step]
    places apart from [first], has its small letter as far from the image
    of [first] as it is from [first]. *)
Definition lower_table : list (N * N * N * N) :=
  [ (65, 90, 1, 97); (192, 214, 1, 224); (216, 222, 1, 248);
    (256, 302, 2, 257); (306, 310, 2, 307); (313, 327, 2, 314);
    (330, 374, 2, 331); (376, 376, 1, 255); (377, 381, 2, 378);
    (385, 385, 1, 595); (386, 388, 2, 387); (390, 390, 1, 596);
    (391, 391, 1, 392); (393, 394, 1, 598); (395, 395, 1, 396);
    (398, 398, 1, 477); (399, 399, 1, 601); (400, 400, 1, 603);
    (401, 401, 1, 402); (403, 403, 1, 608); (404, 404, 1, 611);
    (406, 406, 1, 617); (407, 407, 1, 616); (408, 408, 1, 409);
    (412, 412, 1, 623); (413, 413, 1, 626); (415, 415, 1, 629);
    (416, 420, 2, 417); (422, 422, 1, 640); (423, 423, 1, 424);
    (425, 425, 1, 643); (428, 428, 1, 429); (430, 430, 1, 648);
    (431, 431, 1, 432); (433, 434, 1, 650); (435, 437, 2, 436);
    (439, 439, 1, 658); (440, 440, 1, 441); (444, 444, 1, 445);
    (452, 452, 1, 454); (453, 453, 1, 454); (455, 455, 1, 457);
    (456, 456, 1, 457); (458, 458, 1, 460); (459, 475, 2, 460);
    (478, 494, 2, 479); (497, 497, 1, 499); (498, 500, 2, 499);
    (502, 502, 1, 405); (503, 503, 1, 447); (504, 542, 2, 505);
    (544, 544, 1, 414); (546, 562, 2, 547); (570, 570, 1, 11365);
    (571, 571, 1, 572); (573, 573, 1, 410); (574, 574, 1, 11366);
    (577, 577, 1, 578); (579, 579, 1, 384); (580, 580, 1, 649);
    (581, 581, 1, 652); (582, 590, 2, 583); (880, 882, 2, 881);
    (886, 886, 1, 887); (895, 895, 1, 1011); (902, 902, 1, 940);
    (904, 906, 1, 941); (908, 908, 1, 972); (910, 911, 1, 973);
    (913, 929, 1, 945); (932, 939, 1, 964); (975, 975, 1, 983);
    (984, 1006, 2, 985); (1012, 1012, 1, 952); (1015, 1015, 1, 1016);
    (1017, 1017, 1, 1010); (1018, 1018, 1, 1019); (1021, 1023, 1, 891);
    (1024, 1039, 1, 1104); (1040, 1071, 1, 1072); (1120, 1152, 2, 1121);
    (1162, 1214, 2, 1163); (1216, 1216, 1, 1231); (1217, 1229, 2, 1218);
    (1232, 1326, 2, 1233); (1329, 1366, 1, 1377); (4256, 4293, 1, 11520);
    (4295, 4295, 1, 11559); (4301, 4301, 1, 11565); (5024, 5103, 1, 43888);
    (5104, 5109, 1, 5112); (7312, 7354, 1, 4304); (7357, 7359, 1, 4349);
    (7680, 7828, 2, 7681); (7838, 7838, 1, 223); (7840, 7934, 2, 7841);
    (7944, 7951, 1, 7936); (7960, 7965, 1, 7952); (7976, 7983, 1, 7968);
    (7992, 7999, 1, 7984); (8008, 8013, 1, 8000); (8025, 8025, 1, 8017);
    (8027, 8027, 1, 8019); (8029, 8029, 1, 8021); (8031, 8031, 1, 8023);
    (8040, 8047, 1, 8032); (8072, 8079, 1, 8064); (8088, 8095, 1, 8080);
    (8104, 8111, 1, 8096); (8120, 8121, 1, 8112); (8122, 8123, 1, 8048);
    (8124, 8124, 1, 8115); (8136, 8139, 1, 8050); (8140, 8140, 1, 8131);
    (8152, 8153, 1, 8144); (8154, 8155, 1, 8054); (8168, 8169, 1, 8160);
    (8170, 8171, 1, 8058); (8172, 8172, 1, 8165); (8184, 8185, 1, 8056);
    (8186, 8187, 1, 8060); (8188, 8188, 1, 8179); (8486, 8486, 1, 969);
    (8490, 8490, 1, 107); (8491, 8491, 1, 229); (8498, 8498, 1, 8526);
    (8544, 8559, 1, 8560); (8579, 8579, 1, 8580); (9398, 9423, 1, 9424);
    (11264, 11311, 1, 11312); (11360, 11360, 1, 11361);
    (11362, 11362, 1, 619); (11363, 11363, 1, 7549); (11364, 11364, 1, 637);
    (11367, 11371, 2, 11368); (11373, 11373, 1, 593); (11374, 11374, 1, 625);
    (11375, 11375, 1, 592); (11376, 11376, 1, 594); (11378, 11378, 1, 11379);
    (11381, 11381, 1, 11382); (11390, 11391, 1, 575);
    (11392, 11490, 2, 11393); (11499, 11501, 2, 11500);
    (11506, 11506, 1, 11507); (42560, 42604, 2, 42561);
    (42624, 42650, 2, 42625); (42786, 42798, 2, 42787);
    (42802, 42862, 2, 42803); (42873, 42875, 2, 42874);
    (42877, 42877, 1, 7545); (42878, 42886, 2, 42879);
    (42891, 42891, 1, 42892); (42893, 42893, 1, 613);
    (42896, 42898, 2, 42897); (42902, 42920, 2, 42903);
    (42922, 42922, 1, 614); (42923, 42923, 1, 604); (42924, 42924, 1, 609);
    (42925, 42925, 1, 620); (42926, 42926, 1, 618); (42928, 42928, 1, 670);
    (42929, 42929, 1, 647); (42930, 42930, 1, 669); (42931, 42931, 1, 43859);
    (42932, 42946, 2, 42933); (42948, 42948, 1, 42900);
    (42949, 42949, 1, 642); (42950, 42950, 1, 7566); (42951, 42953, 2, 42952);
    (42960, 42960, 1, 42961); (42966, 42968, 2, 42967);
    (42997, 42997, 1, 42998); (65313, 65338, 1, 65345);
    (66560, 66599, 1, 66600); (66736, 66771, 1, 66776);
    (66928, 66938, 1, 66967); (66940, 66954, 1, 66979);
    (66956, 66962, 1, 66995); (66964, 66965, 1, 67003);
    (68736, 68786, 1, 68800); (71840, 71871, 1, 71872);
    (93760, 93791, 1, 93792); (125184, 125217, 1, 125218) ]%N.

(** The characters with the property Case_Ignorable, in ranges. *)
Definition case_ignorable_table : list (N * N) :=
  [ (39, 39); (46, 46); (58, 58); (94, 94); (96, 96); (168, 168); (173, 173);
    (175, 175); (180, 180); (183, 184); (688, 879); (884, 885); (890, 890);
    (900, 901); (903, 903); (1155, 1161); (1369, 1369); (1375, 1375);
    (1425, 1469); (1471, 1471); (1473, 1474); (1476, 1477); (1479, 1479);
    (1524, 1524); (1536, 1541); (1552, 1562); (1564, 1564); (1600, 1600);
    (1611, 1631); (1648, 1648); (1750, 1757); (1759, 1768); (1770, 1773);
    (1807, 1807); (1809, 1809); (1840, 1866); (1958, 1968); (2027, 2037);
    (2042, 2042); (2045, 2045); (2070, 2093); (2137, 2139); (2184, 2184);
    (2192, 2193); (2200, 2207); (2249, 2306); (2362, 2362); (2364, 2364);
    (2369, 2376); (2381, 2381); (2385, 2391); (2402, 2403); (2417, 2417);
    (2433, 2433); (2492, 2492); (2497, 2500); (2509, 2509); (2530, 2531);
    (2558, 2558); (2561, 2562); (2620, 2620); (2625, 2626); (2631, 2632);
    (2635, 2637); (2641, 2641); (2672, 2673); (2677, 2677); (2689, 2690);
    (2748, 2748); (2753, 2757); (2759, 2760); (2765, 2765); (2786, 2787);
    (2810, 2815); (2817, 2817); (2876, 2876); (2879, 2879); (2881, 2884);
    (2893, 2893); (2901, 2902); (2914, 2915); (2946, 2946); (3008, 3008);
    (3021, 3021); (3072, 3072); (3076, 3076); (3132, 3132); (3134, 3136);
    (3142, 3144); (3146, 3149); (3157, 3158); (3170, 3171); (3201, 3201);
    (3260, 3260); (3263, 3263); (3270, 3270); (3276, 3277); (3298, 3299);
    (3328, 3329); (3387, 3388); (3393, 3396); (3405, 3405); (3426, 3427);
    (3457, 3457); (3530, 3530); (3538, 3540); (3542, 3542); (3633, 3633);
    (3636, 3642); (3654, 3662); (3761, 3761); (3764, 3772); (3782, 3782);
    (3784, 3789); (3864, 3865); (3893, 3893); (3895, 3895); (3897, 3897);
    (3953, 3966); (3968, 3972); (3974, 3975); (3981, 3991); (3993, 4028);
    (4038, 4038); (4141, 4144); (4146, 4151); (4153, 4154); (4157, 4158);
    (4184, 4185); (4190, 4192); (4209, 4212); (4226, 4226); (4229, 4230);
    (4237, 4237); (4253, 4253); (4348, 4348); (4957, 4959); (5906, 5908);
    (5938, 5939); (5970, 5971); (6002, 6003); (6068, 6069); (6071, 6077);
    (6086, 6086); (6089, 6099); (6103, 6103); (6109, 6109); (6155, 6159);
    (6211, 6211); (6277, 6278); (6313, 6313); (6432, 6434); (6439, 6440);
    (6450, 6450); (6457, 6459); (6679, 6680); (6683, 6683); (6742, 6742);
    (6744, 6750); (6752, 6752); (6754, 6754); (6757, 6764); (6771, 6780);
    (6783, 6783); (6823, 6823); (6832, 6862); (6912, 6915); (6964, 6964);
    (6966, 6970); (6972, 6972); (6978, 6978); (7019, 7027); (7040, 7041);
    (7074, 7077); (7080, 7081); (7083, 7085); (7142, 7142); (7144, 7145);
    (7149, 7149); (7151, 7153); (7212, 7219); (7222, 7223); (7288, 7293);
    (7376, 7378); (7380, 7392); (7394, 7400); (7405, 7405); (7412, 7412);
    (7416, 7417); (7468, 7530); (7544, 7544); (7579, 7679); (8125, 8125);
    (8127, 8129); (8141, 8143); (8157, 8159); (8173, 8175); (8189, 8190);
    (8203, 8207); (8216, 8217); (8228, 8228); (8231, 8231); (8234, 8238);
    (8288, 8292); (8294, 8303); (8305, 8305); (8319, 8319); (8336, 8348);
    (8400, 8432); (11388, 11389); (11503, 11505); (11631, 11631);
    (11647, 11647); (11744, 11775); (11823, 11823); (12293, 12293);
    (12330, 12333); (12337, 12341); (12347, 12347); (12441, 12446);
    (12540, 12542); (40981, 40981); (42232, 42237); (42508, 42508);
    (42607, 42610); (42612, 42621); (42623, 42623); (42652, 42655);
    (42736, 42737); (42752, 42785); (42864, 42864); (42888, 42890);
    (42994, 42996); (43000, 43001); (43010, 43010); (43014, 43014);
    (43019, 43019); (43045, 43046); (43052, 43052); (43204, 43205);
    (43232, 43249); (43263, 43263); (43302, 43309); (43335, 43345);
    (43392, 43394); (43443, 43443); (43446, 43449); (43452, 43453);
    (43471, 43471); (43493, 43494); (43561, 43566); (43569, 43570);
    (43573, 43574); (43587, 43587); (43596, 43596); (43632, 43632);
    (43644, 43644); (43696, 43696); (43698, 43700); (43703, 43704);
    (43710, 43711); (43713, 43713); (43741, 43741); (43756, 43757);
    (43763, 43764); (43766, 43766); (43867, 43871); (43881, 43883);
    (44005, 44005); (44008, 44008); (44013, 44013); (64286, 64286);
    (64434, 64450); (65024, 65039); (65043, 65043); (65056, 65071);
    (65106, 65106); (65109, 65109); (65279, 65279); (65287, 65287);
    (65294, 65294); (65306, 65306); (65342, 65342); (65344, 65344);
    (65392, 65392); (65438, 65439); (65507, 65507); (65529, 65531);
    (66045, 66045); (66272, 66272); (66422, 66426); (67456, 67461);
    (67463, 67504); (67506, 67514); (68097, 68099); (68101, 68102);
    (68108, 68111); (68152, 68154); (68159, 68159); (68325, 68326);
    (68900, 68903); (69291, 69292); (69446, 69456); (69506, 69509);
    (69633, 69633); (69688, 69702); (69744, 69744); (69747, 69748);
    (69759, 69761); (69811, 69814); (69817, 69818); (69821, 69821);
    (69826, 69826); (69837, 69837); (69888, 69890); (69927, 69931);
    (69933, 69940); (70003, 70003); (70016, 70017); (70070, 70078);
    (70089, 70092); (70095, 70095); (70191, 70193); (70196, 70196);
    (70198, 70199); (70206, 70206); (70367, 70367); (70371, 70378);
    (70400, 70401); (70459, 70460); (70464, 70464); (70502, 70508);
    (70512, 70516); (70712, 70719); (70722, 70724); (70726, 70726);
    (70750, 70750); (70835, 70840); (70842, 70842); (70847, 70848);
    (70850, 70851); (71090, 71093); (71100, 71101); (71103, 71104);
    (71132, 71133); (71219, 71226); (71229, 71229); (71231, 71232);
    (71339, 71339); (71341, 71341); (71344, 71349); (71351, 71351);
    (71453, 71455); (71458, 71461); (71463, 71467); (71727, 71735);
    (71737, 71738); (71995, 71996); (71998, 71998); (72003, 72003);
    (72148, 72151); (72154, 72155); (72160, 72160); (72193, 72202);
    (72243, 72248); (72251, 72254); (72263, 72263); (72273, 72278);
    (72281, 72283); (72330, 72342); (72344, 72345); (72752, 72758);
    (72760, 72765); (72767, 72767); (72850, 72871); (72874, 72880);
    (72882, 72883); (72885, 72886); (73009, 73014); (73018, 73018);
    (73020, 73021); (73023, 73029); (73031, 73031); (73104, 73105);
    (73109, 73109); (73111, 73111); (73459, 73460); (78896, 78904);
    (92912, 92916); (92976, 92982); (92992, 92995); (94031, 94031);
    (94095, 94111); (94176, 94177); (94179, 94180); (110576, 110579);
    (110581, 110587); (110589, 110590); (113821, 113822); (113824, 113827);
    (118528, 118573); (118576, 118598); (119143, 119145); (119155, 119170);
    (119173, 119179); (119210, 119213); (119362, 119364); (121344, 121398);
    (121403, 121452); (121461, 121461); (121476, 121476); (121499, 121503);
    (121505, 121519); (122880, 122886); (122888, 122904); (122907, 122913);
    (122915, 122916); (122918, 122922); (123184, 123197); (123566, 123566);
    (123628, 123631); (125136, 125142); (125252, 125259); (127995, 127999);
    (917505, 917505); (917536, 917631); (917760, 917999) ]%N.

(** The characters with the property Cased that are not case-ignorable
    (the scan for a final sigma asks for no other), in ranges. *)
Definition cased_table : list (N * N) :=
  [ (65, 90); (97, 122); (170, 170); (181, 181); (186, 186); (192, 214);
    (216, 246); (248, 442); (444, 447); (452, 659); (661, 687); (880, 883);
    (886, 887); (891, 893); (895, 895); (902, 902); (904, 906); (908, 908);
    (910, 929); (931, 1013); (1015, 1153); (1162, 1327); (1329, 1366);
    (1376, 1416); (4256, 4293); (4295, 4295); (4301, 4301); (4304, 4346);
    (4349, 4351); (5024, 5109); (5112, 5117); (7296, 7304); (7312, 7354);
    (7357, 7359); (7424, 7467); (7531, 7543); (7545, 7578); (7680, 7957);
    (7960, 7965); (7968, 8005); (8008, 8013); (8016, 8023); (8025, 8025);
    (8027, 8027); (8029, 8029); (8031, 8061); (8064, 8116); (8118, 8124);
    (8126, 8126); (8130, 8132); (8134, 8140); (8144, 8147); (8150, 8155);
    (8160, 8172); (8178, 8180); (8182, 8188); (8450, 8450); (8455, 8455);
    (8458, 8467); (8469, 8469); (8473, 8477); (8484, 8484); (8486, 8486);
    (8488, 8488); (8490, 8493); (8495, 8500); (8505, 8505); (8508, 8511);
    (8517, 8521); (8526, 8526); (8544, 8575); (8579, 8580); (9398, 9449);
    (11264, 11387); (11390, 11492); (11499, 11502); (11506, 11507);
    (11520, 11557); (11559, 11559); (11565, 11565); (42560, 42605);
    (42624, 42651); (42786, 42863); (42865, 42887); (42891, 42894);
    (42896, 42954); (42960, 42961); (42963, 42963); (42965, 42969);
    (42997, 42998); (43002, 43002); (43824, 43866); (43872, 43880);
    (43888, 43967); (64256, 64262); (64275, 64279); (65313, 65338);
    (65345, 65370); (66560, 66639); (66736, 66771); (66776, 66811);
    (66928, 66938); (66940, 66954); (66956, 66962); (66964, 66965);
    (66967, 66977); (66979, 66993); (66995, 67001); (67003, 67004);
    (68736, 68786); (68800, 68850); (71840, 71903); (93760, 93823);
    (119808, 119892); (119894, 119964); (119966, 119967); (119970, 119970);
    (119973, 119974); (119977, 119980); (119982, 119993); (119995, 119995);
    (119997, 120003); (120005, 120069); (120071, 120074); (120077, 120084);
    (120086, 120092); (120094, 120121); (120123, 120126); (120128, 120132);
    (120134, 120134); (120138, 120144); (120146, 120485); (120488, 120512);
    (120514, 120538); (120540, 120570); (120572, 120596); (120598, 120628);
    (120630, 120654); (120656, 120686); (120688, 120712); (120714, 120744);
    (120746, 120770); (120772, 120779); (122624, 122633); (122635, 122654);
    (125184, 125251); (127280, 127305); (127312, 127337); (127344, 127369) ]%N.

Definition in_ranges (table : list (N * N)) (c : N) : bool :=
  existsb (fun r => (fst r <=? c) && (c <=? snd r))%N table.

Definition case_ignorable (c : N) : bool := in_ranges case_ignorable_table c.
Definition cased (c : N) : bool := in_ranges cased_table c.

(** The small letter of [c] by the table, [c] itself when it has none. *)
Fixpoint lower_in (table : list (N * N * N * N)) (c : N) : N :=
  match table with
  | [] => c
  | (first, last, step, image) :: table' =>
    if ((first <=? c) && (c <=? last) && ((c - first) mod step =? 0))%N
    then (image + (c - first))%N
    else lower_in table' c
  end.

(** The full lowercase mapping: one character, but for the capital I with
    a dot above, U+0130, which gives i and the combining dot above. *)
Definition lower_full (c : N) : list N :=
  if (c =? 304)%N then [105; 775]%N else [lower_in lower_table c].

(** The first character that is not case-ignorable. *)
Fixpoint first_not_ignorable (l : list N) : option N :=
  match l with
  | [] => None
  | c :: l' => if case_ignorable c then first_not_ignorable l' else Some c
  end.

(** The capital sigma, U+03A3, is a final sigma when a cased letter comes
    before it and none after it, case-ignorable characters being passed
    over on both sides; [before] is the text before the sigma, last
    character first. *)
Definition final_sigma (before after : list N) : bool :=
  match first_not_ignorable before with
  | Some c =>
    cased c &&
    match first_not_ignorable after with
    | Some d => negb (cased d)
    | None => true
    end
  | None => false
  end.

Fixpoint lower_go (before rest : list N) : list N :=
  match rest with
  | [] => []
  | c :: rest' =>
    (if (c =? 931)%N
     then [if final_sigma before rest' then 962 else 963]%N
     else lower_full c)
    ++ lower_go (c :: before) rest'
  end.

(** [s.lower()] *)
Definition lower (s : string) : string :=
  utf8_encode (lower_go [] (utf8_decode s)).

(** [t in tag_names_lower] *)
Definition str_in (t : string) (l : list string) : bool :=
  existsb (String.eqb t) l.

Definition name_of (t : Tag) : string := default EmptyString (tag_name t).

(** [any(t in tag_names_lower for t in tag_names_in_log)] *)
Definition tags_match (tag_names_lower : list string) (r : Row) : bool :=
  let tag_names_in_log := map (fun t => lower (name_of t)) (row_tags_json r) in
  existsb (fun t => str_in t tag_names_lower) tag_names_in_log.

Definition get_logs_by_tags (db : Db) (tag_names : list string)
  : result (list Log) :=
  with_db db OpByTags
    (let tag_names_lower := map lower tag_names in
     map row_to_log
       (List.filter (tags_match tag_names_lower) (order_by_timestamp_desc (logs db)))).

(** [log_embeddings le JOIN logs l ON le.log_id = l.id]: one joined row per
    matching pair.  Joined rows with equal timestamps come in the order of
    table [logs] here; SQLite is free to return them in another order. *)
Definition join_embeddings (embs : list EmbeddingRow) (r : Row)
  : list (Row * EmbeddingRow) :=
  map (fun e => (r, e)) (List.filter (fun e => String.eqb (er_log_id e) (row_id r)) embs).

Definition joined_to_dict (p : Row * EmbeddingRow) : LogEmbedding :=
  {| le_id := er_log_id (snd p);
     le_embedding := er_embedding (snd p);
     le_content := row_content (fst p);
     le_timestamp := row_timestamp (fst p);
     le_tags := row_tags_json (fst p) |}.

Definition get_log_embeddings (db : Db) : result (list LogEmbedding) :=
  with_db db OpEmbeddings
    (map joined_to_dict
       (sort_desc (fun p => row_timestamp (fst p)) Z.ltb
          (flat_map (join_embeddings (log_embeddings db)) (logs db)))).

End Database.

(** ** [backend/services/agent/brain_agent.py] *)
Module Agent.
Import Database.

(** [np.dot(v1, v2)] on one-dimensional arrays: the products are summed from
    the left; arrays of different lengths raise [ValueError] (shapes not
    aligned).  numpy leaves the order of the sum and the fusing of a product
    with its addition to the library it is built on, so that its result may
    differ from this sum in the last places; nothing below asserts a value
    that depends on them. *)
Definition dot_sum (v1 v2 : list float) : float :=
  fold_left (fun acc p => (acc + fst p * snd p)%float) (combine v1 v2) 0%float.

Definition np_dot (v1 v2 : list float) : result float :=
  if (length v1 =? length v2)%nat then Ok (dot_sum v1 v2) else Raise ValueError.

(** [np.linalg.norm(v)] of a one-dimensional real array is [sqrt(v.dot(v))]. *)
Definition np_linalg_norm (v : list float) : float :=
  PrimFloat.sqrt (dot_sum v v).

Definition cosine_similarity (vec1 vec2 : list float) : result float :=
  let! dot := np_dot vec1 vec2 in
  let norm1 := np_linalg_norm vec1 in
  let norm2 := np_linalg_norm vec2 in
  if (norm1 =? 0)%float || (norm2 =? 0)%float then Ok 0%float
  else Ok (dot / (norm1 * norm2))%float.

(** The formula of [cosine_similarity] read in exact real arithmetic. *)
Definition dot_exact (v1 v2 : list R) : R :=
  fold_left (fun acc p => (acc + fst p * snd p)%R) (combine v1 v2) 0%R.

Definition norm_exact (v : list R) : R := R_sqrt.sqrt (dot_exact v v).

Definition cosine_exact (vec1 vec2 : list R) : R :=
  let dot := dot_exact vec1 vec2 in
  let norm1 := norm_exact vec1 in
  let norm2 := norm_exact vec2 in
  if Req_dec_T norm1 0%R then 0%R
  else if Req_dec_T norm2 0%R then 0%R
  else (dot / (norm1 * norm2))%R.

(** The [intent] dictionary.  [date_range] is [None] for a missing, null or
    empty entry; [semantic_query] and [needs_rag] are [None] when the key is
    missing ([intent.get(key, default)]).  The record holds the answers of
    the shape the prompt asks for; an answer of another shape (no
    dictionary, a tag that is no string) makes [intent.get] or [t.lower()]
    raise outside any [try] and is not held here. *)
Record Intent : Type := mkIntent {
  date_range : option (string * string);   (* "start", "end" *)
  tags : list string;
  semantic_query : option string;
  needs_rag : option bool
}.

(** An element of [results]: a log dictionary with its [retrieval_score].
    Entries built by the semantic channel have no "source" and no "summary"
    key ([rl_source] is [None] for them). *)
Record RetrievedLog : Type := mkRetrievedLog {
  rl_id : string;
  rl_content : string;
  rl_timestamp : Z;
  rl_tags : list Tag;
  rl_source : option string;
  rl_summary : option string;
  retrieval_score : float
}.

(** [log["retrieval_score"] = s] on a dictionary of the store. *)
Definition with_score (s : float) (l : Log) : RetrievedLog :=
  {| rl_id := log_id l;
     rl_content := log_content l;
     rl_timestamp := log_timestamp l;
     rl_tags := log_tags l;
     rl_source := Some (log_source l);
     rl_summary := log_summary l;
     retrieval_score := s |}.

Definition set_score (s : float) (r : RetrievedLog) : RetrievedLog :=
  {| rl_id := rl_id r;
     rl_content := rl_content r;
     rl_timestamp := rl_timestamp r;
     rl_tags := rl_tags r;
     rl_source := rl_source r;
     rl_summary := rl_summary r;
     retrieval_score := s |}.

(** What the retrieval step reads from outside: the database, the embedding
    service, and the two library calls of the date channel
    ([datetime.strptime(s, "%Y-%m-%d")], giving a day, and
    [int(d.timestamp() * 1000)], the local midnight of a day in epoch
    milliseconds). *)
Record Env : Type := mkEnv {
  db : Db;
  compute_embedding : string -> result (list float);
  strptime : string -> result Z;
  timestamp_ms : Z -> Z
}.

(** The two local variables of [_retrieve_logs]. *)
Record Acc : Type := mkAcc {
  results : list RetrievedLog;
  seen_ids : gset string
}.

Definition acc_empty : Acc := {| results := []; seen_ids := ∅ |}.

(** [results.append(entry); seen_ids.add(entry["id"])] *)
Definition acc_append (entry : RetrievedLog) (st : Acc) : Acc :=
  {| results := results st ++ [entry];
     seen_ids := seen_ids st ∪ {[ rl_id entry ]} |}.

(** [[
    for r in results:
        if r["id"] == id:
            r["retrieval_score"] = r.get("retrieval_score", 0) + delta
            break
    ]] *)
Fixpoint boost (id : string) (delta : float) (rs : list RetrievedLog)
  : list RetrievedLog :=
  match rs with
  | [] => []
  | r :: rs' =>
    if String.eqb (rl_id r) id
    then set_score (retrieval_score r + delta)%float r :: rs'
    else r :: boost id delta rs'
  end.

Definition acc_boost (id : string) (delta : float) (st : Acc) : Acc :=
  {| results := boost id delta (results st); seen_ids := seen_ids st |}.

(** *** Channel 1: date range *)

(** Body of [for log in date_logs]. *)
Definition date_step (st : Acc) (log : Log) : Acc :=
  if bool_decide (log_id log ∈ seen_ids st) then st
  else acc_append (with_score 1.0%float log) st.

(** The statements inside [try]: both dates are parsed, a day is added to
    the end date, the store is queried.  Adding the day and taking the
    timestamp are total here; in the source they raise on the last days a
    [datetime] can hold, which ends the channel like a date that cannot be
    parsed. *)
Definition date_query (env : Env) (range : string * string) : result (list Log) :=
  let! start := strptime env (fst range) in
  let! end_ := strptime env (snd range) in
  let end_ := (end_ + 1)%Z in
  get_logs_by_date_range (db env) (timestamp_ms env start) (timestamp_ms env end_).

Definition date_channel (env : Env) (intent : Intent) (st : Acc) : Acc :=
  match date_range intent with
  | None => st
  | Some range =>
    match date_query env range with
    | Ok date_logs => fold_left date_step date_logs st
    | Raise _ => st                      (* except Exception: logged *)
    end
  end.

(** *** Channel 2: tags (no [try] around it in the source) *)

Definition tag_step (st : Acc) (log : Log) : Acc :=
  if bool_decide (log_id log ∈ seen_ids st)
  then acc_boost (log_id log) 0.3%float st
  else acc_append (with_score 0.3%float log) st.

Definition tag_channel (env : Env) (intent : Intent) (st : Acc) : result Acc :=
  match tags intent with
  | [] => Ok st
  | _ :: _ =>
    let! tag_logs := get_logs_by_tags (db env) (tags intent) in
    Ok (fold_left tag_step tag_logs st)
  end.

(** *** Channel 3: semantic search *)

Definition from_embedding (s : float) (e : LogEmbedding) : RetrievedLog :=
  {| rl_id := le_id e;
     rl_content := le_content e;
     rl_timestamp := le_timestamp e;
     rl_tags := le_tags e;
     rl_source := None;
     rl_summary := None;
     retrieval_score := s |}.

(** Body of [for log_emb in log_embeddings] once [sim] is known. *)
Definition semantic_step (sim : float) (log_emb : LogEmbedding) (st : Acc) : Acc :=
  if (0.3 <? sim)%float then
    if bool_decide (le_id log_emb ∈ seen_ids st)
    then acc_boost (le_id log_emb) (sim * 0.7)%float st
    else acc_append (from_embedding (sim * 0.7)%float log_emb) st
  else st.

(** The loop runs inside [try]: when [cosine_similarity] raises, the loop
    stops and what was accumulated so far stays. *)
Fixpoint semantic_loop (query_embedding : list float)
  (log_embeddings : list LogEmbedding) (st : Acc) : Acc :=
  match log_embeddings with
  | [] => st
  | log_emb :: rest =>
    match cosine_similarity query_embedding (le_embedding log_emb) with
    | Ok sim => semantic_loop query_embedding rest (semantic_step sim log_emb st)
    | Raise _ => st
    end
  end.

Definition semantic_channel (env : Env) (query : string) (intent : Intent)
  (st : Acc) : Acc :=
  if default true (needs_rag intent) then
    match compute_embedding env (default query (semantic_query intent)) with
    | Raise _ => st
    | Ok query_embedding =>
      match get_log_embeddings (db env) with
      | Raise _ => st
      | Ok log_embeddings => semantic_loop query_embedding log_embeddings st
      end
    end
  else st.

(** *** The three channels, the fallback and the final ranking *)

Definition run_channels (env : Env) (query : string) (intent : Intent)
  : result Acc :=
  let st := date_channel env intent acc_empty in
  let! st := tag_channel env intent st in
  Ok (semantic_channel env query intent st).

(** [[
    if not results:
        results = get_all_logs(limit=20)
        for log in results: log["retrieval_score"] = 0.1
    ]] *)
Definition fallback (env : Env) (rs : list RetrievedLog)
  : result (list RetrievedLog) :=
  match rs with
  | [] =>
    let! recent := get_all_logs (db env) 20 in
    Ok (map (with_score 0.1%float) recent)
  | _ :: _ => Ok rs
  end.

(** [results.sort(key=lambda x: x.get("retrieval_score", 0), reverse=True)] *)
Definition sort_by_score (rs : list RetrievedLog) : list RetrievedLog :=
  sort_desc retrieval_score PrimFloat.ltb rs.

(** The list [results] just before it is sorted. *)
Definition accumulated (env : Env) (query : string) (intent : Intent)
  : result (list RetrievedLog) :=
  let! st := run_channels env query intent in
  fallback env (results st).

Definition _retrieve_logs (env : Env) (query : string) (intent : Intent)
  : result (list RetrievedLog) :=
  let! rs := accumulated env query intent in
  Ok (firstn 20 (sort_by_score rs)).

End Agent.

(** ** [backend/llm/base.py] *)
Module LLM.

(** *** The string operations [_extract_json] uses

    A text is a sequence of characters with code points below 256. *)

(** [str.isspace] and the regular expression class [\s], which agree:
    tab to carriage return, the separators 28 to 31, space, NEL and the
    no-break space. *)
Definition is_space (c : ascii) : bool :=
  let n := nat_of_ascii c in
  ((9 <=? n)%nat && (n <=? 13)%nat) || ((28 <=? n)%nat && (n <=? 32)%nat)
  || (n =? 133)%nat || (n =? 160)%nat.

Fixpoint drop_chars (n : nat) (s : string) : string :=
  match n, s with
  | S n', String _ s' => drop_chars n' s'
  | _, _ => s
  end.

Definition fence : string := "```".

(** The text after the first [```], if there is one. *)
Fixpoint after_fence (s : string) : option string :=
  match s with
  | EmptyString => None
  | String _ s' =>
    if String.prefix fence s then Some (drop_chars 3 s) else after_fence s'
  end.

(** [([\s\S]*?)```]: the shortest prefix that is followed by [```]. *)
Fixpoint until_fence (s : string) : option string :=
  match s with
  | EmptyString => None
  | String c s' =>
    if String.prefix fence s then Some EmptyString
    else option_map (String c) (until_fence s')
  end.

(** [(?:json)?]: greedy, and never given back, since what it would give
    back holds no backquote. *)
Definition skip_json (s : string) : string :=
  if String.prefix "json" s then drop_chars 4 s else s.

(** [\s*], greedy for the same reason; also [str.lstrip]. *)
Fixpoint lstrip (s : string) : string :=
  match s with
  | EmptyString => EmptyString
  | String c s' => if is_space c then lstrip s' else s
  end.

Fixpoint rstrip (s : string) : string :=
  match s with
  | EmptyString => EmptyString
  | String c s' =>
    match rstrip s' with
    | EmptyString => if is_space c then EmptyString else String c EmptyString
    | r => String c r
    end
  end.

Definition strip (s : string) : string := rstrip (lstrip s).

(** [re.search(r'```(?:json)?\s*([\s\S]*?)```', text)], giving [group(1)]
    of the leftmost match.  A match can only start at the first [```] of the
    text: a later start would end at a closing [```] that closes the first
    one as well. *)
Definition re_search_fenced (text : string) : option string :=
  match after_fence text with
  | None => None
  | Some rest => until_fence (lstrip (skip_json rest))
  end.

(** [text.find(c)]: the first index of [c], or -1. *)
Fixpoint find_from (c : ascii) (s : string) (i : Z) : Z :=
  match s with
  | EmptyString => (-1)%Z
  | String d s' => if Ascii.eqb d c then i else find_from c s' (i + 1)%Z
  end.

Definition str_find (c : ascii) (s : string) : Z := find_from c s 0%Z.

(** [text.rfind(c)]: the last index of [c], or -1. *)
Fixpoint rfind_from (c : ascii) (s : string) (i last : Z) : Z :=
  match s with
  | EmptyString => last
  | String d s' => rfind_from c s' (i + 1)%Z (if Ascii.eqb d c then i else last)
  end.

Definition str_rfind (c : ascii) (s : string) : Z := rfind_from c s 0%Z (-1)%Z.

(** [text[start:end_]] for [0 <= start <= end_]. *)
Definition slice (s : string) (start end_ : Z) : string :=
  String.substring (Z.to_nat start) (Z.to_nat (end_ - start)) s.

Section ExtractJson.

(** [json.loads] is the library's; [None] stands for [JSONDecodeError]. *)
Variable Json : Type.
Variable json_loads : string -> option Json.

(** The text that is parsed: the stripped content of the first fenced block
    when there is one, the text itself otherwise. *)
Definition candidate (text : string) : string :=
  match re_search_fenced text with
  | Some group1 => strip group1
  | None => text
  end.

(** The handler of [except json.JSONDecodeError]. *)
Definition brace_slice (text : string) : option string :=
  let start := str_find "{"%char text in
  let end_ := (str_rfind "}"%char text + 1)%Z in
  if negb (start =? -1)%Z && (start <? end_)%Z
  then Some (slice text start end_)
  else None.

Definition _extract_json (text : string) : result Json :=
  let text := candidate text in
  match json_loads text with
  | Some v => Ok v
  | None =>
    match brace_slice text with
    | Some inner =>
      match json_loads inner with
      | Some v => Ok v
      | None => Raise JSONDecodeError
      end
    | None => Raise JSONDecodeError            (* raise *)
    end
  end.

(** The three strategies of the specification, each applied to the text
    that was received. *)
Definition strategy_fenced (text : string) : option Json :=
  match re_search_fenced text with
  | Some group1 => json_loads (strip group1)
  | None => None
  end.

Definition strategy_direct (text : string) : option Json := json_loads text.

Definition strategy_braces (text : string) : option Json :=
  match brace_slice text with
  | Some inner => json_loads inner
  | None => None
  end.

End ExtractJson.

End LLM.

(** ** [backend/llm/factory.py] and the settings it reads *)
Module Factory.

(** The three provider classes; an instance keeps the key it was built
    with.  The constructors store their arguments; that of [GeminiLLM] also
    builds the client of the library, which is taken to succeed. *)
Inductive Provider : Type := DeepSeek | Gemini | OpenAI.

Record LLMInstance : Type := mkLLM {
  llm_provider : Provider;
  llm_api_key : string
}.

(** The class attribute [name]. *)
Definition name (p : Provider) : string :=
  match p with
  | DeepSeek => "DeepSeek"
  | Gemini => "Gemini"
  | OpenAI => "OpenAI"
  end.

(** [config/settings.py]: [AI_PROVIDER] is [os.getenv("AI_PROVIDER",
    "deepseek")], a string; a key is [os.getenv(...)], [None] when the
    variable is not set. *)
Record Settings : Type := mkSettings {
  AI_PROVIDER : string;
  DEEPSEEK_API_KEY : option string;
  GEMINI_API_KEY : option string;
  OPENAI_API_KEY : option string
}.

(** The default of [AI_PROVIDER] when the variable is not set. *)
Definition default_provider : string := "deepseek".

(** Truth value of a string: it is not empty. *)
Definition nonempty (s : string) : bool :=
  match s with EmptyString => false | String _ _ => true end.

(** Truth value of an optional string: it is there and not empty. *)
Definition is_set (k : option string) : bool :=
  match k with Some s => nonempty s | None => false end.

(** [provider or AI_PROVIDER] *)
Definition selected (cfg : Settings) (provider : option string) : string :=
  if is_set provider then default EmptyString provider else AI_PROVIDER cfg.

(** The three [if DEEPSEEK_API_KEY: ...] of the automatic choice. *)
Definition auto_detect (cfg : Settings) : result LLMInstance :=
  if is_set (DEEPSEEK_API_KEY cfg)
  then Ok (mkLLM DeepSeek (default EmptyString (DEEPSEEK_API_KEY cfg)))
  else if is_set (GEMINI_API_KEY cfg)
  then Ok (mkLLM Gemini (default EmptyString (GEMINI_API_KEY cfg)))
  else if is_set (OPENAI_API_KEY cfg)
  then Ok (mkLLM OpenAI (default EmptyString (OPENAI_API_KEY cfg)))
  else Raise ValueError.

Definition get_llm (cfg : Settings) (provider : option string) : result LLMInstance :=
  let selected_provider := selected cfg provider in
  if nonempty selected_provider then
    let selected_provider := Database.lower selected_provider in
    if String.eqb selected_provider "deepseek" && is_set (DEEPSEEK_API_KEY cfg)
    then Ok (mkLLM DeepSeek (default EmptyString (DEEPSEEK_API_KEY cfg)))
    else if String.eqb selected_provider "gemini" && is_set (GEMINI_API_KEY cfg)
    then Ok (mkLLM Gemini (default EmptyString (GEMINI_API_KEY cfg)))
    else if String.eqb selected_provider "openai" && is_set (OPENAI_API_KEY cfg)
    then Ok (mkLLM OpenAI (default EmptyString (OPENAI_API_KEY cfg)))
    else auto_detect cfg
  else auto_detect cfg.

(** [[
    try: return get_llm().name
    except ValueError: return "None"
    ]] *)
Definition get_current_provider_name (cfg : Settings) : result string :=
  match get_llm cfg None with
  | Ok llm => Ok (name (llm_provider llm))
  | Raise ValueError => Ok "None"
  | Raise e => Raise e
  end.

End Factory.

(** ** [backend/services/embedding.py]: the similarity matrix *)
Module Embedding.
Import Agent.

(** [matrix[i][j] = x]; the loops below only write inside the matrix. *)
Definition set_entry (matrix : list (list float)) (i j : nat) (x : float)
  : list (list float) :=
  <[i := <[j := x]> (matrix !!! i)]> matrix.

(** [[
    for j in range(i, n):
        sim = cosine_similarity(embeddings[i], embeddings[j])
        matrix[i][j] = sim
        matrix[j][i] = sim
    ]] *)
Fixpoint fill_row (embeddings : list (list float)) (i : nat) (js : list nat)
  (matrix : list (list float)) : result (list (list float)) :=
  match js with
  | [] => Ok matrix
  | j :: js' =>
    let! sim := cosine_similarity (embeddings !!! i) (embeddings !!! j) in
    fill_row embeddings i js' (set_entry (set_entry matrix i j sim) j i sim)
  end.

(** [for i in range(n): ...] *)
Fixpoint fill_rows (embeddings : list (list float)) (n : nat) (rows : list nat)
  (matrix : list (list float)) : result (list (list float)) :=
  match rows with
  | [] => Ok matrix
  | i :: rows' =>
    let! matrix := fill_row embeddings i (seq i (n - i)) matrix in
    fill_rows embeddings n rows' matrix
  end.

Definition compute_similarity_matrix (embeddings : list (list float))
  : result (list (list float)) :=
  let n := length embeddings in
  let matrix := replicate n (replicate n 0%float) in
  fill_rows embeddings n (seq 0 n) matrix.

End Embedding.

(** ** Python strings as sequences of code points *)
Module PyStr.

(** A [str] is a sequence of Unicode code points; [len] counts them.  The
    functions that measure, cut or strip a text work on this type; the
    retrieval step, which only compares and passes its strings on, keeps
    [string]. *)
Definition str : Type := list N.

Definition len (s : str) : Z := Z.of_nat (length s).

(** The code points of a literal whose characters are all ASCII. *)
Fixpoint lit (s : string) : str :=
  match s with
  | EmptyString => []
  | String c s' => N_of_ascii c :: lit s'
  end.

(** Truth value of a string. *)
Definition truthy (s : str) : bool :=
  match s with [] => false | _ :: _ => true end.

(** How a slice bound is read: a negative bound counts from the end, and
    every bound is brought into [0, len]. *)
Definition clamp (n i : Z) : Z :=
  if (i <? 0)%Z then Z.max (i + n) 0 else Z.min i n.

(** [s[a:b]] *)
Definition slice (s : str) (a b : Z) : str :=
  let a' := clamp (len s) a in
  let b' := clamp (len s) b in
  firstn (Z.to_nat (b' - a')) (skipn (Z.to_nat a') s).

(** [s[a:]] *)
Definition slice_from (s : str) (a : Z) : str :=
  skipn (Z.to_nat (clamp (len s) a)) s.

Fixpoint starts_with (p s : str) : bool :=
  match p, s with
  | [], _ => true
  | c :: p', d :: s' => N.eqb c d && starts_with p' s'
  | _ :: _, [] => false
  end.

(** [s.split(sep)] for a separator that is not empty: the text is cut at
    the occurrences of [sep] found from the left, none overlapping the one
    before.  [skip] counts the characters of a separator still to pass,
    [cur] is the piece being read. *)
Fixpoint split_go (sep : str) (skip : nat) (s cur : str) : list str :=
  match s with
  | [] => [cur]
  | c :: s' =>
    match skip with
    | S k => split_go sep k s' cur
    | O =>
      if starts_with sep s then cur :: split_go sep (length sep - 1) s' []
      else split_go sep 0 s' (cur ++ [c])
    end
  end.

Definition split (sep s : str) : list str := split_go sep 0 s [].

(** [s.replace(old, new)] for an [old] that is not empty: the occurrences
    found from the left, none overlapping the one before, are replaced. *)
Fixpoint replace_go (old new : str) (skip : nat) (s : str) : str :=
  match s with
  | [] => []
  | c :: s' =>
    match skip with
    | S k => replace_go old new k s'
    | O =>
      if starts_with old s then new ++ replace_go old new (length old - 1) s'
      else c :: replace_go old new 0 s'
    end
  end.

Definition replace (old new s : str) : str := replace_go old new 0 s.

(** [range(0, stop, step)] for a [stop] that is not negative: a zero step
    raises [ValueError], a negative step gives nothing. *)
Definition range_from_0 (stop step : Z) : result (list Z) :=
  if (step =? 0)%Z then Raise ValueError
  else if (step <? 0)%Z then Ok []
  else Ok (map (fun k => (Z.of_nat k * step)%Z)
               (seq 0 (Z.to_nat ((stop + step - 1) / step)))).

(** The characters the code names. *)
Definition newline : N := 10%N.
Definition space : N := 32%N.
Definition double_quote : N := 34%N.
Definition single_quote : N := 39%N.

(** [sep.join(items)] *)
Fixpoint join (sep : str) (items : list str) : str :=
  match items with
  | [] => []
  | [x] => x
  | x :: rest => x ++ sep ++ join sep rest
  end.

(** [str.isspace] of one character: the white space of Unicode. *)
Definition is_space (c : N) : bool :=
  ((9 <=? c) && (c <=? 13) || (28 <=? c) && (c <=? 32)
   || (c =? 133) || (c =? 160) || (c =? 5760)
   || (8192 <=? c) && (c <=? 8202)
   || (c =? 8232) || (c =? 8233) || (c =? 8239) || (c =? 8287) || (c =? 12288))%N.

Fixpoint lstrip_by (p : N -> bool) (s : str) : str :=
  match s with
  | [] => []
  | c :: s' => if p c then lstrip_by p s' else s
  end.

Definition rstrip_by (p : N -> bool) (s : str) : str := rev (lstrip_by p (rev s)).

Definition strip_by (p : N -> bool) (s : str) : str := rstrip_by p (lstrip_by p s).

(** [s.strip()] *)
Definition strip (s : str) : str := strip_by is_space s.

(** [s.strip(chars)] *)
Definition strip_chars (chars : str) (s : str) : str :=
  strip_by (fun c => existsb (N.eqb c) chars) s.

End PyStr.

(** ** [backend/services/embedding.py]: chunking *)
Module Chunking.
Import PyStr.
Local Open Scope Z_scope.

(** [config/settings.py] *)
Definition MAX_TOKENS : Z := 8192.
Definition CHUNK_OVERLAP : Z := 128.

Definition full_stop : N := 46%N.
(** The ideographic full stop, U+3002. *)
Definition ideographic_full_stop : N := 12290%N.

Definition estimate_tokens (text : str) : Z := len text / 3.

(** The two variables of the loops: [chunks] and [current_chunk]. *)
Definition State : Type := (list str * str)%type.

(** [if current_chunk: chunks.append(current_chunk)] *)
Definition flush (chunks : list str) (current_chunk : str) : list str :=
  if truthy current_chunk then chunks ++ [current_chunk] else chunks.

(** Body of [for sent in sentences]. *)
Definition sentence_step (max_chars overlap_chars : Z) (st : State) (sent : str)
  : result State :=
  let '(chunks, current_chunk) := st in
  if len current_chunk + len sent + 1 <=? max_chars then
    Ok (chunks, current_chunk ++ (if truthy current_chunk then [space] else []) ++ sent)
  else
    let chunks := flush chunks current_chunk in
    if len sent >? max_chars then
      let! starts := range_from_0 (len sent) (max_chars - overlap_chars) in
      Ok (chunks ++ map (fun i => slice sent i (i + max_chars)) starts, [])
    else Ok (chunks, sent).

Fixpoint sentence_loop (max_chars overlap_chars : Z) (sentences : list str)
  (st : State) : result State :=
  match sentences with
  | [] => Ok st
  | sent :: rest =>
    let! st := sentence_step max_chars overlap_chars st sent in
    sentence_loop max_chars overlap_chars rest st
  end.

(** [para.replace('。', '。\n').replace('. ', '.\n').split('\n')] *)
Definition sentences_of (para : str) : list str :=
  split [newline]
    (replace [full_stop; space] [full_stop; newline]
       (replace [ideographic_full_stop] [ideographic_full_stop; newline] para)).

(** Body of [for para in paragraphs]. *)
Definition paragraph_step (max_chars overlap_chars : Z) (st : State) (para : str)
  : result State :=
  let '(chunks, current_chunk) := st in
  if len current_chunk + len para + 2 <=? max_chars then
    Ok (chunks,
        current_chunk ++ (if truthy current_chunk then [newline; newline] else []) ++ para)
  else
    let chunks := flush chunks current_chunk in
    if len para >? max_chars then
      sentence_loop max_chars overlap_chars (sentences_of para) (chunks, [])
    else Ok (chunks, para).

Fixpoint paragraph_loop (max_chars overlap_chars : Z) (paragraphs : list str)
  (st : State) : result State :=
  match paragraphs with
  | [] => Ok st
  | para :: rest =>
    let! st := paragraph_step max_chars overlap_chars st para in
    paragraph_loop max_chars overlap_chars rest st
  end.

(** [chunks[i-1][-overlap_chars:] if len(chunks[i-1]) > overlap_chars else chunks[i-1]] *)
Definition prev_tail (overlap_chars : Z) (prev : str) : str :=
  if len prev >? overlap_chars then slice_from prev (- overlap_chars) else prev.

(** [[chunks[0]] + [prev_tail + " " + chunks[i] for i in 1..]]; [prev] is
    the chunk before, as it was before any overlap was added. *)
Fixpoint add_overlap (overlap_chars : Z) (prev : str) (chunks : list str) : list str :=
  match chunks with
  | [] => []
  | c :: rest => (prev_tail overlap_chars prev ++ [space] ++ c)
                 :: add_overlap overlap_chars c rest
  end.

Definition chunk_text (text : str) (max_tokens overlap : Z) : result (list str) :=
  let estimated_tokens := estimate_tokens text in
  if estimated_tokens <=? max_tokens then Ok [text]
  else
    let max_chars := max_tokens * 3 in
    let overlap_chars := overlap * 3 in
    let paragraphs := split [newline; newline] text in
    let! st := paragraph_loop max_chars overlap_chars paragraphs ([], []) in
    let '(chunks, current_chunk) := st in
    let chunks := flush chunks current_chunk in
    if (1 <? Z.of_nat (length chunks)) && (overlap_chars >? 0) then
      match chunks with
      | [] => Ok chunks
      | first :: rest => Ok (first :: add_overlap overlap_chars first rest)
      end
    else Ok chunks.

End Chunking.

(** ** [backend/services/ai_utils.py] *)
Module AiUtils.
Import PyStr Factory.

(** [llm.generate(prompt, temperature)] of the instance [get_llm] built: the
    call to the provider.  An answer that is no string makes [strip] raise
    inside the [try]; it is held as a failure of the call. *)
Definition Generate : Type := LLMInstance -> str -> float -> result str.

Definition title_prompt (first_message : str) : str :=
  lit "Generate a very short title (max 5 words) for a conversation that starts with this message:"
  ++ [newline] ++ [double_quote] ++ first_message ++ [double_quote] ++ [newline]
  ++ [newline]
  ++ lit "Respond with ONLY the title, no quotes, no explanation.".

Definition new_chat : str := lit "New Chat".

Definition generate_conversation_title (cfg : Settings) (generate : Generate)
  (first_message : str) : result str :=
  let! llm := get_llm cfg None in
  let prompt := title_prompt first_message in
  match generate llm prompt 0.5%float with
  | Ok response =>
    let title :=
      slice (strip (strip_chars [double_quote; single_quote] (strip response))) 0 50 in
    Ok (if truthy title then title else new_chat)
  | Raise _ => Ok new_chat                (* except Exception: logged *)
  end.

End AiUtils.

(** ** [backend/services/tag_extraction.py]: the batch *)
Module TagExtraction.
Import PyStr Factory.

(** The pydantic models [Tag] and [TagExtractionResult]. *)
Record Tag : Type := mkTag {
  name : str;
  category : str
}.

Record TagExtractionResult : Type := mkTagExtractionResult {
  tags : list Tag;
  summary : str
}.

(** An entry, a dictionary with the keys "id" and "content". *)
Record Entry : Type := mkEntry {
  entry_id : str;
  entry_content : str
}.

(** An element of [result["results"]] as the loop reads it:
    [r.get("index")], an integer or [None]; [r.get("summary")], a string
    when the key is there; [r.get("tags", [])], tags that pass the
    validation of the model. *)
Record ResultItem : Type := mkResultItem {
  item_index : option Z;
  item_summary : option str;
  item_tags : list Tag
}.

(** [llm.generate_json(prompt)] of the instance [get_llm] built, giving
    [result.get("results", [])].  An answer the loop cannot read this way
    (an index that is no integer, a tag or a summary the models refuse) is
    outside this type. *)
Definition GenerateResults : Type := LLMInstance -> str -> result (list ResultItem).

(** [str(i)] of a natural number *)
Definition decimal (i : nat) : str :=
  lit (DecimalString.NilEmpty.string_of_uint (Nat.to_uint i)).

(** [f"[{i}] {e['content']}" for i, e in enumerate(entries)] *)
Fixpoint numbered (i : nat) (entries : list Entry) : list str :=
  match entries with
  | [] => []
  | e :: rest => (lit "[" ++ decimal i ++ lit "] " ++ entry_content e) :: numbered (S i) rest
  end.

Definition batch_prompt (entries : list Entry) : str :=
  let entries_text := join [newline; newline] (numbered 0 entries) in
  lit "Analyze these developer work log entries and extract tags and summaries for each:

"
  ++ entries_text
  ++ lit "

For each entry, extract technical tags (Language, Framework, Concept, Task) and write a brief summary.

Respond in JSON format:
{
  "
  ++ [double_quote] ++ lit "results" ++ [double_quote]
  ++ lit ": [
    {" ++ [double_quote] ++ lit "index" ++ [double_quote]
  ++ lit ": 0, " ++ [double_quote] ++ lit "summary" ++ [double_quote]
  ++ lit ": " ++ [double_quote] ++ lit "string" ++ [double_quote] ++ lit ", "
  ++ [double_quote] ++ lit "tags" ++ [double_quote] ++ lit ": [{"
  ++ [double_quote] ++ lit "name" ++ [double_quote] ++ lit ": "
  ++ [double_quote] ++ lit "string" ++ [double_quote] ++ lit ", "
  ++ [double_quote] ++ lit "category" ++ [double_quote] ++ lit ": "
  ++ [double_quote] ++ lit "Language|Framework|Concept|Task|Other"
  ++ [double_quote]
  ++ lit "}]},
    ...
  ]
}".

(** [items[i]]: a negative index counts from the end; [None] stands for
    [IndexError]. *)
Definition py_index {A : Type} (items : list A) (i : Z) : option A :=
  let n := Z.of_nat (length items) in
  if ((0 <=? i) && (i <? n))%Z then items !! Z.to_nat i
  else if ((- n <=? i) && (i <? 0))%Z then items !! Z.to_nat (i + n)
  else None.

(** The value stored for [entry]. *)
Definition item_result (entry : Entry) (r : ResultItem) : TagExtractionResult :=
  {| tags := item_tags r;
     summary := default (slice (entry_content entry) 0 50) (item_summary r) |}.

(** [for r in result.get("results", []): ...], inside the [try]: an
    [IndexError] ends the loop and leaves [result_map] as it is by then. *)
Fixpoint batch_loop (entries : list Entry) (items : list ResultItem)
  (result_map : gmap str TagExtractionResult) : gmap str TagExtractionResult :=
  match items with
  | [] => result_map
  | r :: rest =>
    match item_index r with
    | None => batch_loop entries rest result_map
    | Some idx =>
      if (idx <? Z.of_nat (length entries))%Z then
        match py_index entries idx with
        | Some entry =>
          batch_loop entries rest (<[entry_id entry := item_result entry r]> result_map)
        | None => result_map
        end
      else batch_loop entries rest result_map
    end
  end.

Definition batch_process_entries (cfg : Settings) (generate_json : GenerateResults)
  (entries : list Entry) : result (gmap str TagExtractionResult) :=
  match entries with
  | [] => Ok ∅
  | _ :: _ =>
    let! llm := get_llm cfg None in
    match generate_json llm (batch_prompt entries) with
    | Ok items => Ok (batch_loop entries items ∅)
    | Raise _ => Ok ∅                      (* except Exception: logged *)
    end
  end.

End TagExtraction.

(** ** [backend/services/agent/brain_agent.py]: the intent and the answer *)
Module Pipeline.
Import Database Agent Factory.

(** What the agent asks of its LLM instance: [generate(prompt,
    temperature)], an answer in text, and [generate_json(prompt,
    temperature)], whose dictionary is read as an [Intent]. *)
Record Client : Type := mkClient {
  generate : string -> float -> result string;
  generate_json : string -> float -> result Intent
}.

(** A message of the conversation, a dictionary with the keys "role" and
    "content", both of which [_generate_answer] reads; a message without
    one of them raises before the [try] and is not held here. *)
Record Message : Type := mkMessage {
  role : string;
  content : string
}.

(** What the pipeline reads from outside, besides the LLM: the environment
    of the retrieval step, the settings, the provider behind an instance,
    the date of the day ([datetime.now().strftime('%Y-%m-%d')]), the local
    date of a timestamp ([datetime.fromtimestamp(ts / 1000).strftime(
    "%Y-%m-%d")], which raises on a timestamp out of range), and the text
    of an exception ([str(e)]). *)
Record World : Type := mkWorld {
  retrieval : Env;
  settings : Settings;
  backend : LLMInstance -> Client;
  today : string;
  format_date : Z -> result string;
  exn_text : exn -> string
}.

Definition dq : string := String (ascii_of_nat 34) EmptyString.
Definition quoted (s : string) : string := dq +:+ s +:+ dq.

(** [sep.join(items)] *)
Fixpoint join (sep : string) (items : list string) : string :=
  match items with
  | [] => EmptyString
  | [x] => x
  | x :: rest => x +:+ sep +:+ join sep rest
  end.

(** [items[-n:]] for a positive [n] *)
Definition last_n {A : Type} (n : nat) (items : list A) : list A :=
  skipn (length items - n) items.

(** The prompt of [_parse_intent]. *)
Definition intent_prompt (query today : string) : string :=
  "Analyze this user question and extract search intent:

User Question: "
  +:+ quoted query
  +:+ "
Current Date: " +:+ today
  +:+ "

Extract:
1. date_range: If user mentions time (last week, yesterday, January, etc.), convert to dates
2. tags: Technical keywords to search for (e.g., React, Python, CORS)
3. semantic_query: Core question for semantic search
4. needs_rag: Whether semantic search is needed

Respond in JSON:
{
    "
  +:+ quoted "date_range" +:+ ": {" +:+ quoted "start" +:+ ": "
  +:+ quoted "YYYY-MM-DD" +:+ ", " +:+ quoted "end" +:+ ": "
  +:+ quoted "YYYY-MM-DD"
  +:+ "} or null,
    " +:+ quoted "tags" +:+ ": [" +:+ quoted "tag1" +:+ ", "
  +:+ quoted "tag2"
  +:+ "] or [],
    " +:+ quoted "semantic_query" +:+ ": "
  +:+ quoted "core search query"
  +:+ ",
    " +:+ quoted "needs_rag"
  +:+ ": true or false
}

Examples:
- " +:+ quoted "上周我怎么解决CORS问题的"
  +:+ " → date_range: last week, tags: [" +:+ quoted "CORS"
  +:+ "], needs_rag: true
- " +:+ quoted "最近学了什么React"
  +:+ " → date_range: last 7 days, tags: [" +:+ quoted "React"
  +:+ "], needs_rag: false
- " +:+ quoted "总结一下Python项目经验"
  +:+ " → date_range: null, tags: [" +:+ quoted "Python"
  +:+ "], needs_rag: true".

(** The intent [_parse_intent] falls back on. *)
Definition default_intent (query : string) : Intent :=
  {| date_range := None; tags := []; semantic_query := Some query;
     needs_rag := Some true |}.

(** [_parse_intent]: the value it stores in [state["intent"]]. *)
Definition _parse_intent (llm : Client) (today query : string) : Intent :=
  match generate_json llm (intent_prompt query today) 0.3%float with
  | Ok result => result
  | Raise _ => default_intent query       (* except Exception: logged *)
  end.

(** [f"[{format_date(log['timestamp'])}] {log['content']}"] for each log,
    in order; the first date that cannot be formatted raises. *)
Fixpoint format_logs (w : World) (logs : list RetrievedLog) : result (list string) :=
  match logs with
  | [] => Ok []
  | log :: rest =>
    let! date := format_date w (rl_timestamp log) in
    let! lines := format_logs w rest in
    Ok (("[" +:+ date +:+ "] " +:+ rl_content log) :: lines)
  end.

Definition format_message (m : Message) : string :=
  (if String.eqb (role m) "user" then "User" else "Assistant") +:+ ": " +:+ content m.

Definition format_history (conversation_history : list Message) : string :=
  match conversation_history with
  | [] => EmptyString
  | _ :: _ =>
    let history :=
      join (String (ascii_of_nat 10) (String (ascii_of_nat 10) EmptyString))
        (map format_message (last_n 10 conversation_history)) in
    "
=== CONVERSATION HISTORY ===
" +:+ history +:+ "
"
  end.

(** The prompt of [_generate_answer]. *)
Definition answer_prompt (context history query : string) : string :=
  "You are a helpful AI assistant that knows my work history. Answer based on my work logs when relevant.

=== MY WORK LOGS ===
"
  +:+ (if nonempty context then context else "(No relevant logs found)")
  +:+ "
" +:+ history +:+ "
=== CURRENT QUESTION ===
" +:+ query +:+ "

Provide a helpful, conversational response. If relevant information is found in the logs, reference the dates.
Format your response with Markdown when appropriate (code blocks, lists, etc.).
If no relevant logs are found, say so but try to provide general helpful advice.".

(** [_generate_answer]: the value it stores in [state["answer"]].  The
    context is built before the [try]. *)
Definition _generate_answer (w : World) (llm : Client) (query : string)
  (conversation_history : list Message) (retrieved : list RetrievedLog)
  : result string :=
  let! lines := format_logs w (firstn 15 retrieved) in
  let context := join (String (ascii_of_nat 10) EmptyString) lines in
  let history := format_history conversation_history in
  let prompt := answer_prompt context history query in
  match generate llm prompt 0.7%float with
  | Ok answer => Ok answer
  | Raise e => Ok ("Sorry, I encountered an error: " +:+ exn_text w e)
  end.

End Pipeline.

(** ** A JSON reader for the worked examples

    [json.loads] stays a parameter of [_extract_json].  To run it on concrete
    texts the examples use this reader of a JSON fragment: objects, arrays,
    strings (with the two-character escapes), integers and the three
    literals.  On the texts of the examples it accepts and rejects what
    [json.loads] accepts and rejects. *)
Module MiniJson.

Inductive json : Type :=
| JNull
| JBool (b : bool)
| JInt (n : Z)
| JString (s : string)
| JArray (items : list json)
| JObject (members : list (string * json)).

Definition is_ws (c : ascii) : bool :=
  let n := nat_of_ascii c in
  (n =? 32)%nat || (n =? 9)%nat || (n =? 10)%nat || (n =? 13)%nat.

Fixpoint skip_ws (s : string) : string :=
  match s with
  | EmptyString => EmptyString
  | String c s' => if is_ws c then skip_ws s' else s
  end.

Definition is_digit (c : ascii) : bool :=
  let n := nat_of_ascii c in (48 <=? n)%nat && (n <=? 57)%nat.

Definition quote : ascii := ascii_of_nat 34.
Definition backslash : ascii := ascii_of_nat 92.

(** The characters of a string literal after its opening quote. *)
Fixpoint read_string (s : string) : option (string * string) :=
  match s with
  | EmptyString => None
  | String c s' =>
    if Ascii.eqb c quote then Some (EmptyString, s')
    else if Ascii.eqb c backslash then
      match s' with
      | String e s'' =>
        let unescaped :=
          if Ascii.eqb e quote then Some quote
          else if Ascii.eqb e backslash then Some backslash
          else if Ascii.eqb e "/"%char then Some "/"%char
          else if Ascii.eqb e "n"%char then Some (ascii_of_nat 10)
          else if Ascii.eqb e "t"%char then Some (ascii_of_nat 9)
          else if Ascii.eqb e "r"%char then Some (ascii_of_nat 13)
          else if Ascii.eqb e "b"%char then Some (ascii_of_nat 8)
          else if Ascii.eqb e "f"%char then Some (ascii_of_nat 12)
          else None in
        match unescaped, read_string s'' with
        | Some u, Some (body, rest) => Some (String u body, rest)
        | _, _ => None
        end
      | EmptyString => None
      end
    else if (nat_of_ascii c <? 32)%nat then None
    else
      match read_string s' with
      | Some (body, rest) => Some (String c body, rest)
      | None => None
      end
  end.

Fixpoint read_digits (s : string) (acc : Z) : Z * string :=
  match s with
  | String c s' =>
    if is_digit c
    then read_digits s' (10 * acc + Z.of_nat (nat_of_ascii c - 48))%Z
    else (acc, s)
  | EmptyString => (acc, s)
  end.

(** A number: an optional sign and digits, without a leading zero, a
    fraction or an exponent. *)
Definition read_int (s : string) : option (Z * string) :=
  let (neg, s1) :=
    match s with
    | String "-"%char s' => (true, s')
    | _ => (false, s)
    end in
  match s1 with
  | String c s2 =>
    if is_digit c then
      let (n, rest) := read_digits s1 0%Z in
      let leading_zero := Ascii.eqb c "0"%char && negb (String.eqb s2 rest) in
      let continues :=
        match rest with
        | String d _ =>
          Ascii.eqb d "."%char || Ascii.eqb d "e"%char || Ascii.eqb d "E"%char
        | EmptyString => false
        end in
      if leading_zero || continues then None
      else Some (if neg then (- n)%Z else n, rest)
    else None
  | EmptyString => None
  end.

(** [read_value], and the rest of an array or an object after its opening
    bracket ([first] tells whether an item or a closing bracket may come). *)
Fixpoint read_value (fuel : nat) (s : string) : option (json * string) :=
  match fuel with
  | O => None
  | S fuel' =>
    match skip_ws s with
    | String c s' =>
      if Ascii.eqb c "{"%char then
        option_map (fun p => (JObject (fst p), snd p)) (read_members fuel' true s')
      else if Ascii.eqb c "["%char then
        option_map (fun p => (JArray (fst p), snd p)) (read_items fuel' true s')
      else if Ascii.eqb c quote then
        option_map (fun p => (JString (fst p), snd p)) (read_string s')
      else if String.prefix "true" (String c s') then
        Some (JBool true, LLM.drop_chars 4 (String c s'))
      else if String.prefix "false" (String c s') then
        Some (JBool false, LLM.drop_chars 5 (String c s'))
      else if String.prefix "null" (String c s') then
        Some (JNull, LLM.drop_chars 4 (String c s'))
      else option_map (fun p => (JInt (fst p), snd p)) (read_int (String c s'))
    | EmptyString => None
    end
  end
with read_items (fuel : nat) (first : bool) (s : string)
  : option (list json * string) :=
  match fuel with
  | O => None
  | S fuel' =>
    match skip_ws s with
    | String c s' =>
      if Ascii.eqb c "]"%char then Some ([], s')
      else
        let item_at :=
          if first then Some (String c s')
          else if Ascii.eqb c ","%char then Some s' else None in
        match item_at with
        | None => None
        | Some s1 =>
          match read_value fuel' s1 with
          | None => None
          | Some (v, s2) =>
            match skip_ws s2 with
            | String d s3 =>
              if Ascii.eqb d "]"%char then Some ([v], s3)
              else if Ascii.eqb d ","%char then
                option_map (fun p => (v :: fst p, snd p))
                  (read_items fuel' false (String d s3))
              else None
            | EmptyString => None
            end
          end
        end
    | EmptyString => None
    end
  end
with read_members (fuel : nat) (first : bool) (s : string)
  : option (list (string * json) * string) :=
  match fuel with
  | O => None
  | S fuel' =>
    match skip_ws s with
    | String c s' =>
      if Ascii.eqb c "}"%char then (if first then Some ([], s') else None)
      else
        let key_at :=
          if first then Some (String c s')
          else if Ascii.eqb c ","%char then Some (skip_ws s') else None in
        match key_at with
        | Some (String q s1) =>
          if Ascii.eqb q quote then
            match read_string s1 with
            | None => None
            | Some (k, s2) =>
              match skip_ws s2 with
              | String colon s3 =>
                if Ascii.eqb colon ":"%char then
                  match read_value fuel' s3 with
                  | None => None
                  | Some (v, s4) =>
                    match skip_ws s4 with
                    | String d s5 =>
                      if Ascii.eqb d "}"%char then Some ([(k, v)], s5)
                      else if Ascii.eqb d ","%char then
                        option_map (fun p => ((k, v) :: fst p, snd p))
                          (read_members fuel' false (String d s5))
                      else None
                    | EmptyString => None
                    end
                  end
                else None
              | EmptyString => None
              end
            end
          else None
        | _ => None
        end
    | EmptyString => None
    end
  end.

(** [json.loads(text)]: one value, with nothing but blanks around it. *)
Definition loads (text : string) : option json :=
  match read_value (2 * String.length text + 2) text with
  | Some (v, rest) =>
    match skip_ws rest with
    | EmptyString => Some v
    | String _ _ => None
    end
  | None => None
  end.

End MiniJson.

(** ** A small corpus

    The scenario of the specification: log A lies in the date range of the
    question, log B carries the tag CORS, log C is semantically close to the
    question (similarity 0.6).  The clock is UTC. *)
Module Scenario.
Import Database Agent.

Definition tag_cors : Tag := mkTag (Some "CORS") "Concept".
Definition tag_python : Tag := mkTag (Some "python") "Language".

Definition row_a : Row :=
  mkRow "A" "fixed the login page" 1704200000000 [tag_python] "manual" None.
Definition row_b : Row :=
  mkRow "B" "CORS preflight" 1690000000000 [tag_cors] "manual" (Some "cors").
Definition row_c : Row :=
  mkRow "C" "cross-origin headers" 1680000000000 [] "external-commit" None.

Definition no_fault : StoreOp -> bool := fun _ => false.

Definition the_db : Db :=
  mkDb [row_c; row_a; row_b]
       [mkEmbeddingRow "A" [0; 1]%float;
        mkEmbeddingRow "B" [0; 1]%float;
        mkEmbeddingRow "C" [3; 4]%float]
       no_fault.

(** [strptime] on the two dates of the scenario (days since 1970-01-01). *)
Definition the_strptime (s : string) : result Z :=
  if String.eqb s "2024-01-01" then Ok 19723%Z
  else if String.eqb s "2024-01-07" then Ok 19729%Z
  else Raise ValueError.

Definition the_env : Env :=
  mkEnv the_db (fun _ => Ok [1; 0]%float) the_strptime (fun d => d * 86400000)%Z.

Definition the_intent : Intent :=
  mkIntent (Some ("2024-01-01", "2024-01-07")) ["cors"]
           (Some "how did I fix CORS") (Some true).

(** No date range, no tags, no semantic search. *)
Definition bare_intent : Intent := mkIntent None [] None (Some false).

Definition the_query : string := "how did I fix CORS last week".

(** What the retrieval step returns in the scenario: A with 1.0 (date), C
    with 0.6 * 0.7 (semantic) and B with 0.3 (tag). *)
Definition the_result : list RetrievedLog :=
  [ mkRetrievedLog "A" "fixed the login page" 1704200000000 [tag_python]
      (Some "manual") None 1%float;
    mkRetrievedLog "C" "cross-origin headers" 1680000000000 []
      None None (0.6 * 0.7)%float;
    mkRetrievedLog "B" "CORS preflight" 1690000000000 [tag_cors]
      (Some "manual") (Some "cors") 0.3%float ].

(** A busy week: twenty-one logs, "A" to "U", one per hour from the
    midnight of 2024-01-01. *)
Definition busy_row (n : nat) : Row :=
  mkRow (String (ascii_of_nat (65 + n)) EmptyString) "note"
        (1704067200000 + Z.of_nat n * 3600000)%Z [] "manual" None.

Definition busy_db : Db := mkDb (map busy_row (seq 0 21)) [] no_fault.

Definition busy_env : Env :=
  mkEnv busy_db (fun _ => Raise RuntimeError) the_strptime
        (fun d => d * 86400000)%Z.

Definition week_range : string * string := ("2024-01-01", "2024-01-07").

Definition week_intent : Intent := mkIntent (Some week_range) [] None (Some false).

(** A question whose embedding is the embedding of the one stored log. *)
Definition echo_db : Db :=
  mkDb [mkRow "E" "same words" 1700000000000 [] "manual" None]
       [mkEmbeddingRow "E" [1; 1; 1]%float]
       no_fault.

Definition echo_env : Env :=
  mkEnv echo_db (fun _ => Ok [1; 1; 1]%float) the_strptime
        (fun d => d * 86400000)%Z.

Definition semantic_intent : Intent := mkIntent None [] None None.

(** The scenario with a store whose tag query fails. *)
Definition tag_fault (op : StoreOp) : bool :=
  match op with OpByTags => true | _ => false end.

Definition tag_fault_env : Env :=
  mkEnv (mkDb (logs the_db) (log_embeddings the_db) tag_fault)
        (compute_embedding the_env) the_strptime (timestamp_ms the_env).

(** Two logs, tagged "react" and "React Native". *)
Definition row_react : Row :=
  mkRow "R1" "hooks" 1700000000000 [mkTag (Some "react") "Framework"] "manual" None.
Definition row_react_native : Row :=
  mkRow "R2" "mobile build" 1700000001000
        [mkTag (Some "React Native") "Framework"] "manual" None.

(** A third log, tagged with a name that is not written in ASCII. *)
Definition tag_cafe : Tag := mkTag (Some "café") "Other".

Definition row_cafe : Row :=
  mkRow "R3" "espresso notes" 1700000002000 [tag_cafe] "manual" None.

Definition names_db : Db :=
  mkDb [row_react; row_react_native; row_cafe] [] no_fault.

(** Tags only: no date range, no semantic search. *)
Definition tags_only_intent : Intent := mkIntent None ["cors"] None (Some false).

(** A date range that cannot be parsed, no tags, and a semantic search
    whose embedding service fails (the service of [busy_env]). *)
Definition unreadable_intent : Intent :=
  mkIntent (Some ("last week", "today")) [] None (Some true).

(** Two answers of a generative model.  The first is a JSON object one of
    whose strings holds a fenced block; the second shows a command in a
    fenced block and gives the JSON object after it. *)
Definition dq : string := String MiniJson.quote EmptyString.

Definition json_with_fence : string :=
  "{" +:+ dq +:+ "code" +:+ dq +:+ ": " +:+ dq +:+ "```x```" +:+ dq +:+ "}".

Definition answer_after_fence : string :=
  "Run ```pip install x``` first. Result: {}".

Definition fenced_answer : string :=
  "Here you go: ```json {} ``` Anything else?".

End Scenario.

(** ** Inputs of the examples *)
Module Examples.
Import Database Agent.

(** Three stored embeddings, the second of another dimension. *)
Definition emb_first : LogEmbedding := mkLogEmbedding "A" [1; 0]%float "first" 3 [].
Definition emb_odd : LogEmbedding := mkLogEmbedding "B" [1; 0; 0]%float "second" 2 [].
Definition emb_last : LogEmbedding := mkLogEmbedding "C" [1; 0]%float "third" 1 [].

(** Settings with the keys of Gemini and OpenAI, and none of DeepSeek. *)
Definition two_keys : Factory.Settings :=
  Factory.mkSettings "deepseek" None (Some "g-key") (Some "o-key").

(** A model that answers a prompt but returns no JSON. *)
Definition plain_client : Pipeline.Client :=
  Pipeline.mkClient (fun _ _ => Ok "It was the proxy.") (fun _ _ => Raise JSONDecodeError).

Definition the_world : Pipeline.World :=
  Pipeline.mkWorld Scenario.the_env two_keys (fun _ => plain_client) "2024-01-08"
    (fun _ => Ok "2024-01-02") (fun _ => "error").

Definition a_message (n : nat) : Pipeline.Message :=
  Pipeline.mkMessage (if Nat.even n then "user" else "assistant") "text".

(** Two entries of a batch. *)
Definition two_entries : list TagExtraction.Entry :=
  [TagExtraction.mkEntry (PyStr.lit "e1") (PyStr.lit "fixed the login page");
   TagExtraction.mkEntry (PyStr.lit "e2") (PyStr.lit "CORS preflight")].

End Examples.

(* ===================================================================== *)
(** * Part II: properties                                                 *)
(* ===================================================================== *)

(** ** Lists *)

Lemma StronglySorted_weaken {A} (R1 R2 : A -> A -> Prop) (l : list A) :
  (forall a b, a ∈ l -> b ∈ l -> R1 a b -> R2 a b) ->
  StronglySorted R1 l -> StronglySorted R2 l.
Proof.
  intros HR Hs. induction Hs as [|a l Hs IH Ha]; constructor.
  - apply IH. intros x y Hx Hy. apply HR; by constructor.
  - rewrite Forall_forall in Ha |- *. intros b Hb.
    apply HR; [constructor|by constructor|by apply Ha].
Qed.

Lemma elem_of_map {A B} (f : A -> B) (l : list A) (y : B) :
  y ∈ map f l <-> exists x, y = f x /\ x ∈ l.
Proof.
  rewrite list_elem_of_In, in_map_iff. split.
  - intros (x & <- & Hx). exists x. by rewrite list_elem_of_In.
  - intros (x & -> & Hx). exists x. by rewrite <- list_elem_of_In.
Qed.

Lemma StronglySorted_map {A B} (R : B -> B -> Prop) (f : A -> B) (l : list A) :
  StronglySorted (fun a b => R (f a) (f b)) l -> StronglySorted R (map f l).
Proof.
  induction l as [|a l IH]; simpl; [constructor|].
  intros [Hs Hall]%StronglySorted_inv. constructor; [by apply IH|].
  apply Forall_forall. intros b (x & -> & Hx)%elem_of_map.
  by apply (proj1 (Forall_forall _ _) Hall).
Qed.

Lemma StronglySorted_firstn {A} (R : A -> A -> Prop) (n : nat) (l : list A) :
  StronglySorted R l -> StronglySorted R (firstn n l).
Proof.
  intros H. rewrite <- (firstn_skipn n l) in H.
  by apply StronglySorted_app_1_l in H.
Qed.

(** ** The stable descending sort *)
Section StableSortFacts.
Context {A K : Type}.
Variable key : A -> K.
Variable lt : K -> K -> bool.

(** [valid] singles out the keys on which [lt] is a strict weak order (for
    floats: every value but NaN). *)
Variable valid : K -> Prop.
Hypothesis lt_asym : forall a b, valid a -> valid b -> lt a b = true -> lt b a = false.
Hypothesis lt_ntrans : forall a b c, valid a -> valid b -> valid c ->
  lt a b = false -> lt b c = false -> lt a c = false.

(** Keys that compare equal. *)
Definition same_key (k : K) (x : A) : bool :=
  negb (lt (key x) k) && negb (lt k (key x)).

Lemma lt_asym_irrefl a : valid a -> lt a a = false.
Proof.
  intros Ha. destruct (lt a a) eqn:E; [|done]. by rewrite (lt_asym a a Ha Ha E) in E.
Qed.

(** No element is followed, anywhere later, by one with a greater key. *)
Definition sorted_desc (l : list A) : Prop :=
  StronglySorted (fun a b => lt (key a) (key b) = false) l.

Lemma insert_desc_perm x l : Permutation (insert_desc key lt x l) (x :: l).
Proof.
  induction l as [|y l IH]; simpl; [reflexivity|].
  destruct (lt (key x) (key y)); [|reflexivity].
  rewrite IH. apply perm_swap.
Qed.

Lemma sort_desc_perm l : Permutation (sort_desc key lt l) l.
Proof.
  induction l as [|x l IH]; simpl; [reflexivity|].
  rewrite insert_desc_perm. by constructor.
Qed.

Lemma sort_desc_length l : length (sort_desc key lt l) = length l.
Proof. apply Permutation_length, sort_desc_perm. Qed.

Lemma sort_desc_elem_of x l : x ∈ sort_desc key lt l <-> x ∈ l.
Proof. by rewrite (sort_desc_perm l). Qed.

Lemma sort_desc_nil l : sort_desc key lt l = [] -> l = [].
Proof.
  intros H. apply Permutation_nil. rewrite <- H. apply sort_desc_perm.
Qed.

Lemma insert_desc_sorted x l :
  valid (key x) -> Forall (fun y => valid (key y)) l ->
  sorted_desc l -> sorted_desc (insert_desc key lt x l).
Proof.
  intros Hx Hl Hs. induction Hs as [|y l Hs IH Hy]; simpl.
  - repeat constructor.
  - apply Forall_cons in Hl as [Hvy Hl].
    destruct (lt (key x) (key y)) eqn:Hxy.
    + constructor; [by apply IH|].
      rewrite Forall_forall. intros z Hz.
      rewrite (insert_desc_perm x l) in Hz.
      apply elem_of_cons in Hz as [->|Hz].
      * by apply lt_asym.
      * rewrite Forall_forall in Hy. by apply Hy.
    + constructor; [by constructor|].
      constructor; [done|].
      rewrite Forall_forall in Hy, Hl |- *. intros z Hz.
      apply (lt_ntrans _ (key y)); auto.
Qed.

Lemma sort_desc_sorted l :
  Forall (fun y => valid (key y)) l -> sorted_desc (sort_desc key lt l).
Proof.
  induction 1 as [|x l Hx Hl IH]; simpl; [constructor|].
  apply insert_desc_sorted; [done| |done].
  rewrite Forall_forall in Hl |- *. intros y Hy. apply Hl.
  by apply sort_desc_elem_of.
Qed.

Lemma insert_desc_same_key k x l :
  valid k -> valid (key x) -> Forall (fun y => valid (key y)) l ->
  List.filter (same_key k) (insert_desc key lt x l)
  = List.filter (same_key k) (x :: l).
Proof.
  intros Hk Hx Hl. induction Hl as [|y l Hy Hl IH]; [done|].
  cbn [insert_desc]. destruct (lt (key x) (key y)) eqn:Hxy; [|done].
  cbn [List.filter] in *. rewrite IH.
  destruct (same_key k x) eqn:Ex, (same_key k y) eqn:Ey; try done.
  exfalso. unfold same_key in Ex, Ey.
  apply andb_prop in Ex as [Ex _], Ey as [_ Ey].
  apply negb_true_iff in Ex, Ey.
  rewrite (lt_ntrans (key x) k (key y)) in Hxy; auto. discriminate.
Qed.

(** Stability: the elements with a given key come out in the order they
    went in. *)
Lemma sort_desc_stable k l :
  valid k -> Forall (fun y => valid (key y)) l ->
  List.filter (same_key k) (sort_desc key lt l) = List.filter (same_key k) l.
Proof.
  intros Hk. induction 1 as [|x l Hx Hl IH]; [done|].
  cbn [sort_desc foldr]. rewrite insert_desc_same_key; auto.
  - cbn [List.filter]. fold (sort_desc key lt l). by rewrite IH.
  - rewrite Forall_forall in Hl |- *. intros y Hy. apply Hl.
    by apply sort_desc_elem_of.
Qed.

(** A list whose keys all compare equal is left as it is. *)
Lemma sort_desc_all_same l :
  (forall x y, x ∈ l -> y ∈ l -> lt (key x) (key y) = false) ->
  sort_desc key lt l = l.
Proof.
  induction l as [|x l IH]; intros H; [done|].
  cbn [sort_desc foldr]. fold (sort_desc key lt l).
  rewrite IH by (intros; apply H; by constructor).
  destruct l as [|y l]; [done|]. simpl.
  rewrite H; [done|constructor|constructor; constructor].
Qed.

(** Cutting a sorted list keeps the greatest keys. *)
Lemma sorted_desc_take n l x y :
  sorted_desc l -> x ∈ firstn n l -> y ∈ skipn n l ->
  lt (key x) (key y) = false.
Proof.
  intros Hs. revert n. induction Hs as [|z l Hs IH Hz]; intros n Hx Hy.
  - destruct n; simpl in *; by apply not_elem_of_nil in Hy.
  - destruct n as [|n]; simpl in *; [by apply not_elem_of_nil in Hx|].
    apply elem_of_cons in Hx as [->|Hx]; [|by eapply IH].
    rewrite Forall_forall in Hz. apply Hz.
    by eapply subseteq_drop.
Qed.

(** An element goes to the front of a block of keys that are not greater. *)
Lemma insert_desc_app x l1 l2 :
  (forall y, y ∈ l2 -> lt (key x) (key y) = false) ->
  insert_desc key lt x (l1 ++ l2) = insert_desc key lt x l1 ++ l2.
Proof.
  intros Hx. induction l1 as [|y l1 IH]; simpl.
  - destruct l2 as [|y l2]; [done|]. simpl. rewrite Hx; [done|constructor].
  - destruct (lt (key x) (key y)); [|done]. by rewrite IH.
Qed.

(** Sorting a block of keys followed by a block of keys that are not greater
    sorts the two blocks where they are. *)
Lemma sort_desc_app l1 l2 :
  (forall x y, x ∈ l1 -> y ∈ l2 -> lt (key x) (key y) = false) ->
  sort_desc key lt (l1 ++ l2) = sort_desc key lt l1 ++ sort_desc key lt l2.
Proof.
  intros H. induction l1 as [|x l1 IH]; [done|].
  cbn [app sort_desc foldr]. fold (sort_desc key lt (l1 ++ l2)) (sort_desc key lt l1).
  rewrite IH by (intros; apply H; [by constructor|done]).
  apply insert_desc_app. intros y Hy. apply H; [constructor|].
  by apply sort_desc_elem_of.
Qed.

(** There is one stable descending arrangement of a list: two sorted lists
    in which the elements of every key are the same, in the same order, are
    equal. *)
Lemma sorted_stable_unique l1 l2 :
  Forall (fun y => valid (key y)) l1 -> Forall (fun y => valid (key y)) l2 ->
  sorted_desc l1 -> sorted_desc l2 ->
  (forall k, valid k -> List.filter (same_key k) l1 = List.filter (same_key k) l2) ->
  l1 = l2.
Proof.
  intros Hv1. revert l2. induction Hv1 as [|x l1 Hx Hv1 IH]; intros l2 Hv2 Hs1 Hs2 Hf.
  - destruct l2 as [|y l2]; [done|]. apply Forall_cons in Hv2 as [Hy _].
    specialize (Hf (key y) Hy). simpl in Hf.
    unfold same_key in Hf at 1. rewrite (lt_asym_irrefl (key y)) in Hf; done.
  - assert (Hxx : same_key (key x) x = true).
    { unfold same_key. by rewrite lt_asym_irrefl. }
    pose proof (Hf (key x) Hx) as Hfx. simpl in Hfx. rewrite Hxx in Hfx.
    destruct l2 as [|y l2]; [done|].
    apply Forall_cons in Hv2 as [Hy Hv2].
    apply StronglySorted_inv in Hs1 as [Hs1 Hx1], Hs2 as [Hs2 Hy2].
    assert (y = x) as ->.
    { simpl in Hfx. destruct (same_key (key x) y) eqn:Exy; [by injection Hfx|].
      exfalso.
      assert (Hin : x ∈ l2).
      { apply list_elem_of_In. eapply (proj1 (filter_In _ _ _)).
        rewrite <- Hfx. by left. }
      rewrite Forall_forall in Hy2. specialize (Hy2 x Hin). simpl in Hy2.
      unfold same_key in Exy. rewrite Hy2 in Exy. simpl in Exy.
      apply negb_false_iff in Exy.
      pose proof (Hf (key y) Hy) as Hfy. simpl in Hfy.
      assert (Hyy : same_key (key y) y = true).
      { unfold same_key. by rewrite lt_asym_irrefl. }
      rewrite Hyy in Hfy.
      assert (Hyx : same_key (key y) x = false).
      { unfold same_key. by rewrite Exy. }
      rewrite Hyx in Hfy.
      assert (Hin1 : y ∈ l1).
      { apply list_elem_of_In. eapply (proj1 (filter_In _ _ _)).
        rewrite Hfy. by left. }
      rewrite Forall_forall in Hx1. specialize (Hx1 y Hin1). simpl in Hx1.
      congruence. }
    f_equal. apply IH; try done.
    intros k Hk. specialize (Hf k Hk). simpl in Hf.
    destruct (same_key k x); [by injection Hf|done].
Qed.

(** So [sort_desc] returns what any stable descending sort returns. *)
Lemma sort_desc_unique l l' :
  Forall (fun y => valid (key y)) l -> Forall (fun y => valid (key y)) l' ->
  sorted_desc l' ->
  (forall k, valid k -> List.filter (same_key k) l' = List.filter (same_key k) l) ->
  l' = sort_desc key lt l.
Proof.
  intros Hl Hl' Hs Hf. apply sorted_stable_unique; try done.
  - rewrite Forall_forall in Hl |- *. intros y Hy. apply Hl. by apply sort_desc_elem_of.
  - by apply sort_desc_sorted.
  - intros k Hk. rewrite sort_desc_stable by done. by apply Hf.
Qed.

End StableSortFacts.

(** ** The order of binary64 numbers

    [x <? y] on primitive floats is specified by [SFltb] on their
    [spec_float] images, a lexicographic comparison of sign, exponent and
    mantissa.  Ranking every number but NaN by a triple of integers turns
    it into the lexicographic order of the triples. *)
Module FloatOrder.

Definition rank (x : spec_float) : Z * Z * Z :=
  match x with
  | S754_infinity true => (-2, 0, 0)%Z
  | S754_finite true m e => (-1, - e, - Zpos m)%Z
  | S754_zero _ => (0, 0, 0)%Z
  | S754_nan => (0, 0, 0)%Z
  | S754_finite false m e => (1, e, Zpos m)%Z
  | S754_infinity false => (2, 0, 0)%Z
  end.

Definition lex_lt (a b : Z * Z * Z) : Prop :=
  let '(a1, a2, a3) := a in
  let '(b1, b2, b3) := b in
  (a1 < b1 \/ (a1 = b1 /\ (a2 < b2 \/ (a2 = b2 /\ a3 < b3))))%Z.

Definition not_nan (x : spec_float) : Prop := x <> S754_nan.

Lemma SFltb_rank x y :
  SFltb x y = true <-> not_nan x /\ not_nan y /\ lex_lt (rank x) (rank y).
Proof.
  unfold SFltb, not_nan.
  destruct x as [sx|sx| |sx mx ex], y as [sy|sy| |sy my ey];
    try destruct sx; try destruct sy; cbn -[Z.compare Pos.compare_cont];
    try (split; [discriminate | intros (? & ? & ?); (congruence || lia)]);
    try (split; [intros _; repeat split; (congruence || lia)|done]).
  - change (PosDef.Pos.compare_cont Eq mx my) with (Pos.compare mx my).
    destruct (Z.compare_spec ex ey); [destruct (Pos.compare_spec mx my)|..]; cbn;
      (split; [try discriminate; intros _; repeat split; (congruence || lia)
              | try done; intros (? & ? & ?); lia]).
  - change (PosDef.Pos.compare_cont Eq mx my) with (Pos.compare mx my).
    destruct (Z.compare_spec ex ey); [destruct (Pos.compare_spec mx my)|..]; cbn;
      (split; [try discriminate; intros _; repeat split; (congruence || lia)
              | try done; intros (? & ? & ?); lia]).
Qed.

Lemma Prim2SF_not_nan x : PrimFloat.is_nan x = false <-> not_nan (Prim2SF x).
Proof.
  unfold PrimFloat.is_nan, not_nan. rewrite negb_false_iff, FloatAxioms.eqb_spec.
  unfold SFeqb. destruct (Prim2SF x) as [s|s| |s m e]; cbn -[Z.compare Pos.compare_cont];
    try destruct s; try (split; congruence).
  - change (PosDef.Pos.compare_cont Eq m m) with (Pos.compare m m).
    rewrite Z.compare_refl, Pos.compare_refl. done.
  - change (PosDef.Pos.compare_cont Eq m m) with (Pos.compare m m).
    rewrite Z.compare_refl, Pos.compare_refl. done.
Qed.

Lemma ltb_rank (x y : float) :
  (x <? y)%float = true <->
  PrimFloat.is_nan x = false /\ PrimFloat.is_nan y = false
  /\ lex_lt (rank (Prim2SF x)) (rank (Prim2SF y)).
Proof. by rewrite FloatAxioms.ltb_spec, SFltb_rank, !Prim2SF_not_nan. Qed.

Lemma ltb_false_rank (x y : float) :
  PrimFloat.is_nan x = false -> PrimFloat.is_nan y = false ->
  (x <? y)%float = false <-> ~ lex_lt (rank (Prim2SF x)) (rank (Prim2SF y)).
Proof.
  intros Hx Hy. rewrite <- not_true_iff_false, ltb_rank. tauto.
Qed.

Lemma ltb_asym (a b : float) : (a <? b)%float = true -> (b <? a)%float = false.
Proof.
  rewrite ltb_rank. intros (Ha & Hb & H). apply ltb_false_rank; [done..|].
  destruct (rank (Prim2SF a)) as [[? ?] ?], (rank (Prim2SF b)) as [[? ?] ?].
  cbn in *. lia.
Qed.

Lemma ltb_irrefl (a : float) : (a <? a)%float = false.
Proof.
  destruct (a <? a)%float eqn:E; [|done]. by rewrite (ltb_asym _ _ E) in E.
Qed.

(** "Not less than" is transitive through a number that is not NaN. *)
Lemma ltb_ntrans (a b c : float) :
  PrimFloat.is_nan b = false ->
  (a <? b)%float = false -> (b <? c)%float = false -> (a <? c)%float = false.
Proof.
  intros Hb Hab Hbc.
  destruct (a <? c)%float eqn:Hac; [|done].
  apply ltb_rank in Hac as (Ha & Hc & Hac).
  apply ltb_false_rank in Hab, Hbc; try done.
  destruct (rank (Prim2SF a)) as [[? ?] ?], (rank (Prim2SF b)) as [[? ?] ?],
    (rank (Prim2SF c)) as [[? ?] ?].
  cbn in *. lia.
Qed.

(** [x <=? y] is "less or equal" in the same ranking. *)
Lemma SFleb_rank x y :
  SFleb x y = true <-> not_nan x /\ not_nan y /\ ~ lex_lt (rank y) (rank x).
Proof.
  unfold SFleb, not_nan.
  destruct x as [sx|sx| |sx mx ex], y as [sy|sy| |sy my ey];
    try destruct sx; try destruct sy; cbn -[Z.compare Pos.compare_cont];
    try (split; [discriminate | intros (? & ? & ?); (congruence || lia)]);
    try (split; [intros _; repeat split; (congruence || lia)|done]).
  - change (PosDef.Pos.compare_cont Eq mx my) with (Pos.compare mx my).
    destruct (Z.compare_spec ex ey); [destruct (Pos.compare_spec mx my)|..]; cbn;
      (split; [try discriminate; intros _; repeat split; (congruence || lia)
              | try done; intros (? & ? & ?); lia]).
  - change (PosDef.Pos.compare_cont Eq mx my) with (Pos.compare mx my).
    destruct (Z.compare_spec ex ey); [destruct (Pos.compare_spec mx my)|..]; cbn;
      (split; [try discriminate; intros _; repeat split; (congruence || lia)
              | try done; intros (? & ? & ?); lia]).
Qed.

Lemma leb_rank (x y : float) :
  (x <=? y)%float = true <->
  PrimFloat.is_nan x = false /\ PrimFloat.is_nan y = false
  /\ ~ lex_lt (rank (Prim2SF y)) (rank (Prim2SF x)).
Proof. by rewrite FloatAxioms.leb_spec, SFleb_rank, !Prim2SF_not_nan. Qed.

(** Among numbers, [x <=? y] says that [y] is not less than [x]. *)
Lemma leb_not_ltb (x y : float) :
  PrimFloat.is_nan x = false -> PrimFloat.is_nan y = false ->
  (x <=? y)%float = true <-> (y <? x)%float = false.
Proof.
  intros Hx Hy. rewrite leb_rank, ltb_false_rank by done. tauto.
Qed.

Lemma SFeqb_rank x y :
  SFeqb x y = true <-> not_nan x /\ not_nan y /\ rank x = rank y.
Proof.
  unfold SFeqb, not_nan.
  destruct x as [sx|sx| |sx mx ex], y as [sy|sy| |sy my ey];
    try destruct sx; try destruct sy; cbn -[Z.compare Pos.compare_cont];
    try (split; [discriminate | intros (? & ? & ?); congruence]);
    try (split; [intros _; repeat split; congruence|done]).
  - change (PosDef.Pos.compare_cont Eq mx my) with (Pos.compare mx my).
    destruct (Z.compare_spec ex ey); [destruct (Pos.compare_spec mx my)|..]; cbn;
      (split; [try discriminate; intros _; repeat split; (congruence || (f_equal; lia))
              | try done; intros (? & ? & [= ? ?]); lia]).
  - change (PosDef.Pos.compare_cont Eq mx my) with (Pos.compare mx my).
    destruct (Z.compare_spec ex ey); [destruct (Pos.compare_spec mx my)|..]; cbn;
      (split; [try discriminate; intros _; repeat split; (congruence || (f_equal; lia))
              | try done; intros (? & ? & [= ? ?]); lia]).
Qed.

(** Among numbers, [x =? y] says that neither is less than the other. *)
Lemma eqb_ltb (x y : float) :
  PrimFloat.is_nan x = false -> PrimFloat.is_nan y = false ->
  (x =? y)%float = negb (x <? y)%float && negb (y <? x)%float.
Proof.
  intros Hx Hy. apply eq_true_iff_eq.
  rewrite andb_true_iff, !negb_true_iff, !ltb_false_rank by done.
  rewrite FloatAxioms.eqb_spec, SFeqb_rank, <- !Prim2SF_not_nan.
  destruct (rank (Prim2SF x)) as [[a1 a2] a3], (rank (Prim2SF y)) as [[b1 b2] b3].
  cbn. split.
  - intros (_ & _ & [= -> -> ->]). lia.
  - intros [H1 H2]. repeat split; try done. f_equal; [f_equal|]; lia.
Qed.

Lemma leb_ltb_false (x y : float) : (x <=? y)%float = true -> (y <? x)%float = false.
Proof.
  rewrite leb_rank. intros (Hx & Hy & H). by apply ltb_false_rank.
Qed.

End FloatOrder.


(** ** Binary64 arithmetic

    Addition and multiplication of primitive floats are specified by
    [SFadd] and [SFmul], which round an exact integer mantissa with
    [binary_round_aux].  The lemmas below read that rounding as a division
    by a power of two followed by a correction of at most one unit, and
    derive the three facts the score fusion rests on: sums of non-negative
    scores are non-negative (so never NaN), a score that has reached 1.0
    stays at or above 1.0 when evidence is added, and 0.7 times a
    similarity between 0.3 and 1 is at most 0.7. *)
Module FloatArith.
Local Open Scope Z_scope.

Lemma digits2_pos_bounds p :
  2 ^ (Zpos (digits2_pos p) - 1) <= Zpos p < 2 ^ Zpos (digits2_pos p).
Proof.
  induction p as [p IH|p IH|]; cbn [digits2_pos].
  - rewrite Pos2Z.inj_succ.
    replace (Z.succ (Zpos (digits2_pos p)) - 1) with (Z.succ (Zpos (digits2_pos p) - 1)) by lia.
    rewrite !Z.pow_succ_r by lia. lia.
  - rewrite Pos2Z.inj_succ.
    replace (Z.succ (Zpos (digits2_pos p)) - 1) with (Z.succ (Zpos (digits2_pos p) - 1)) by lia.
    rewrite !Z.pow_succ_r by lia. lia.
  - cbn. lia.
Qed.

Lemma Zdigits2_bounds m : 0 < m -> 2 ^ (Zdigits2 m - 1) <= m < 2 ^ Zdigits2 m.
Proof. destruct m as [|p|p]; try lia. intros _. apply digits2_pos_bounds. Qed.

Lemma Zdigits2_pos m : 0 < m -> 0 < Zdigits2 m.
Proof. destruct m; cbn; lia. Qed.

Lemma Zdigits2_unique m d : 2 ^ (d - 1) <= m < 2 ^ d -> 0 < m -> Zdigits2 m = d.
Proof.
  intros [Hlo Hhi] Hm.
  pose proof (Zdigits2_bounds m Hm) as [Hlo' Hhi'].
  pose proof (Zdigits2_pos m Hm) as Hd.
  assert (0 < d).
  { destruct (Z_lt_le_dec 0 d); [done|]. 
    destruct (Z.eq_dec d 0) as [->|]; [cbn in Hhi; lia|].
    rewrite Z.pow_neg_r in Hhi by lia. lia. }
  destruct (Z.lt_trichotomy (Zdigits2 m) d) as [Hlt|[Heq|Hgt]]; [|done|].
  - assert (2 ^ Zdigits2 m <= 2 ^ (d - 1)) by (apply Z.pow_le_mono_r; lia). lia.
  - assert (2 ^ d <= 2 ^ (Zdigits2 m - 1)) by (apply Z.pow_le_mono_r; lia). lia.
Qed.

Lemma shr_1_m r : 0 <= shr_m r -> shr_m (shr_1 r) = shr_m r / 2.
Proof.
  destruct r as [m rr s]. cbn [shr_m]. intros Hm.
  destruct m as [|[p|p|]|p]; cbn [shr_1 shr_m]; [reflexivity| | |reflexivity|lia].
  - apply Z.div_unique with (r := 1); lia.
  - apply Z.div_unique with (r := 0); lia.
Qed.

Lemma iter_shr_1 p r :
  0 <= shr_m r -> shr_m (SpecFloat.iter_pos shr_1 p r) = shr_m r / 2 ^ Zpos p.
Proof.
  revert r. induction p as [p IH|p IH|]; intros r Hr; cbn [SpecFloat.iter_pos].
  - assert (H1 : 0 <= shr_m (shr_1 r)) by (rewrite shr_1_m by done; apply Z.div_pos; lia).
    assert (H2 : 0 <= shr_m (SpecFloat.iter_pos shr_1 p (shr_1 r))).
    { rewrite IH by done. apply Z.div_pos; lia. }
    rewrite IH, IH, shr_1_m by done.
    rewrite !Z.div_div by lia. f_equal.
    rewrite Pos2Z.inj_xI. rewrite <- Z.pow_add_r by lia.
    replace (2 * Zpos p + 1) with (Z.succ (Zpos p + Zpos p)) by lia.
    rewrite Z.pow_succ_r by lia. done.
  - assert (H2 : 0 <= shr_m (SpecFloat.iter_pos shr_1 p r)).
    { rewrite IH by done. apply Z.div_pos; lia. }
    rewrite IH, IH by done.
    rewrite !Z.div_div by lia. f_equal.
    rewrite Pos2Z.inj_xO. rewrite <- Z.pow_add_r by lia. f_equal. lia.
  - rewrite shr_1_m by done. done.
Qed.

Abbreviation fexp := (SpecFloat.fexp prec emax).
Abbreviation shr_fexp := (SpecFloat.shr_fexp prec emax).

Lemma shr_fexp_spec m e l :
  0 <= m ->
  let n := Z.max 0 (fexp (Zdigits2 m + e) - e) in
  shr_m (fst (shr_fexp m e l)) = m / 2 ^ n /\ snd (shr_fexp m e l) = e + n.
Proof.
  intros Hm n. unfold SpecFloat.shr_fexp, shr.
  assert (Hr : shr_m (shr_record_of_loc m l) = m) by (by destruct l as [|[]]).
  subst n. destruct (fexp (Zdigits2 m + e) - e) as [|p|p] eqn:E; cbn [fst snd].
  - rewrite Hr. cbn. rewrite Z.div_1_r. lia.
  - rewrite iter_shr_1 by lia. rewrite Hr. split; [f_equal; f_equal; lia | lia].
  - rewrite Hr. replace (Z.max 0 (Z.neg p)) with 0 by lia. cbn. rewrite Z.div_1_r. lia.
Qed.

Lemma round_nearest_even_bounds m l :
  m <= round_nearest_even m l <= m + 1.
Proof. destruct l as [|[]]; cbn; try destruct (Z.even m); lia. Qed.

(** What rounding returns once the mantissa is known. *)
Definition pack (sx : bool) (m e : Z) : spec_float :=
  match m with
  | Z0 => S754_zero sx
  | Zpos p => if e <=? emax - prec then S754_finite sx p e else S754_infinity sx
  | Zneg _ => S754_nan
  end.

Lemma binary_round_aux_spec sx m e l :
  0 <= m ->
  let n1 := Z.max 0 (fexp (Zdigits2 m + e) - e) in
  let m1 := m / 2 ^ n1 in
  let e1 := e + n1 in
  exists m2, m1 <= m2 <= m1 + 1 /\
    let n2 := Z.max 0 (fexp (Zdigits2 m2 + e1) - e1) in
    binary_round_aux prec emax sx m e l = pack sx (m2 / 2 ^ n2) (e1 + n2).
Proof.
  intros Hm n1 m1 e1. unfold binary_round_aux.
  pose proof (shr_fexp_spec m e l Hm) as [H1 H2].
  destruct (shr_fexp m e l) as [mrs' e'] eqn:E1. cbn [fst snd] in H1, H2.
  set (m2 := round_nearest_even (shr_m mrs') (loc_of_shr_record mrs')).
  exists m2. 
  pose proof (round_nearest_even_bounds (shr_m mrs') (loc_of_shr_record mrs')) as Hb.
  fold m2 in Hb. rewrite H1 in Hb. fold n1 m1 in Hb. split; [done|].
  assert (Hm1 : 0 <= m1) by (apply Z.div_pos; [lia|apply Z.pow_pos_nonneg; lia]).
  pose proof (shr_fexp_spec m2 e' loc_Exact ltac:(lia)) as [H3 H4].
  destruct (shr_fexp m2 e' loc_Exact) as [mrs'' e''] eqn:E2. cbn [fst snd] in H3, H4.
  cbv zeta. rewrite H3, H4, H2. fold n1 e1. reflexivity.
Qed.

Lemma compare_cont_Z p q : PosDef.Pos.compare_cont Eq p q = (Zpos p ?= Zpos q).
Proof. reflexivity. Qed.

Lemma fexp_eq p : fexp p = Z.max (p - 53) (-1074).
Proof. reflexivity. Qed.

Lemma pow2_pos k : 0 <= k -> 0 < 2 ^ k.
Proof. intros. apply Z.pow_pos_nonneg; lia. Qed.

Lemma Zdigits2_lower m k : 0 <= k -> 2 ^ k <= m -> k + 1 <= Zdigits2 m.
Proof.
  intros Hk Hm. pose proof (pow2_pos k Hk).
  pose proof (Zdigits2_bounds m ltac:(lia)) as [_ Hhi].
  pose proof (Zdigits2_pos m ltac:(lia)).
  destruct (Z_lt_le_dec k (Zdigits2 m)); [lia|].
  assert (2 ^ Zdigits2 m <= 2 ^ k) by (apply Z.pow_le_mono_r; lia). lia.
Qed.

Lemma Zdigits2_shift m k : 0 < m -> 0 <= k -> Zdigits2 (m * 2 ^ k) = Zdigits2 m + k.
Proof.
  intros Hm Hk. pose proof (pow2_pos k Hk).
  pose proof (Zdigits2_bounds m Hm) as [Hlo Hhi].
  pose proof (Zdigits2_pos m Hm).
  apply Zdigits2_unique; [|nia].
  replace (Zdigits2 m + k - 1) with (Zdigits2 m - 1 + k) by lia.
  rewrite !Z.pow_add_r by lia. nia.
Qed.

(** Dropping the low digits of a mantissa of at least 53 digits leaves 53. *)
Lemma div_pow2_normal m :
  0 < m -> 53 <= Zdigits2 m ->
  2 ^ 52 <= m / 2 ^ (Zdigits2 m - 53) < 2 ^ 53.
Proof.
  intros Hm Hd. pose proof (Zdigits2_bounds m Hm) as [Hlo Hhi].
  set (n := Zdigits2 m - 53) in *.
  assert (Hn : 0 <= n) by lia. pose proof (pow2_pos n Hn).
  replace (Zdigits2 m - 1) with (52 + n) in Hlo by lia.
  replace (Zdigits2 m) with (53 + n) in Hhi by lia.
  rewrite Z.pow_add_r in Hlo, Hhi by lia.
  split.
  - apply Z.div_le_lower_bound; lia.
  - apply Z.div_lt_upper_bound; lia.
Qed.

Lemma round_normal sx m e l :
  0 < m -> 53 <= Zdigits2 m -> -1074 <= Zdigits2 m + e - 53 ->
  let n := Zdigits2 m - 53 in
  exists m2, m / 2 ^ n <= m2 <= m / 2 ^ n + 1 /\ 2 ^ 52 <= m2 <= 2 ^ 53 /\
    binary_round_aux prec emax sx m e l
    = if m2 <? 2 ^ 53 then pack sx m2 (e + n) else pack sx (2 ^ 52) (e + n + 1).
Proof.
  intros Hm Hd He n.
  destruct (binary_round_aux_spec sx m e l ltac:(lia)) as (m2 & Hm2 & Hres).
  cbv zeta in *.
  assert (Hn1 : Z.max 0 (fexp (Zdigits2 m + e) - e) = n) by (rewrite fexp_eq; lia).
  rewrite Hn1 in Hres, Hm2.
  pose proof (div_pow2_normal m Hm Hd) as Hm1. fold n in Hm1.
  exists m2. split; [done|]. split; [lia|].
  rewrite Hres. destruct (m2 <? 2 ^ 53) eqn:E.
  - apply Z.ltb_lt in E.
    assert (Z.max 0 (fexp (Zdigits2 m2 + (e + n)) - (e + n)) = 0) as ->.
    { rewrite fexp_eq, (Zdigits2_unique m2 53) by lia. lia. }
    rewrite Z.pow_0_r, Z.div_1_r. f_equal. lia.
  - apply Z.ltb_ge in E. assert (m2 = 2 ^ 53) as -> by lia.
    assert (Z.max 0 (fexp (Zdigits2 (2 ^ 53) + (e + n)) - (e + n)) = 1) as ->.
    { rewrite fexp_eq, (Zdigits2_unique (2 ^ 53) 54) by (cbn; lia). lia. }
    reflexivity.
Qed.

(** The numbers that are not below zero: zeros, positive numbers, +infinity. *)
Definition sf_nonneg (x : spec_float) : bool :=
  match x with
  | S754_zero _ | S754_finite false _ _ | S754_infinity false => true
  | _ => false
  end.

Lemma pack_nonneg m e : 0 <= m -> sf_nonneg (pack false m e) = true.
Proof. destruct m; cbn; [done| |lia]. by destruct (_ <=? _). Qed.

Lemma shl_align_spec m e e' :
  e' <= e ->
  Zpos (fst (shl_align m e e')) = Zpos m * 2 ^ (e - e') /\ snd (shl_align m e e') = e'.
Proof.
  intros He. unfold shl_align. destruct (e' - e) as [|d|d] eqn:E; cbn [fst snd].
  - replace (e - e') with 0 by lia. lia.
  - lia.
  - replace (e - e') with (Zpos d) by lia. split; [|done].
    clear. induction d as [|d IH] using Pos.peano_ind.
    + cbn. lia.
    + rewrite Pos.iter_succ, Pos2Z.inj_xO, IH, Pos2Z.inj_succ, Z.pow_succ_r by lia. lia.
Qed.

Lemma binary_round_nonneg m e :
  sf_nonneg (binary_round prec emax false m e) = true.
Proof.
  unfold binary_round. destruct (shl_align _ _ _) as [mz ez].
  destruct (binary_round_aux_spec false (Zpos mz) ez loc_Exact ltac:(lia))
    as (m2 & Hm2 & ->).
  apply pack_nonneg. apply Z.div_pos; [|apply pow2_pos; lia].
  assert (0 <= Zpos mz / 2 ^ Z.max 0 (fexp (Zdigits2 (Zpos mz) + ez) - ez))
    by (apply Z.div_pos; [lia|apply pow2_pos; lia]).
  lia.
Qed.

Lemma SFadd_nonneg x y :
  sf_nonneg x = true -> sf_nonneg y = true -> sf_nonneg (SF64add x y) = true.
Proof.
  destruct x as [sx|[]| |[] mx ex], y as [sy|[]| |[] my ey]; try done.
  - by destruct sx, sy.
  - intros _ _. unfold SF64add, SFadd. cbn [cond_Zopp].
    change (Zpos ?a + Zpos ?b) with (Zpos (a + b)). cbn [binary_normalize].
    apply binary_round_nonneg.
Qed.

Lemma SFmul_nonneg x y :
  sf_nonneg x = true -> sf_nonneg y = true ->
  (forall s, x = S754_zero s -> y <> S754_infinity false) ->
  (forall s, y = S754_zero s -> x <> S754_infinity false) ->
  sf_nonneg (SF64mul x y) = true.
Proof.
  destruct x as [sx|[]| |[] mx ex], y as [sy|[]| |[] my ey]; try done.
  - intros _ _ H _. by destruct (H sx).
  - intros _ _ _ H. by destruct (H sy).
  - intros _ _ _ _. unfold SF64mul, SFmul. cbn [xorb].
    destruct (binary_round_aux_spec false (Zpos (mx * my)) (ex + ey) loc_Exact ltac:(lia))
      as (m2 & Hm2 & ->).
    apply pack_nonneg. apply Z.div_pos; [|apply pow2_pos; lia].
    assert (0 <= Zpos (mx * my) / 2 ^ Z.max 0 (fexp (Zdigits2 (Zpos (mx * my)) + (ex + ey)) - (ex + ey)))
      by (apply Z.div_pos; [lia|apply pow2_pos; lia]).
    lia.
Qed.

Lemma shl_align_ge m e e' : e <= e' -> shl_align m e e' = (m, e).
Proof. intros He. unfold shl_align. destruct (e' - e) eqn:E; (done || lia). Qed.

Definition sf_one : spec_float := S754_finite false 4503599627370496 (-52).

(** The numbers that are at least one. *)
Definition sf_ge_one (x : spec_float) : Prop :=
  match x with
  | S754_infinity false => True
  | S754_finite false m e => -52 < e \/ (e = -52 /\ 2 ^ 52 <= Zpos m)
  | _ => False
  end.

Lemma SFleb_one x : SFleb sf_one x = true <-> sf_ge_one x.
Proof.
  unfold SFleb, sf_one.
  destruct x as [s|[]| |[] m e]; cbn -[Z.compare Pos.compare_cont Z.pow]; try done.
  rewrite compare_cont_Z.
  change (2 ^ 52) with 4503599627370496.
  destruct (Z.compare_spec (-52) e);
    [destruct (Z.compare_spec 4503599627370496 (Zpos m))|..];
    (split; [try done; intros _; lia | try done; intros [?|[? ?]]; exfalso; lia]).
Qed.

Lemma pack_ge_one m e :
  2 ^ 52 <= m -> -52 <= e -> sf_ge_one (pack false m e).
Proof.
  intros Hm He. destruct m as [|p|p]; try (cbn in Hm; lia).
  cbn -[Z.pow]. destruct (_ <=? _); cbn -[Z.pow]; [lia|done].
Qed.

(** A valid number that is at least one has a full mantissa. *)
Lemma valid_ge_one_digits m e :
  valid_binary (S754_finite false m e) = true ->
  sf_ge_one (S754_finite false m e) ->
  Zdigits2 (Zpos m) = 53 /\ -52 <= e.
Proof.
  cbn -[Z.pow]. unfold bounded, canonical_mantissa.
  intros Hv Hge. apply andb_prop in Hv as [Hc _]. apply Z.eqb_eq in Hc.
  rewrite fexp_eq in Hc. lia.
Qed.

Lemma binary_round_ge_one m e :
  1 <= Zdigits2 (Zpos m) + e ->
  sf_ge_one (binary_round prec emax false m e).
Proof.
  intros Hp. unfold binary_round.
  change (Zpos (digits2_pos m)) with (Zdigits2 (Zpos m)).
  set (t := fexp (Zdigits2 (Zpos m) + e)).
  assert (Ht : t = Zdigits2 (Zpos m) + e - 53) by (unfold t; rewrite fexp_eq; lia).
  destruct (Z_le_gt_dec t e) as [Hle|Hgt].
  - pose proof (shl_align_spec m e t Hle) as [Hmz Hez].
    destruct (shl_align m e t) as [mz ez]. cbn [fst snd] in Hmz, Hez. subst ez.
    assert (Hd : Zdigits2 (Zpos mz) = 53).
    { rewrite Hmz, Zdigits2_shift by lia. lia. }
    destruct (round_normal false (Zpos mz) t loc_Exact) as (m2 & _ & Hm2 & ->);
      [lia..|].
    rewrite Hd. destruct (m2 <? 2 ^ 53); apply pack_ge_one; lia.
  - rewrite shl_align_ge by lia.
    destruct (round_normal false (Zpos m) e loc_Exact) as (m2 & _ & Hm2 & ->);
      [lia..|].
    destruct (m2 <? 2 ^ 53); apply pack_ge_one; lia.
Qed.

Lemma SFadd_ge_one x y :
  valid_binary x = true ->
  sf_ge_one x -> sf_nonneg y = true -> sf_ge_one (SF64add x y).
Proof.
  destruct x as [sx|[]| |[] mx ex], y as [sy|[]| |[] my ey]; try done.
  intros Hv Hx _.
  destruct (valid_ge_one_digits mx ex Hv Hx) as [Hd He].
  unfold SF64add, SFadd. cbn [cond_Zopp].
  change (Zpos ?a + Zpos ?b) with (Zpos (a + b)). cbn [binary_normalize].
  apply binary_round_ge_one.
  pose proof (shl_align_spec mx ex (Z.min ex ey) ltac:(lia)) as [Ha _].
  set (a := fst (shl_align mx ex (Z.min ex ey))) in *.
  set (b := fst (shl_align my ey (Z.min ex ey))).
  pose proof (Zdigits2_bounds (Zpos mx) ltac:(lia)) as [Hlo _].
  rewrite Hd in Hlo.
  assert (0 <= 52 + (ex - Z.min ex ey)) by lia.
  assert (2 ^ (52 + (ex - Z.min ex ey)) <= Zpos (a + b)).
  { rewrite Z.pow_add_r by lia. rewrite Pos2Z.inj_add, Ha.
    pose proof (pow2_pos (ex - Z.min ex ey) ltac:(lia)). nia. }
  pose proof (Zdigits2_lower (Zpos (a + b)) (52 + (ex - Z.min ex ey))
                ltac:(lia) ltac:(done)).
  lia.
Qed.

Lemma Zdigits2_upper m k : 0 < m -> m < 2 ^ k -> Zdigits2 m <= k.
Proof.
  intros Hm Hk. pose proof (Zdigits2_bounds m Hm) as [Hlo _].
  pose proof (Zdigits2_pos m Hm).
  destruct (Z_le_gt_dec (Zdigits2 m) k); [done|].
  assert (0 <= k).
  { destruct (Z_lt_le_dec k 0); [|done]. rewrite Z.pow_neg_r in Hk; lia. }
  assert (2 ^ k <= 2 ^ (Zdigits2 m - 1)) by (apply Z.pow_le_mono_r; lia). lia.
Qed.

Definition sf_0_7 : spec_float := S754_finite false 6305039478318694 (-53).
Definition sf_0_3 : spec_float := S754_finite false 5404319552844595 (-54).

Lemma SFleb_pack_0_7 m e :
  0 < m -> e < -53 \/ (e = -53 /\ m <= 6305039478318694) ->
  SFleb (pack false m e) sf_0_7 = true.
Proof.
  intros Hm He. destruct m as [|p|p]; try lia. unfold pack.
  replace (e <=? emax - prec) with true
    by (symmetry; apply Z.leb_le; change (emax - prec) with 971; lia).
  unfold SFleb, sf_0_7. cbn -[Z.compare Pos.compare_cont].
  rewrite compare_cont_Z.
  destruct (Z.compare_spec e (-53));
    [destruct (Z.compare_spec (Zpos p) 6305039478318694)|..]; try done; exfalso; lia.
Qed.

Lemma SFltb_0_3 x :
  SFltb sf_0_3 x = true ->
  x = S754_infinity false \/
  exists m e, x = S754_finite false m e /\ -54 <= e.
Proof.
  unfold SFltb, sf_0_3.
  destruct x as [s|[]| |[] m e]; cbn -[Z.compare Pos.compare_cont]; try done.
  - by left.
  - intros H. right. exists m, e. split; [done|].
    destruct (Z.compare_spec (-54) e); (lia || discriminate).
Qed.

Lemma SFleb_sf_one x m e :
  x = S754_finite false m e ->
  SFleb x sf_one = true -> e < -52 \/ (e = -52 /\ Zpos m <= 2 ^ 52).
Proof.
  intros ->. unfold SFleb, sf_one. cbn -[Z.compare Pos.compare_cont Z.pow].
  rewrite compare_cont_Z.
  change (2 ^ 52) with 4503599627370496.
  destruct (Z.compare_spec e (-52));
    [destruct (Z.compare_spec (Zpos m) 4503599627370496)|..]; try done; intros _; lia.
Qed.

(** Damping by 0.7 keeps a similarity between 0.3 and 1 at or below 0.7. *)
Lemma SFmul_0_7_le x :
  valid_binary x = true ->
  SFltb sf_0_3 x = true -> SFleb x sf_one = true ->
  SFleb (SF64mul x sf_0_7) sf_0_7 = true.
Proof.
  intros Hv Hlo Hhi.
  destruct (SFltb_0_3 x Hlo) as [->|(m & e & -> & He)]; [done|].
  pose proof (SFleb_sf_one _ m e eq_refl Hhi) as Hle.
  assert (Hd : Zdigits2 (Zpos m) = 53).
  { cbn in Hv. unfold bounded, canonical_mantissa in Hv.
    apply andb_prop in Hv as [Hc _]. apply Z.eqb_eq in Hc.
    rewrite fexp_eq in Hc. change (Zpos (digits2_pos m)) with (Zdigits2 (Zpos m)) in Hc. lia. }
  pose proof (Zdigits2_bounds (Zpos m) ltac:(lia)) as Hm. rewrite Hd in Hm.
  change (2 ^ (53 - 1)) with 4503599627370496 in Hm.
  change (2 ^ 53) with 9007199254740992 in Hm.
  change (2 ^ 52) with 4503599627370496 in Hle.
  destruct (Z.eq_dec e (-52)) as [->|Hne].
  - assert (m = 4503599627370496%positive) as -> by lia. vm_compute. reflexivity.
  - unfold SF64mul, SFmul, sf_0_7. cbn [xorb].
    set (P := Zpos (m * 6305039478318694)).
    assert (HP : P = Zpos m * 6305039478318694) by (unfold P; lia).
    assert (HPlo : 2 ^ 104 <= P).
    { change (2 ^ 104) with (4503599627370496 * 4503599627370496). nia. }
    assert (HPhi : P < 2 ^ 106).
    { change (2 ^ 106) with (9007199254740992 * 9007199254740992). nia. }
    pose proof (Zdigits2_lower P 104 ltac:(lia) HPlo) as Hd1.
    pose proof (Zdigits2_upper P 106 ltac:(lia) HPhi) as Hd2.
    destruct (round_normal false P (e + -53) loc_Exact) as (m2 & Hm2 & Hb & ->);
      [lia..|].
    change (2 ^ 52) with 4503599627370496 in *.
    change (2 ^ 53) with 9007199254740992 in *.
    destruct (m2 <? 9007199254740992) eqn:E.
    + apply Z.ltb_lt in E. apply SFleb_pack_0_7; [lia|].
      destruct (Z.eq_dec (Zdigits2 P) 106) as [Hd106|]; [|lia].
      destruct (Z.eq_dec e (-53)) as [->|]; [|lia].
      right. split; [lia|].
      rewrite Hd106 in Hm2. change (2 ^ (106 - 53)) with 9007199254740992 in Hm2.
      assert (P / 9007199254740992 < 6305039478318694); [|lia].
      apply Z.div_lt_upper_bound; lia.
    + apply Z.ltb_ge in E. apply SFleb_pack_0_7; [lia|].
      destruct (Z.eq_dec (Zdigits2 P) 106) as [Hd106|]; [|lia].
      destruct (Z.eq_dec e (-53)) as [->|]; [|lia].
      exfalso.
      rewrite Hd106 in Hm2. change (2 ^ (106 - 53)) with 9007199254740992 in Hm2.
      assert (P / 9007199254740992 < 6305039478318694); [|lia].
      apply Z.div_lt_upper_bound; lia.
Qed.

(** *** The same facts on primitive floats *)
Local Open Scope float_scope.

Lemma Prim2SF_0 : Prim2SF 0 = S754_zero false.
Proof. reflexivity. Qed.
Lemma Prim2SF_1 : Prim2SF 1 = sf_one.
Proof. reflexivity. Qed.
Lemma Prim2SF_0_3 : Prim2SF 0.3 = sf_0_3.
Proof. reflexivity. Qed.
Lemma Prim2SF_0_7 : Prim2SF 0.7 = sf_0_7.
Proof. reflexivity. Qed.

Lemma nonneg_spec x : (0 <=? x) = true <-> sf_nonneg (Prim2SF x) = true.
Proof.
  rewrite FloatAxioms.leb_spec, Prim2SF_0.
  by destruct (Prim2SF x) as [s|[]| |[] m e].
Qed.

Lemma nonneg_not_nan x : (0 <=? x) = true -> PrimFloat.is_nan x = false.
Proof.
  rewrite nonneg_spec. unfold PrimFloat.is_nan.
  rewrite negb_false_iff, FloatAxioms.eqb_spec. unfold SFeqb.
  destruct (Prim2SF x) as [s|[]| |[] m e]; try done.
  intros _. cbn -[Z.compare Pos.compare_cont].
  rewrite compare_cont_Z, !Z.compare_refl. done.
Qed.

Lemma add_nonneg x y : (0 <=? x) = true -> (0 <=? y) = true -> (0 <=? x + y) = true.
Proof. rewrite !nonneg_spec, add_spec. apply SFadd_nonneg. Qed.

Lemma mul_0_7_nonneg sim : (0.3 <? sim) = true -> (0 <=? sim * 0.7) = true.
Proof.
  rewrite nonneg_spec, mul_spec, FloatAxioms.ltb_spec, Prim2SF_0_3, Prim2SF_0_7.
  intros H. destruct (SFltb_0_3 _ H) as [->|(m & e & -> & _)]; [done|].
  by apply SFmul_nonneg.
Qed.

Lemma add_ge_one x y : (1 <=? x) = true -> (0 <=? y) = true -> (1 <=? x + y) = true.
Proof.
  rewrite nonneg_spec, !FloatAxioms.leb_spec, add_spec, Prim2SF_1, !SFleb_one.
  apply SFadd_ge_one, Prim2SF_valid.
Qed.

Lemma mul_0_7_le sim :
  (0.3 <? sim) = true -> (sim <=? 1) = true -> (sim * 0.7 <=? 0.7) = true.
Proof.
  rewrite FloatAxioms.ltb_spec, !FloatAxioms.leb_spec, mul_spec,
    Prim2SF_1, Prim2SF_0_3, Prim2SF_0_7.
  apply SFmul_0_7_le, Prim2SF_valid.
Qed.

End FloatArith.

(** ** The store accessors *)
Module DatabaseFacts.
Import Database.

Lemma Z_ltb_asym (a b : Z) : True -> True -> (a <? b)%Z = true -> (b <? a)%Z = false.
Proof. lia. Qed.

Lemma Z_ltb_ntrans (a b c : Z) :
  True -> True -> True ->
  (a <? b)%Z = false -> (b <? c)%Z = false -> (a <? c)%Z = false.
Proof. lia. Qed.

Lemma order_by_timestamp_desc_perm rows :
  Permutation (order_by_timestamp_desc rows) rows.
Proof. apply sort_desc_perm. Qed.

(** [ORDER BY timestamp DESC]: no row is followed by a more recent one. *)
Lemma order_by_timestamp_desc_sorted rows :
  StronglySorted (fun a b => (row_timestamp b <= row_timestamp a)%Z)
    (order_by_timestamp_desc rows).
Proof.
  eapply StronglySorted_weaken;
    [|apply (sort_desc_sorted row_timestamp Z.ltb (fun _ => True)
               Z_ltb_asym Z_ltb_ntrans); by apply Forall_true].
  intros a b _ _. cbv beta. lia.
Qed.

Lemma sql_limit_sublist {A} limit (rows : list A) :
  sql_limit limit rows `sublist_of` rows.
Proof.
  unfold sql_limit. destruct (limit <? 0)%Z; [done|apply sublist_take].
Qed.

Lemma sql_limit_length {A} (limit : Z) (rows : list A) :
  (0 <= limit)%Z -> length (sql_limit limit rows) = Nat.min (Z.to_nat limit) (length rows).
Proof.
  intros H. unfold sql_limit.
  destruct (limit <? 0)%Z eqn:E; [lia|]. apply length_take.
Qed.

Lemma sql_limit_map {A B} (f : A -> B) limit (rows : list A) :
  map f (sql_limit limit rows) = sql_limit limit (map f rows).
Proof.
  unfold sql_limit. destruct (limit <? 0)%Z; [done|]. symmetry. apply firstn_map.
Qed.

Lemma row_to_log_id rows : map log_id (map row_to_log rows) = map row_id rows.
Proof. by rewrite map_map. Qed.

(** The ids [get_all_logs] returns are distinct when those of the table are. *)
Lemma get_all_logs_NoDup db limit recent :
  NoDup (map row_id (logs db)) ->
  get_all_logs db limit = Ok recent -> NoDup (map log_id recent).
Proof.
  unfold get_all_logs, with_db. intros Hnd H.
  destruct (db_fault db OpAllLogs); [discriminate|]. injection H as <-.
  rewrite row_to_log_id.
  rewrite sql_limit_map.
  eapply sublist_NoDup; [|apply sql_limit_sublist].
  by rewrite (Permutation_map row_id (order_by_timestamp_desc_perm (logs db))).
Qed.

(** *** Names written in ASCII, compared without regard to case

    The comparison in the words of the specification, stated without
    [lower]: two names are the same when they have the same length and, place
    by place, the same character, or the same letter of A to Z in either
    case. *)

(** [c] is the small letter of the capital [C], one of A to Z. *)
Definition small_of (C c : ascii) : Prop :=
  nat_of_ascii c = nat_of_ascii C + 32 /\ 65 <= nat_of_ascii C <= 90.

Definition same_letter (c d : ascii) : Prop :=
  c = d \/ small_of c d \/ small_of d c.

Fixpoint eq_ignore_case (a b : string) : Prop :=
  match a, b with
  | EmptyString, EmptyString => True
  | String c a', String d b' => same_letter c d /\ eq_ignore_case a' b'
  | _, _ => False
  end.

(** A text whose characters are all ASCII characters. *)
Fixpoint all_ascii (s : string) : Prop :=
  match s with
  | EmptyString => True
  | String c s' => nat_of_ascii c < 128 /\ all_ascii s'
  end.

(** On such a text [lower] folds A to Z, byte by byte. *)
Definition fold_char (c : ascii) : ascii :=
  if (65 <=? nat_of_ascii c)%nat && (nat_of_ascii c <=? 90)%nat
  then ascii_of_nat (nat_of_ascii c + 32) else c.

Fixpoint fold_case (s : string) : string :=
  match s with
  | EmptyString => EmptyString
  | String c s' => String (fold_char c) (fold_case s')
  end.

Lemma nat_of_ascii_inj c d : nat_of_ascii c = nat_of_ascii d -> c = d.
Proof.
  intros H. rewrite <- (ascii_nat_embedding c), <- (ascii_nat_embedding d).
  by rewrite H.
Qed.

Lemma nat_of_fold_char c :
  (65 <= nat_of_ascii c <= 90 /\
   nat_of_ascii (fold_char c) = nat_of_ascii c + 32) \/
  (~ 65 <= nat_of_ascii c <= 90 /\ fold_char c = c).
Proof.
  unfold fold_char. pose proof (nat_ascii_bounded c) as Hb.
  destruct (_ && _) eqn:E.
  - rewrite andb_true_iff, !Nat.leb_le in E.
    left. split; [lia|]. apply nat_ascii_embedding. lia.
  - rewrite andb_false_iff, !Nat.leb_gt in E. right. split; [lia|done].
Qed.

Lemma fold_char_eq c d : fold_char c = fold_char d <-> same_letter c d.
Proof.
  unfold same_letter, small_of.
  destruct (nat_of_fold_char c) as [[Hc Hlc]|[Hc Hlc]];
    destruct (nat_of_fold_char d) as [[Hd Hld]|[Hd Hld]].
  - split.
    + intros H. left. apply nat_of_ascii_inj. rewrite H in Hlc. lia.
    + intros [->|[[H1 H2]|[H1 H2]]]; [done| |]; lia.
  - rewrite Hld. split.
    + intros <-. right. by left.
    + intros [->|[[H1 H2]|[H1 H2]]]; [done| |tauto].
      apply nat_of_ascii_inj. lia.
  - rewrite Hlc. split.
    + intros ->. right. by right.
    + intros [->|[[H1 H2]|[H1 H2]]]; [done|tauto|].
      apply nat_of_ascii_inj. lia.
  - rewrite Hlc, Hld. split; [by left|]. intros [->|[[H1 H2]|[H1 H2]]]; tauto.
Qed.

Lemma fold_case_eq a b : fold_case a = fold_case b <-> eq_ignore_case a b.
Proof.
  revert b. induction a as [|c a IH]; intros [|d b]; simpl; try done.
  rewrite <- IH, <- fold_char_eq. split; [by intros [= -> ->]|by intros [-> ->]].
Qed.

Lemma eq_ignore_case_length a b :
  eq_ignore_case a b -> String.length a = String.length b.
Proof.
  revert b. induction a as [|c a IH]; intros [|d b]; simpl; try done.
  intros [_ H]. f_equal. by apply IH.
Qed.

(** The tables on the 128 ASCII characters, by running through them: none
    is the capital sigma or the dotted capital I, and the small letter the
    table gives is that of [fold_char]. *)
Definition ascii_row_ok (n : nat) : bool :=
  let c := ascii_of_nat n in
  negb (byte c =? 931)%N && negb (byte c =? 304)%N && (byte c <? 128)%N
  && (lower_in lower_table (byte c) =? byte (fold_char c))%N
  && (byte (fold_char c) <? 128)%N.

Lemma ascii_rows_ok : forallb ascii_row_ok (seq 0 128) = true.
Proof. vm_compute. reflexivity. Qed.

Lemma ascii_row c :
  nat_of_ascii c < 128 ->
  (byte c <? 128)%N = true /\ (byte c =? 931)%N = false /\
  lower_full (byte c) = [byte (fold_char c)] /\
  nat_of_ascii (fold_char c) < 128.
Proof.
  intros Hc. pose proof ascii_rows_ok as H. rewrite forallb_forall in H.
  specialize (H (nat_of_ascii c)). rewrite in_seq in H.
  specialize (H ltac:(lia)). unfold ascii_row_ok in H. cbv zeta in H.
  rewrite ascii_nat_embedding in H.
  rewrite !andb_true_iff, !negb_true_iff in H.
  destruct H as ((((H1 & H2) & H3) & H4) & H5).
  split; [done|]. split; [done|].
  split; [unfold lower_full; rewrite H2; by apply N.eqb_eq in H4 as ->|].
  apply N.ltb_lt in H5. unfold byte in H5. unfold nat_of_ascii. lia.
Qed.

Lemma all_ascii_fold_case s : all_ascii s -> all_ascii (fold_case s).
Proof.
  induction s as [|c s IH]; simpl; [done|]. intros [Hc Hs].
  split; [by apply ascii_row|by apply IH].
Qed.

(** The code points of an ASCII text are its bytes. *)
Lemma utf8_decode_ascii s :
  all_ascii s -> utf8_decode s = map byte (list_ascii_of_string s).
Proof.
  induction s as [|c s IH]; [done|]. intros [Hc Hs].
  cbn [utf8_decode list_ascii_of_string map].
  destruct (ascii_row c Hc) as (-> & _). by rewrite IH.
Qed.

Lemma utf8_encode_ascii s :
  all_ascii s -> utf8_encode (map byte (list_ascii_of_string s)) = s.
Proof.
  induction s as [|c s IH]; [done|]. intros [Hc Hs].
  cbn [list_ascii_of_string map utf8_encode]. unfold utf8_char.
  destruct (ascii_row c Hc) as (-> & _). rewrite IH by done.
  unfold chr, byte. by rewrite ascii_N_embedding.
Qed.

Lemma lower_go_ascii before s :
  all_ascii s ->
  lower_go before (map byte (list_ascii_of_string s))
  = map byte (list_ascii_of_string (fold_case s)).
Proof.
  revert before. induction s as [|c s IH]; intros before; [done|]. intros [Hc Hs].
  cbn [list_ascii_of_string map lower_go fold_case].
  destruct (ascii_row c Hc) as (_ & -> & -> & _). by rewrite IH.
Qed.

(** [lower] on an ASCII text. *)
Lemma lower_ascii s : all_ascii s -> lower s = fold_case s.
Proof.
  intros Hs. unfold lower.
  rewrite utf8_decode_ascii, lower_go_ascii by done.
  apply utf8_encode_ascii. by apply all_ascii_fold_case.
Qed.

(** Two names written in ASCII have the same lowercase form exactly when
    they are the same name without regard to case. *)
Lemma lower_eq_ignore_case a b :
  all_ascii a -> all_ascii b -> (lower a = lower b <-> eq_ignore_case a b).
Proof.
  intros Ha Hb. rewrite !lower_ascii by done. apply fold_case_eq.
Qed.

Lemma map_lower_ignore_case names names' :
  Forall all_ascii names -> Forall all_ascii names' ->
  Forall2 eq_ignore_case names names' -> map lower names = map lower names'.
Proof.
  intros Ha Hb H. induction H as [|a b names names' Hab _ IH]; simpl; [done|].
  apply Forall_cons in Ha as [Ha Has]. apply Forall_cons in Hb as [Hb Hbs].
  f_equal; [by apply lower_eq_ignore_case|by apply IH].
Qed.

(** A log is chosen when the lowercase form of one of its tag names is that
    of one of the names asked for. *)
Lemma tags_match_spec tag_names row :
  tags_match (map lower tag_names) row = true <->
  exists t name, t ∈ row_tags_json row /\ name ∈ tag_names /\
    lower (name_of t) = lower name.
Proof.
  unfold tags_match, str_in. rewrite existsb_exists. split.
  - intros (n & (t & <- & Ht)%in_map_iff & Hex).
    apply existsb_exists in Hex as (n' & (name & <- & Hname)%in_map_iff & Heq).
    apply String.eqb_eq in Heq. exists t, name.
    by rewrite !list_elem_of_In.
  - intros (t & name & Ht & Hname & Heq).
    apply list_elem_of_In in Ht. apply list_elem_of_In in Hname.
    exists (lower (name_of t)). split; [apply in_map_iff; by exists t|].
    apply existsb_exists. exists (lower name).
    split; [apply in_map_iff; by exists name|]. by apply String.eqb_eq.
Qed.

(** What [get_all_logs(limit=20)] returns, in rows of the table: the rows
    split into the returned ones, most recent first, and older ones. *)
Lemma get_all_logs_recent_rows (d : Db) (recent : list Log) :
  get_all_logs d 20 = Ok recent ->
  exists rows older : list Row,
    recent = map row_to_log rows /\
    Permutation (logs d) (rows ++ older) /\
    length rows = Nat.min 20 (length (logs d)) /\
    StronglySorted (fun a b => (row_timestamp b <= row_timestamp a)%Z) rows /\
    (forall a b, a ∈ rows -> b ∈ older -> (row_timestamp b <= row_timestamp a)%Z).
Proof.
  unfold get_all_logs, with_db. destruct (db_fault _ _); [done|]. intros [= <-].
  set (sorted := order_by_timestamp_desc (logs d)).
  pose proof (order_by_timestamp_desc_sorted (logs d)) as Hsorted.
  pose proof (order_by_timestamp_desc_perm (logs d)) as Hperm.
  fold sorted in Hsorted, Hperm.
  exists (firstn 20 sorted), (skipn 20 sorted).
  change (sql_limit 20 sorted) with (firstn 20 sorted).
  split; [done|]. split; [by rewrite firstn_skipn|]. split.
  { rewrite length_take. f_equal. by apply Permutation_length. }
  split; [by apply StronglySorted_firstn|].
  intros a b Ha Hb. rewrite <- (firstn_skipn 20 sorted) in Hsorted.
  by eapply StronglySorted_app_1_elem_of in Hsorted.
Qed.

End DatabaseFacts.

(** ** The retrieval step: what every channel keeps true *)
Module AgentFacts.
Import Database Agent.

Definition ids (rs : list RetrievedLog) : list string := map rl_id rs.

(** A score that is a number and not below zero. *)
Definition score_ok (s : float) : Prop := (0 <=? s)%float = true.

(** [seen_ids] is the set of the ids in [results], no id occurs twice in
    [results], and every score is a non-negative number. *)
Record acc_inv (st : Acc) : Prop := mk_acc_inv {
  inv_seen : seen_ids st = list_to_set (ids (results st));
  inv_nodup : NoDup (ids (results st));
  inv_scores : Forall (fun r => score_ok (retrieval_score r)) (results st)
}.

Lemma fold_left_preserves {S X} (P : S -> Prop) (f : S -> X -> S) (l : list X) (s : S) :
  (forall s x, P s -> P (f s x)) -> P s -> P (fold_left f l s).
Proof. intros Hf. revert s. induction l; simpl; auto. Qed.

Lemma boost_ids id delta rs : ids (boost id delta rs) = ids rs.
Proof.
  induction rs as [|r rs IH]; [done|]. simpl.
  destruct (String.eqb (rl_id r) id); simpl; [done|]. by rewrite IH.
Qed.

Lemma boost_length id delta rs : length (boost id delta rs) = length rs.
Proof. rewrite <- (length_map rl_id), <- (length_map rl_id rs). apply (f_equal length), boost_ids. Qed.

Lemma boost_scores id delta rs :
  score_ok delta ->
  Forall (fun r => score_ok (retrieval_score r)) rs ->
  Forall (fun r => score_ok (retrieval_score r)) (boost id delta rs).
Proof.
  intros Hd. induction 1 as [|r rs Hr Hrs IH]; simpl; [constructor|].
  destruct (String.eqb (rl_id r) id); constructor; auto.
  simpl. by apply FloatArith.add_nonneg.
Qed.

Lemma acc_inv_empty : acc_inv acc_empty.
Proof. split; simpl; [done|constructor|constructor]. Qed.

Lemma elem_of_seen st id : acc_inv st -> id ∈ seen_ids st <-> id ∈ ids (results st).
Proof. intros [-> _ _]. apply elem_of_list_to_set. Qed.

Lemma acc_append_inv entry st :
  acc_inv st -> rl_id entry ∉ seen_ids st -> score_ok (retrieval_score entry) ->
  acc_inv (acc_append entry st).
Proof.
  intros Hinv Hnew Hs. pose proof (elem_of_seen st (rl_id entry) Hinv) as Hin.
  destruct Hinv as [Hseen Hnd Hsc]. split; simpl.
  - unfold ids. rewrite map_app. simpl. rewrite list_to_set_snoc_L. by rewrite Hseen.
  - unfold ids. rewrite map_app. simpl. apply NoDup_app. repeat split; [done| |].
    + intros x Hx ->%list_elem_of_singleton. apply Hnew, Hin, Hx.
    + apply NoDup_singleton.
  - apply Forall_app. split; [done|]. by constructor.
Qed.

Lemma acc_boost_inv id delta st :
  acc_inv st -> score_ok delta -> acc_inv (acc_boost id delta st).
Proof.
  intros [Hseen Hnd Hsc] Hd. split; simpl.
  - by rewrite boost_ids.
  - by rewrite boost_ids.
  - by apply boost_scores.
Qed.

Lemma score_ok_1 : score_ok 1%float.
Proof. reflexivity. Qed.
Lemma score_ok_0_3 : score_ok 0.3%float.
Proof. reflexivity. Qed.
Lemma score_ok_0_1 : score_ok 0.1%float.
Proof. reflexivity. Qed.

Lemma date_step_inv st log : acc_inv st -> acc_inv (date_step st log).
Proof.
  intros H. unfold date_step. case_bool_decide; [done|].
  apply acc_append_inv; [done..|apply score_ok_1].
Qed.

Lemma tag_step_inv st log : acc_inv st -> acc_inv (tag_step st log).
Proof.
  intros H. unfold tag_step. case_bool_decide.
  - apply acc_boost_inv; [done|apply score_ok_0_3].
  - apply acc_append_inv; [done..|apply score_ok_0_3].
Qed.

Lemma semantic_step_inv sim log_emb st :
  acc_inv st -> acc_inv (semantic_step sim log_emb st).
Proof.
  intros H. unfold semantic_step. destruct (0.3 <? sim)%float eqn:E; [|done].
  apply FloatArith.mul_0_7_nonneg in E. case_bool_decide.
  - by apply acc_boost_inv.
  - by apply acc_append_inv.
Qed.

Lemma semantic_loop_inv q embs st : acc_inv st -> acc_inv (semantic_loop q embs st).
Proof.
  revert st. induction embs as [|e embs IH]; intros st H; simpl; [done|].
  destruct (cosine_similarity q (le_embedding e)); [|done].
  by apply IH, semantic_step_inv.
Qed.

Lemma date_channel_inv env intent st : acc_inv st -> acc_inv (date_channel env intent st).
Proof.
  intros H. unfold date_channel. destruct (date_range intent); [|done].
  destruct (date_query env p); [|done].
  apply fold_left_preserves; [apply date_step_inv|done].
Qed.

Lemma tag_channel_inv env intent st st' :
  acc_inv st -> tag_channel env intent st = Ok st' -> acc_inv st'.
Proof.
  intros H. unfold tag_channel. destruct (tags intent); [by intros [= <-]|].
  destruct (get_logs_by_tags _ _); simpl; [|done]. intros [= <-].
  apply fold_left_preserves; [apply tag_step_inv|done].
Qed.

Lemma semantic_channel_inv env query intent st :
  acc_inv st -> acc_inv (semantic_channel env query intent st).
Proof.
  intros H. unfold semantic_channel. destruct (default true _); [|done].
  destruct (compute_embedding _ _); [|done].
  destruct (get_log_embeddings _); [|done].
  by apply semantic_loop_inv.
Qed.

Lemma run_channels_inv env query intent st :
  run_channels env query intent = Ok st -> acc_inv st.
Proof.
  unfold run_channels.
  destruct (tag_channel _ _ _) as [st2|] eqn:E; simpl; [|done]. intros [= <-].
  apply semantic_channel_inv. eapply tag_channel_inv; [|done].
  apply date_channel_inv, acc_inv_empty.
Qed.

(** The fallback list has the ids and the scores of a well-formed result. *)
Lemma fallback_ids env rs acc :
  NoDup (map row_id (logs (db env))) -> NoDup (ids rs) ->
  fallback env rs = Ok acc -> NoDup (ids acc).
Proof.
  intros Hdb Hrs. unfold fallback. destruct rs; [|by intros [= <-]].
  destruct (get_all_logs _ _) as [recent|] eqn:E; simpl; [|done]. intros [= <-].
  unfold ids. rewrite map_map. simpl.
  by eapply DatabaseFacts.get_all_logs_NoDup.
Qed.

Lemma fallback_scores env rs acc :
  Forall (fun r => score_ok (retrieval_score r)) rs ->
  fallback env rs = Ok acc ->
  Forall (fun r => score_ok (retrieval_score r)) acc.
Proof.
  intros Hrs. unfold fallback. destruct rs; [|by intros [= <-]].
  destruct (get_all_logs _ _) as [recent|]; simpl; [|done]. intros [= <-].
  apply Forall_forall. intros r (l & -> & _)%elem_of_map. apply score_ok_0_1.
Qed.

(** What [accumulated] returns is well formed. *)
Lemma accumulated_wf env query intent acc :
  NoDup (map row_id (logs (db env))) ->
  accumulated env query intent = Ok acc -> NoDup (ids acc).
Proof.
  intros Hdb. unfold accumulated.
  destruct (run_channels _ _ _) as [st|] eqn:E; simpl; [|done].
  apply run_channels_inv in E as [_ Hnd _]. by apply fallback_ids.
Qed.

Lemma accumulated_scores env query intent acc :
  accumulated env query intent = Ok acc ->
  Forall (fun r => score_ok (retrieval_score r)) acc.
Proof.
  unfold accumulated.
  destruct (run_channels _ _ _) as [st|] eqn:E; simpl; [|done].
  apply run_channels_inv in E as [_ _ Hsc]. by apply fallback_scores.
Qed.

(** The comparison of scores is a strict weak order on well-formed scores. *)
Lemma score_lt_asym (a b : float) :
  score_ok a -> score_ok b -> (a <? b)%float = true -> (b <? a)%float = false.
Proof. intros _ _. apply FloatOrder.ltb_asym. Qed.

Lemma score_lt_ntrans (a b c : float) :
  score_ok a -> score_ok b -> score_ok c ->
  (a <? b)%float = false -> (b <? c)%float = false -> (a <? c)%float = false.
Proof. intros _ Hb _. apply FloatOrder.ltb_ntrans, FloatArith.nonneg_not_nan, Hb. Qed.

Lemma sort_by_score_perm rs : Permutation (sort_by_score rs) rs.
Proof. apply sort_desc_perm. Qed.

(** The ranking is descending. *)
Lemma sort_by_score_sorted rs :
  Forall (fun r => score_ok (retrieval_score r)) rs ->
  StronglySorted (fun a b => (retrieval_score b <=? retrieval_score a)%float = true)
    (sort_by_score rs).
Proof.
  intros Hok.
  eapply StronglySorted_weaken;
    [|by apply (sort_desc_sorted retrieval_score PrimFloat.ltb score_ok
                  score_lt_asym score_lt_ntrans)].
  intros a b Ha Hb Hab. cbv beta in Hab.
  rewrite Forall_forall in Hok.
  apply FloatOrder.leb_not_ltb; [apply FloatArith.nonneg_not_nan..|done];
    apply Hok; by apply (sort_desc_elem_of retrieval_score PrimFloat.ltb).
Qed.

(** The ranking is stable: entries with one and the same score keep their
    order of insertion. *)
Lemma sort_by_score_stable k rs :
  score_ok k -> Forall (fun r => score_ok (retrieval_score r)) rs ->
  List.filter (fun r => (retrieval_score r =? k)%float) (sort_by_score rs)
  = List.filter (fun r => (retrieval_score r =? k)%float) rs.
Proof.
  intros Hk Hok.
  pose proof (sort_desc_stable retrieval_score PrimFloat.ltb score_ok
                score_lt_ntrans k rs Hk Hok) as Hst.
  assert (Hext : forall l, Forall (fun r => score_ok (retrieval_score r)) l ->
    List.filter (fun r => (retrieval_score r =? k)%float) l
    = List.filter (same_key retrieval_score PrimFloat.ltb k) l).
  { intros l Hl. apply filter_ext_in. intros r Hr%list_elem_of_In.
    rewrite Forall_forall in Hl. unfold same_key.
    apply FloatOrder.eqb_ltb; apply FloatArith.nonneg_not_nan; [by apply Hl|done]. }
  rewrite !Hext; [done|done|].
  rewrite Forall_forall in Hok |- *. intros r Hr. apply Hok.
  by apply (sort_desc_elem_of retrieval_score PrimFloat.ltb).
Qed.

(** What the cut leaves out scores no more than what it keeps. *)
Lemma sort_by_score_cut rs n a b :
  Forall (fun r => score_ok (retrieval_score r)) rs ->
  a ∈ firstn n (sort_by_score rs) -> b ∈ skipn n (sort_by_score rs) ->
  (retrieval_score b <=? retrieval_score a)%float = true.
Proof.
  intros Hok Ha Hb. rewrite Forall_forall in Hok.
  apply FloatOrder.leb_not_ltb.
  - apply FloatArith.nonneg_not_nan, Hok.
    apply (sort_desc_elem_of retrieval_score PrimFloat.ltb).
    by eapply subseteq_drop.
  - apply FloatArith.nonneg_not_nan, Hok.
    apply (sort_desc_elem_of retrieval_score PrimFloat.ltb).
    by eapply subseteq_take.
  - eapply (sorted_desc_take retrieval_score PrimFloat.ltb); [|done..].
    apply (sort_desc_sorted retrieval_score PrimFloat.ltb score_ok
             score_lt_asym score_lt_ntrans).
    by apply Forall_forall.
Qed.

(** Channels only append to [results] or change a score in place. *)
Definition grows (st st' : Acc) : Prop :=
  ids (results st) `prefix_of` ids (results st').

Lemma grows_refl st : grows st st.
Proof. unfold grows. done. Qed.

Lemma grows_trans st1 st2 st3 : grows st1 st2 -> grows st2 st3 -> grows st1 st3.
Proof. unfold grows. by intros ? ?; etrans. Qed.

Lemma acc_append_grows entry st : grows st (acc_append entry st).
Proof. unfold grows, ids. simpl. rewrite map_app. by apply prefix_app_r. Qed.

Lemma acc_boost_grows id delta st : grows st (acc_boost id delta st).
Proof. unfold grows. simpl. by rewrite boost_ids. Qed.

Lemma fold_left_grows {X} (f : Acc -> X -> Acc) (l : list X) st :
  (forall s x, grows s (f s x)) -> grows st (fold_left f l st).
Proof.
  intros Hf. revert st. induction l as [|x l IH]; intros st; simpl; [apply grows_refl|].
  eapply grows_trans; [apply Hf|apply IH].
Qed.

Lemma date_channel_grows env intent st : grows st (date_channel env intent st).
Proof.
  unfold date_channel. destruct (date_range intent); [|apply grows_refl].
  destruct (date_query env p); [|apply grows_refl].
  apply fold_left_grows. intros st0 log. unfold date_step.
  case_bool_decide; [apply grows_refl|apply acc_append_grows].
Qed.

Lemma tag_channel_grows env intent st st' :
  tag_channel env intent st = Ok st' -> grows st st'.
Proof.
  unfold tag_channel. destruct (tags intent); [intros [= <-]; apply grows_refl|].
  destruct (get_logs_by_tags _ _); simpl; [|done]. intros [= <-].
  apply fold_left_grows. intros st0 log. unfold tag_step.
  case_bool_decide; [apply acc_boost_grows|apply acc_append_grows].
Qed.

Lemma semantic_step_grows sim e st : grows st (semantic_step sim e st).
Proof.
  unfold semantic_step. destruct (0.3 <? sim)%float; [|apply grows_refl].
  case_bool_decide; [apply acc_boost_grows|apply acc_append_grows].
Qed.

Lemma semantic_loop_grows q embs st : grows st (semantic_loop q embs st).
Proof.
  revert st. induction embs as [|e embs IH]; intros st; simpl; [apply grows_refl|].
  destruct (cosine_similarity q (le_embedding e)); [|apply grows_refl].
  eapply grows_trans; [apply semantic_step_grows|apply IH].
Qed.

Lemma semantic_channel_grows env query intent st :
  grows st (semantic_channel env query intent st).
Proof.
  unfold semantic_channel. destruct (default true _); [|apply grows_refl].
  destruct (compute_embedding _ _); [|apply grows_refl].
  destruct (get_log_embeddings _); [|apply grows_refl].
  apply semantic_loop_grows.
Qed.

(** The order of [acc]: what the date channel inserted, then what the tag
    channel inserted, then what the semantic channel inserted; the recent
    logs when all of that is empty. *)
Definition insertion_order (env : Env) (query : string) (intent : Intent)
  (acc : list RetrievedLog) : Prop :=
  exists st1 st2 st3,
    st1 = date_channel env intent acc_empty /\
    tag_channel env intent st1 = Ok st2 /\
    st3 = semantic_channel env query intent st2 /\
    grows st1 st2 /\ grows st2 st3 /\
    fallback env (results st3) = Ok acc /\
    (results st3 <> [] -> acc = results st3).

Lemma accumulated_insertion_order env query intent acc :
  accumulated env query intent = Ok acc -> insertion_order env query intent acc.
Proof.
  unfold accumulated, run_channels.
  destruct (tag_channel _ _ _) as [st2|] eqn:E; simpl; [|done]. intros Hfb.
  exists (date_channel env intent acc_empty), st2, (semantic_channel env query intent st2).
  repeat split; try done.
  - by eapply tag_channel_grows.
  - apply semantic_channel_grows.
  - intros Hne. unfold fallback in Hfb.
    destruct (results (semantic_channel env query intent st2)); [done|]. by injection Hfb.
Qed.

(** *** Score fusion

    The score of an id is the sum, from the left, of what the channels
    credited to it, in the order date, tags, semantic. *)

(** The score recorded for [id], if [results] holds it. *)
Fixpoint score_of (id : string) (rs : list RetrievedLog) : option float :=
  match rs with
  | [] => None
  | r :: rs' =>
    if String.eqb (rl_id r) id then Some (retrieval_score r) else score_of id rs'
  end.

(** One more piece of evidence: added to the score, or the first score. *)
Definition add_delta (o : option float) (delta : float) : option float :=
  Some (match o with Some s => (s + delta)%float | None => delta end).

Definition fuse_from (o : option float) (deltas : list float) : option float :=
  fold_left add_delta deltas o.

Definition fuse (deltas : list float) : option float := fuse_from None deltas.

(** What the date channel credits to [id]: 1.0 when the query returned it. *)
Definition date_deltas (env : Env) (intent : Intent) (id : string) : list float :=
  match date_range intent with
  | None => []
  | Some range =>
    match date_query env range with
    | Ok date_logs =>
      if existsb (fun l => String.eqb (log_id l) id) date_logs then [1.0%float] else []
    | Raise _ => []
    end
  end.

(** What the tag channel credits to [id]: 0.3 for each returned log. *)
Definition tag_deltas (env : Env) (intent : Intent) (id : string) : list float :=
  match tags intent with
  | [] => []
  | _ :: _ =>
    match get_logs_by_tags (db env) (tags intent) with
    | Ok tag_logs =>
      map (fun _ => 0.3%float) (List.filter (fun l => String.eqb (log_id l) id) tag_logs)
    | Raise _ => []
    end
  end.

(** The tuples the semantic loop reaches, each with its similarity: all of
    them unless [cosine_similarity] raises on the way. *)
Fixpoint similarities (query_embedding : list float) (embs : list LogEmbedding)
  : list (LogEmbedding * float) :=
  match embs with
  | [] => []
  | e :: rest =>
    match cosine_similarity query_embedding (le_embedding e) with
    | Ok sim => (e, sim) :: similarities query_embedding rest
    | Raise _ => []
    end
  end.

(** The tuples the semantic channel reaches. *)
Definition semantic_scan (env : Env) (query : string) (intent : Intent)
  : list (LogEmbedding * float) :=
  if default true (needs_rag intent) then
    match compute_embedding env (default query (semantic_query intent)) with
    | Raise _ => []
    | Ok query_embedding =>
      match get_log_embeddings (db env) with
      | Raise _ => []
      | Ok embs => similarities query_embedding embs
      end
    end
  else [].

(** The tuples that survive the threshold. *)
Definition semantic_hits (env : Env) (query : string) (intent : Intent)
  : list (LogEmbedding * float) :=
  List.filter (fun p => (0.3 <? snd p)%float) (semantic_scan env query intent).

(** What the semantic channel credits to [id]: similarity * 0.7 for each
    surviving tuple of that id. *)
Definition semantic_deltas (env : Env) (query : string) (intent : Intent)
  (id : string) : list float :=
  map (fun p => (snd p * 0.7)%float)
      (List.filter (fun p => String.eqb (le_id (fst p)) id)
                   (semantic_hits env query intent)).

Lemma score_of_None id rs : score_of id rs = None <-> id ∉ ids rs.
Proof.
  induction rs as [|r rs IH]; simpl.
  - split; [intros _; apply not_elem_of_nil|done].
  - rewrite not_elem_of_cons. destruct (String.eqb_spec (rl_id r) id) as [->|Hne].
    + split; [done|]. by intros [? _].
    + rewrite IH. split; [|by intros [_ ?]]. intros ?. split; [congruence|done].
Qed.

Lemma score_of_Some id rs s :
  score_of id rs = Some s ->
  exists r, r ∈ rs /\ rl_id r = id /\ retrieval_score r = s.
Proof.
  induction rs as [|r rs IH]; simpl; [done|].
  destruct (String.eqb_spec (rl_id r) id) as [Heq|Hne].
  - intros [= <-]. exists r. split; [constructor|done].
  - intros (r' & ? & ? & ?)%IH. exists r'. split; [by constructor|done].
Qed.

Lemma score_of_is_Some id rs : id ∈ ids rs -> is_Some (score_of id rs).
Proof.
  intros Hin. destruct (score_of id rs) eqn:E; [done|].
  by apply score_of_None in E.
Qed.

(** With distinct ids, the entry of an id carries the score of that id. *)
Lemma score_of_elem r rs :
  NoDup (ids rs) -> r ∈ rs -> score_of (rl_id r) rs = Some (retrieval_score r).
Proof.
  induction rs as [|r' rs IH]; simpl; [by intros _ ?%not_elem_of_nil|].
  intros [Hnotin Hnd]%NoDup_cons [->|Hin]%elem_of_cons.
  - by rewrite String.eqb_refl.
  - destruct (String.eqb_spec (rl_id r') (rl_id r)) as [Heq|_]; [|by apply IH].
    exfalso. apply Hnotin. rewrite Heq. apply elem_of_map. by exists r.
Qed.

Lemma score_of_boost id id' delta rs :
  score_of id' (boost id delta rs)
  = if String.eqb id id'
    then (fun s => (s + delta)%float) <$> score_of id' rs
    else score_of id' rs.
Proof.
  induction rs as [|r rs IH]; simpl; [by destruct (String.eqb id id')|].
  destruct (String.eqb_spec (rl_id r) id) as [Hr|Hr]; simpl.
  - destruct (String.eqb_spec id id') as [<-|Hne].
    + destruct (String.eqb_spec (rl_id r) id); done.
    + destruct (String.eqb_spec (rl_id r) id'); [congruence|done].
  - rewrite IH. destruct (String.eqb_spec id id') as [<-|Hne].
    + destruct (String.eqb_spec (rl_id r) id); done.
    + done.
Qed.

Lemma score_of_snoc id rs entry :
  score_of id (rs ++ [entry])
  = match score_of id rs with
    | Some s => Some s
    | None => if String.eqb (rl_id entry) id then Some (retrieval_score entry) else None
    end.
Proof.
  induction rs as [|r rs IH]; simpl; [done|].
  by destruct (String.eqb (rl_id r) id).
Qed.

(** Crediting [delta] to [id], as the tag and the semantic channel do. *)
Lemma credit_score id id' delta entry st :
  acc_inv st -> rl_id entry = id -> retrieval_score entry = delta ->
  score_of id' (results (if bool_decide (id ∈ seen_ids st)
                         then acc_boost id delta st
                         else acc_append entry st))
  = if String.eqb id id'
    then add_delta (score_of id' (results st)) delta
    else score_of id' (results st).
Proof.
  intros Hinv Hid Hsc. pose proof (elem_of_seen st id Hinv) as Hseen.
  case_bool_decide as Hin; simpl.
  - rewrite score_of_boost. destruct (String.eqb_spec id id') as [<-|]; [|done].
    apply Hseen, score_of_is_Some in Hin as [s ->]. done.
  - rewrite score_of_snoc, Hid, Hsc.
    destruct (String.eqb_spec id id') as [<-|].
    + rewrite Hseen in Hin. apply score_of_None in Hin. by rewrite Hin.
    + by destruct (score_of id' (results st)).
Qed.

Lemma tag_step_score id st log :
  acc_inv st ->
  score_of id (results (tag_step st log))
  = if String.eqb (log_id log) id
    then add_delta (score_of id (results st)) 0.3%float
    else score_of id (results st).
Proof. intros Hinv. by apply credit_score. Qed.

Lemma semantic_step_score id sim e st :
  acc_inv st ->
  score_of id (results (semantic_step sim e st))
  = if (0.3 <? sim)%float && String.eqb (le_id e) id
    then add_delta (score_of id (results st)) (sim * 0.7)%float
    else score_of id (results st).
Proof.
  intros Hinv. unfold semantic_step. destruct (0.3 <? sim)%float; [|done].
  by apply credit_score.
Qed.

Lemma date_step_score id st log :
  acc_inv st ->
  score_of id (results (date_step st log))
  = match score_of id (results st) with
    | Some s => Some s
    | None => if String.eqb (log_id log) id then Some 1.0%float else None
    end.
Proof.
  intros Hinv. pose proof (elem_of_seen st (log_id log) Hinv) as Hseen.
  unfold date_step. case_bool_decide as Hin; simpl.
  - destruct (score_of id (results st)) eqn:E; [done|].
    destruct (String.eqb_spec (log_id log) id) as [<-|]; [|done].
    apply Hseen, score_of_is_Some in Hin as [s Hs]. congruence.
  - by rewrite score_of_snoc.
Qed.

Lemma date_fold_score id logs st :
  acc_inv st ->
  score_of id (results (fold_left date_step logs st))
  = match score_of id (results st) with
    | Some s => Some s
    | None =>
      if existsb (fun l => String.eqb (log_id l) id) logs then Some 1.0%float else None
    end.
Proof.
  revert st. induction logs as [|log logs IH]; intros st Hinv; simpl.
  - by destruct (score_of id (results st)).
  - rewrite IH by by apply date_step_inv. rewrite date_step_score by done.
    destruct (score_of id (results st)); [done|].
    destruct (String.eqb (log_id log) id); simpl; done.
Qed.

Lemma tag_fold_score id logs st :
  acc_inv st ->
  score_of id (results (fold_left tag_step logs st))
  = fuse_from (score_of id (results st))
      (map (fun _ => 0.3%float) (List.filter (fun l => String.eqb (log_id l) id) logs)).
Proof.
  revert st. induction logs as [|log logs IH]; intros st Hinv; simpl; [done|].
  rewrite IH by by apply tag_step_inv. rewrite tag_step_score by done.
  by destruct (String.eqb (log_id log) id).
Qed.

Lemma semantic_loop_score id q embs st :
  acc_inv st ->
  score_of id (results (semantic_loop q embs st))
  = fuse_from (score_of id (results st))
      (map (fun p => (snd p * 0.7)%float)
         (List.filter (fun p => String.eqb (le_id (fst p)) id)
            (List.filter (fun p => (0.3 <? snd p)%float) (similarities q embs)))).
Proof.
  revert st. induction embs as [|e embs IH]; intros st Hinv; simpl; [done|].
  destruct (cosine_similarity q (le_embedding e)) as [sim|]; simpl; [|done].
  rewrite IH by by apply semantic_step_inv. rewrite semantic_step_score by done.
  destruct (0.3 <? sim)%float; simpl; [|done].
  by destruct (String.eqb (le_id e) id).
Qed.

Lemma fuse_from_app o ds1 ds2 :
  fuse_from o (ds1 ++ ds2) = fuse_from (fuse_from o ds1) ds2.
Proof. apply fold_left_app. Qed.

Lemma date_channel_score env intent id :
  score_of id (results (date_channel env intent acc_empty))
  = fuse (date_deltas env intent id).
Proof.
  unfold date_channel, date_deltas. destruct (date_range intent) as [range|]; [|done].
  destruct (date_query env range) as [date_logs|]; [|done].
  rewrite date_fold_score by apply acc_inv_empty. simpl.
  by destruct (existsb _ _).
Qed.

Lemma tag_channel_score env intent id st st' :
  acc_inv st -> tag_channel env intent st = Ok st' ->
  score_of id (results st')
  = fuse_from (score_of id (results st)) (tag_deltas env intent id).
Proof.
  intros Hinv. unfold tag_channel, tag_deltas.
  destruct (tags intent); [by intros [= <-]|].
  destruct (get_logs_by_tags _ _) as [tag_logs|]; simpl; [|done]. intros [= <-].
  by apply tag_fold_score.
Qed.

Lemma semantic_channel_score env query intent id st :
  acc_inv st ->
  score_of id (results (semantic_channel env query intent st))
  = fuse_from (score_of id (results st)) (semantic_deltas env query intent id).
Proof.
  intros Hinv.
  unfold semantic_channel, semantic_deltas, semantic_hits, semantic_scan.
  destruct (default true _); [|done].
  destruct (compute_embedding _ _); [|done].
  destruct (get_log_embeddings _); [|done].
  by apply semantic_loop_score.
Qed.

(** The score of every id after the three channels. *)
Lemma score_fusion env query intent st id :
  run_channels env query intent = Ok st ->
  score_of id (results st)
  = fuse (date_deltas env intent id ++ tag_deltas env intent id
          ++ semantic_deltas env query intent id).
Proof.
  unfold run_channels.
  destruct (tag_channel _ _ _) as [st2|] eqn:E; simpl; [|done]. intros [= <-].
  pose proof (date_channel_inv env intent _ acc_inv_empty) as H1.
  pose proof (tag_channel_inv _ _ _ _ H1 E) as H2.
  rewrite semantic_channel_score by done.
  rewrite (tag_channel_score _ _ _ _ _ H1 E), date_channel_score.
  unfold fuse. by rewrite !fuse_from_app.
Qed.

(** Every credit is a non-negative number. *)
Lemma tag_deltas_ok env intent id : Forall score_ok (tag_deltas env intent id).
Proof.
  unfold tag_deltas. destruct (tags intent) as [|t ts]; [constructor|].
  destruct (get_logs_by_tags _ _) as [tag_logs|]; [|constructor].
  apply Forall_forall. intros d (log & -> & _)%elem_of_map. apply score_ok_0_3.
Qed.

Lemma semantic_deltas_ok env query intent id :
  Forall score_ok (semantic_deltas env query intent id).
Proof.
  unfold semantic_deltas, semantic_hits. apply Forall_forall.
  intros d (p & -> & Hp)%elem_of_map.
  apply list_elem_of_In, filter_In in Hp as [Hp _].
  apply filter_In in Hp as [_ Hp]. by apply FloatArith.mul_0_7_nonneg.
Qed.

(** A score that has reached 1.0 stays at or above it. *)
Lemma fuse_from_ge_one s deltas :
  (1 <=? s)%float = true -> Forall score_ok deltas ->
  exists s', fuse_from (Some s) deltas = Some s' /\ (1 <=? s')%float = true.
Proof.
  intros Hs Hd. revert s Hs. induction Hd as [|d ds Hd Hds IH]; intros s Hs; simpl.
  - by exists s.
  - apply IH. by apply FloatArith.add_ge_one.
Qed.

(** *** The block of the date channel

    What the date channel inserted are the first entries of [results]; the
    later channels change scores in place and append after them. *)

Lemma date_channel_ids env intent range date_logs id :
  date_range intent = Some range -> date_query env range = Ok date_logs ->
  id ∈ ids (results (date_channel env intent acc_empty)) <-> id ∈ map log_id date_logs.
Proof.
  intros Hr Hq. pose proof (date_channel_score env intent id) as Hs.
  unfold date_deltas in Hs. rewrite Hr, Hq in Hs. split.
  - intros Hin%score_of_is_Some. destruct (existsb _ date_logs) eqn:E.
    + apply existsb_exists in E as (l & Hl & <-%String.eqb_eq).
      apply elem_of_map. exists l. split; [done|by apply list_elem_of_In].
    + rewrite Hs in Hin. by destruct Hin.
  - intros (l & -> & Hl)%elem_of_map.
    replace (existsb _ date_logs) with true in Hs.
    + apply score_of_Some in Hs as (r & Hr' & <- & _).
      apply elem_of_map. by exists r.
    + symmetry. apply existsb_exists. exists l.
      split; [by apply list_elem_of_In|apply String.eqb_refl].
Qed.

Lemma date_block env query intent range date_logs st :
  date_range intent = Some range -> date_query env range = Ok date_logs ->
  run_channels env query intent = Ok st ->
  exists front back,
    results st = front ++ back /\
    (length front <= length date_logs)%nat /\
    (forall e, e ∈ front -> rl_id e ∈ map log_id date_logs) /\
    (forall e, e ∈ back -> rl_id e ∉ map log_id date_logs).
Proof.
  intros Hr Hq Hrun.
  pose proof (run_channels_inv _ _ _ _ Hrun) as [_ Hnd _].
  pose proof (date_channel_inv env intent _ acc_inv_empty) as [_ Hnd1 _].
  assert (Hg : grows (date_channel env intent acc_empty) st).
  { unfold run_channels in Hrun.
    destruct (tag_channel _ _ _) as [st2|] eqn:E; simpl in Hrun; [|done].
    injection Hrun as <-.
    eapply grows_trans; [by eapply tag_channel_grows|apply semantic_channel_grows]. }
  destruct Hg as [k Hk].
  set (st1 := date_channel env intent acc_empty) in *.
  set (n := length (results st1)).
  assert (Hn : n = length (ids (results st1))) by (unfold ids; by rewrite length_map).
  assert (Hfront : ids (take n (results st)) = ids (results st1)).
  { unfold ids at 1. rewrite <- firstn_map. fold (ids (results st)).
    rewrite Hk. by apply take_app_length'. }
  assert (Hback : ids (drop n (results st)) = k).
  { unfold ids at 1. rewrite <- skipn_map. fold (ids (results st)).
    rewrite Hk. by apply drop_app_length'. }
  exists (take n (results st)), (drop n (results st)).
  split; [by rewrite take_drop|]. split; [|split].
  - etrans; [apply firstn_le_length|]. rewrite Hn.
    rewrite <- (length_map log_id date_logs).
    apply submseteq_length, NoDup_submseteq; [done|].
    intros id. by apply (date_channel_ids env intent range).
  - intros e He. apply (date_channel_ids env intent range); [done..|].
    fold st1. rewrite <- Hfront. apply elem_of_map. by exists e.
  - intros e He Hin. apply (date_channel_ids env intent range) in Hin; [|done..].
    fold st1 in Hin. rewrite Hk in Hnd. apply NoDup_app in Hnd as (_ & Hdis & _).
    apply (Hdis _ Hin). rewrite <- Hback. apply elem_of_map. by exists e.
Qed.

(** A score of at least 1.0 is not below a score of at most 1.0. *)
Lemma score_one_between (x y : float) :
  (1 <=? x)%float = true -> (y <=? 1)%float = true -> (x <? y)%float = false.
Proof.
  intros Hx%FloatOrder.leb_ltb_false Hy%FloatOrder.leb_ltb_false.
  by apply (FloatOrder.ltb_ntrans x 1 y).
Qed.

End AgentFacts.

(* ===================================================================== *)
(** * Part III: the claims of the specification                           *)
(* ===================================================================== *)

Import Database Agent AgentFacts.

(** C1.  Whatever the intent and the corpus (a table [logs] whose ids are
    distinct), no two entries of the sequence returned by the retrieval step
    have the same id, however many channels produced it. *)
Theorem retrieve_logs_no_duplicate_ids (env : Env) (query : string)
  (intent : Intent) (out : list RetrievedLog) :
  NoDup (map row_id (logs (db env))) ->
  _retrieve_logs env query intent = Ok out ->
  NoDup (map rl_id out).
Proof.
  intros Hdb. unfold _retrieve_logs.
  destruct (accumulated env query intent) as [acc|] eqn:E; simpl; [|done].
  intros [= <-]. apply accumulated_wf in E; [|done].
  rewrite <- firstn_map.
  eapply sublist_NoDup; [|apply sublist_take].
  by rewrite (Permutation_map rl_id (sort_by_score_perm acc)).
Qed.

Lemma retrieve_logs_no_duplicate_ids_witness :
  NoDup (map row_id (logs (db Scenario.the_env))) /\
  _retrieve_logs Scenario.the_env Scenario.the_query Scenario.the_intent
  = Ok Scenario.the_result /\
  NoDup (map rl_id Scenario.the_result).
Proof.
  assert (H1 : NoDup (map row_id (logs (db Scenario.the_env))))
    by (apply (bool_decide_unpack _); vm_compute; exact I).
  assert (H2 : _retrieve_logs Scenario.the_env Scenario.the_query
                 Scenario.the_intent = Ok Scenario.the_result)
    by (vm_compute; reflexivity).
  exact (conj H1 (conj H2 (retrieve_logs_no_duplicate_ids _ _ _ _ H1 H2))).
Defined.

(** C2.  The returned sequence is the accumulated list sorted by
    [retrieval_score], descending and stable, and cut to its first 20
    entries, none of which scores less than an entry that is cut.  The
    accumulated list holds the entries in the order of their first
    insertion (date channel, tag channel, semantic channel; the recent logs
    of the fallback otherwise), so entries with equal scores come out in
    that order. *)
Theorem retrieve_logs_ranking (env : Env) (query : string) (intent : Intent)
  (out : list RetrievedLog) :
  _retrieve_logs env query intent = Ok out ->
  exists acc ranked,
    accumulated env query intent = Ok acc /\
    insertion_order env query intent acc /\
    ranked = sort_by_score acc /\
    Permutation ranked acc /\
    StronglySorted
      (fun a b => (retrieval_score b <=? retrieval_score a)%float = true) ranked /\
    (forall k, score_ok k ->
       List.filter (fun r => (retrieval_score r =? k)%float) ranked
       = List.filter (fun r => (retrieval_score r =? k)%float) acc) /\
    out = firstn 20 ranked /\
    (length out <= 20)%nat /\
    (forall a b, a ∈ out -> b ∈ skipn 20 ranked ->
       (retrieval_score b <=? retrieval_score a)%float = true).
Proof.
  unfold _retrieve_logs.
  destruct (accumulated env query intent) as [acc|] eqn:E; simpl; [|done].
  intros [= <-]. exists acc, (sort_by_score acc).
  pose proof (accumulated_scores _ _ _ _ E) as Hok.
  split; [done|]. split; [by apply accumulated_insertion_order|].
  split; [done|]. split; [apply sort_by_score_perm|].
  split; [by apply sort_by_score_sorted|].
  split; [intros k Hk; by apply sort_by_score_stable|].
  split; [done|]. split; [rewrite length_take; lia|].
  intros a b Ha Hb. by apply (sort_by_score_cut acc 20).
Qed.

Lemma retrieve_logs_ranking_witness :
  _retrieve_logs Scenario.the_env Scenario.the_query Scenario.the_intent
  = Ok Scenario.the_result /\
  exists acc ranked,
    accumulated Scenario.the_env Scenario.the_query Scenario.the_intent = Ok acc /\
    insertion_order Scenario.the_env Scenario.the_query Scenario.the_intent acc /\
    ranked = sort_by_score acc /\
    Permutation ranked acc /\
    StronglySorted
      (fun a b => (retrieval_score b <=? retrieval_score a)%float = true) ranked /\
    (forall k, score_ok k ->
       List.filter (fun r => (retrieval_score r =? k)%float) ranked
       = List.filter (fun r => (retrieval_score r =? k)%float) acc) /\
    Scenario.the_result = firstn 20 ranked /\
    (length Scenario.the_result <= 20)%nat /\
    (forall a b, a ∈ Scenario.the_result -> b ∈ skipn 20 ranked ->
       (retrieval_score b <=? retrieval_score a)%float = true).
Proof.
  assert (H : _retrieve_logs Scenario.the_env Scenario.the_query
                Scenario.the_intent = Ok Scenario.the_result)
    by (vm_compute; reflexivity).
  exact (conj H (retrieve_logs_ranking _ _ _ _ H)).
Defined.

(** What the date channel asks the store: the logs whose timestamp lies
    between the local midnight of the start date and the local midnight
    after the end date, both bounds included. *)
Lemma date_query_spec (env : Env) (range : string * string) (date_logs : list Log) :
  date_query env range = Ok date_logs ->
  exists start end_,
    strptime env (fst range) = Ok start /\
    strptime env (snd range) = Ok end_ /\
    forall log, log ∈ date_logs <->
      exists row, row ∈ logs (db env) /\ log = row_to_log row /\
        (timestamp_ms env start <= row_timestamp row <= timestamp_ms env (end_ + 1))%Z.
Proof.
  unfold date_query, get_logs_by_date_range, with_db.
  destruct (strptime env (fst range)) as [start|]; simpl; [|done].
  destruct (strptime env (snd range)) as [end_|]; simpl; [|done].
  destruct (db_fault _ _); [done|]. intros [= <-].
  exists start, end_. repeat split; try done.
  - intros (row & -> & Hrow)%elem_of_map. exists row.
    unfold order_by_timestamp_desc in Hrow. apply sort_desc_elem_of in Hrow.
    apply list_elem_of_In, filter_In in Hrow as [Hin Hr].
    unfold in_range in Hr. apply list_elem_of_In in Hin.
    repeat split; try done; lia.
  - intros (row & Hin & -> & Hlo & Hhi). apply elem_of_map. exists row.
    split; [done|]. unfold order_by_timestamp_desc. apply sort_desc_elem_of.
    apply list_elem_of_In, filter_In. split; [by apply list_elem_of_In|].
    unfold in_range. lia.
Qed.

(** C3, the claim as stated fails: the busy week has 21 logs in the range of
    the question, the date channel finds all 21, and the returned sequence
    holds 20 of them; log "A" is missing. *)
Lemma date_range_logs_cut_counterexample :
  exists date_logs out,
    date_query Scenario.busy_env Scenario.week_range = Ok date_logs /\
    length date_logs = 21%nat /\
    "A" ∈ map log_id date_logs /\
    _retrieve_logs Scenario.busy_env Scenario.the_query Scenario.week_intent = Ok out /\
    length out = 20%nat /\
    "A" ∉ map rl_id out.
Proof.
  eexists. eexists.
  split; [vm_compute; reflexivity|].
  split; [reflexivity|].
  split; [apply (bool_decide_unpack _); vm_compute; exact I|].
  split; [vm_compute; reflexivity|].
  split; [reflexivity|].
  apply (bool_decide_unpack _). vm_compute. exact I.
Qed.

(** C3, amended.  When the date range is set and the store returns the logs
    in range, each of them is in the accumulated list with a score of at
    least 1.0, and of exactly 1.0 when neither the tag channel nor the
    semantic channel credits its id.  The returned sequence is the 20 best
    of the accumulated list: it holds every log in range when no more than
    20 entries were accumulated, and also when no more than 20 logs are in
    range and no entry outside the range scores above 1.0. *)
Theorem date_range_logs_scored (env : Env) (query : string) (intent : Intent)
  (range : string * string) (date_logs : list Log) (out : list RetrievedLog) :
  date_range intent = Some range ->
  date_query env range = Ok date_logs ->
  _retrieve_logs env query intent = Ok out ->
  exists acc,
    accumulated env query intent = Ok acc /\
    forall log, log ∈ date_logs ->
      exists entry,
        entry ∈ acc /\ rl_id entry = log_id log /\
        (1 <=? retrieval_score entry)%float = true /\
        (tag_deltas env intent (log_id log) = [] ->
         semantic_deltas env query intent (log_id log) = [] ->
         retrieval_score entry = 1%float) /\
        ((length acc <= 20)%nat -> entry ∈ out) /\
        ((length date_logs <= 20)%nat ->
         (forall e, e ∈ acc -> rl_id e ∉ map log_id date_logs ->
            (retrieval_score e <=? 1)%float = true) ->
         entry ∈ out).
Proof.
  intros Hrange Hquery. unfold _retrieve_logs.
  destruct (accumulated env query intent) as [acc|] eqn:Hacc; simpl; [|done].
  intros [= <-]. exists acc. split; [done|]. intros log Hlog.
  unfold accumulated in Hacc.
  destruct (run_channels env query intent) as [st|] eqn:Hrun; simpl in Hacc; [|done].
  assert (Hfused : forall id, id ∈ map log_id date_logs ->
    exists s, score_of id (results st) = Some s /\ (1 <=? s)%float = true /\
      (tag_deltas env intent id = [] -> semantic_deltas env query intent id = [] ->
       s = 1%float)).
  { intros id (l & -> & Hl)%elem_of_map.
    pose proof (score_fusion env query intent st (log_id l) Hrun) as Hscore.
    assert (Hdate : date_deltas env intent (log_id l) = [1%float]).
    { unfold date_deltas. rewrite Hrange, Hquery.
      replace (existsb _ date_logs) with true; [done|]. symmetry.
      apply existsb_exists. exists l. split; [by apply list_elem_of_In|].
      apply String.eqb_refl. }
    rewrite Hdate in Hscore.
    change (score_of (log_id l) (results st)
            = fuse_from (Some 1%float)
                (tag_deltas env intent (log_id l)
                 ++ semantic_deltas env query intent (log_id l))) in Hscore.
    destruct (fuse_from_ge_one 1%float
                (tag_deltas env intent (log_id l)
                 ++ semantic_deltas env query intent (log_id l)))
      as (s & Hs & Hge); [done| |].
    { apply Forall_app. split; [apply tag_deltas_ok|apply semantic_deltas_ok]. }
    exists s. rewrite Hscore. repeat split; try done.
    intros Ht Hsem. rewrite Ht, Hsem in Hs. simpl in Hs. congruence. }
  assert (Hid : log_id log ∈ map log_id date_logs)
    by (apply elem_of_map; by exists log).
  destruct (Hfused _ Hid) as (s & Hscore & Hge & Hone).
  apply score_of_Some in Hscore as (entry & Hin & Hentry & Hsc).
  assert (acc = results st) as ->.
  { unfold fallback in Hacc. destruct (results st); [|by injection Hacc].
    by apply not_elem_of_nil in Hin. }
  exists entry. split; [done|]. split; [done|]. split; [by rewrite Hsc|].
  split; [by rewrite Hsc|]. split.
  - intros Hlen. rewrite firstn_all2 by (unfold sort_by_score; by rewrite sort_desc_length).
    by apply (sort_desc_elem_of retrieval_score PrimFloat.ltb).
  - intros Hlen Hothers.
    pose proof (run_channels_inv _ _ _ _ Hrun) as [_ Hnd _].
    destruct (date_block env query intent range date_logs st)
      as (front & back & Happ & Hfl & Hfront & Hback); [done..|].
    rewrite Happ in Hin, Hothers, Hnd |- *.
    assert (Hentry_front : entry ∈ front).
    { apply elem_of_app in Hin as [Hf|Hb]; [done|].
      exfalso. apply (Hback _ Hb). by rewrite Hentry. }
    unfold sort_by_score. rewrite sort_desc_app.
    + rewrite take_app_ge by (rewrite sort_desc_length; lia).
      apply elem_of_app. left.
      by apply (sort_desc_elem_of retrieval_score PrimFloat.ltb).
    + intros x y Hx Hy. apply score_one_between.
      * destruct (Hfused _ (Hfront _ Hx)) as (sx & Hsx & Hgx & _).
        rewrite Happ, score_of_elem in Hsx;
          [|done|apply elem_of_app; by left].
        by injection Hsx as ->.
      * apply Hothers; [apply elem_of_app; by right|by apply Hback].
Qed.

Lemma date_range_logs_scored_witness :
  date_range Scenario.the_intent = Some Scenario.week_range /\
  date_query Scenario.the_env Scenario.week_range = Ok [row_to_log Scenario.row_a] /\
  _retrieve_logs Scenario.the_env Scenario.the_query Scenario.the_intent
  = Ok Scenario.the_result /\
  exists acc,
    accumulated Scenario.the_env Scenario.the_query Scenario.the_intent = Ok acc /\
    forall log, log ∈ [row_to_log Scenario.row_a] ->
      exists entry,
        entry ∈ acc /\ rl_id entry = log_id log /\
        (1 <=? retrieval_score entry)%float = true /\
        (tag_deltas Scenario.the_env Scenario.the_intent (log_id log) = [] ->
         semantic_deltas Scenario.the_env Scenario.the_query Scenario.the_intent
           (log_id log) = [] ->
         retrieval_score entry = 1%float) /\
        ((length acc <= 20)%nat -> entry ∈ Scenario.the_result) /\
        ((length [row_to_log Scenario.row_a] <= 20)%nat ->
         (forall e, e ∈ acc -> rl_id e ∉ map log_id [row_to_log Scenario.row_a] ->
            (retrieval_score e <=? 1)%float = true) ->
         entry ∈ Scenario.the_result).
Proof.
  assert (H1 : date_range Scenario.the_intent = Some Scenario.week_range)
    by reflexivity.
  assert (H2 : date_query Scenario.the_env Scenario.week_range
               = Ok [row_to_log Scenario.row_a]) by (vm_compute; reflexivity).
  assert (H3 : _retrieve_logs Scenario.the_env Scenario.the_query
                 Scenario.the_intent = Ok Scenario.the_result)
    by (vm_compute; reflexivity).
  exact (conj H1 (conj H2 (conj H3 (date_range_logs_scored _ _ _ _ _ _ H1 H2 H3)))).
Defined.

(** The loop reaches every tuple when the stored embeddings have the
    dimension of the query embedding. *)
Lemma similarities_all (q : list float) (embs : list LogEmbedding) :
  Forall (fun e => length (le_embedding e) = length q) embs ->
  map fst (similarities q embs) = embs.
Proof.
  induction 1 as [|e embs He Hembs IH]; simpl; [done|].
  unfold cosine_similarity, np_dot.
  rewrite He, Nat.eqb_refl. simpl.
  destruct (_ || _); simpl; by rewrite IH.
Qed.

(** C4, the claim as stated fails: the similarity of the vector (1, 1, 1) to
    itself is computed as 1.0000000000000002, and the entry it inserts
    scores 0.7000000000000001, above 0.7. *)
Lemma semantic_contribution_counterexample :
  cosine_similarity [1; 1; 1]%float [1; 1; 1]%float = Ok 1.0000000000000002%float /\
  exists entry,
    _retrieve_logs Scenario.echo_env Scenario.the_query Scenario.semantic_intent
    = Ok [entry] /\
    rl_id entry = "E" /\
    retrieval_score entry = (1.0000000000000002 * 0.7)%float /\
    (0.7 <? retrieval_score entry)%float = true.
Proof.
  split; [vm_compute; reflexivity|].
  eexists. split; [vm_compute; reflexivity|].
  split; [reflexivity|]. split; reflexivity.
Qed.

(** C4, amended.  Of the tuples the semantic loop reaches (all of them when
    the stored embeddings have the dimension of the query), those with a
    similarity of at most 0.3 are discarded; each of the others credits
    similarity * 0.7 to its id, added to the score the id has, or inserted
    as its first score.  That credit is at most 0.7 when the computed
    similarity is at most 1. *)
Theorem semantic_channel_credits (env : Env) (query : string) (intent : Intent)
  (st : Acc) :
  acc_inv st ->
  (forall p, p ∈ semantic_scan env query intent ->
     (snd p <=? 0.3)%float = true -> p ∉ semantic_hits env query intent) /\
  (forall p, p ∈ semantic_hits env query intent ->
     p ∈ semantic_scan env query intent /\ (0.3 <? snd p)%float = true) /\
  (forall id,
     score_of id (results (semantic_channel env query intent st))
     = fuse_from (score_of id (results st)) (semantic_deltas env query intent id)) /\
  (forall p, p ∈ semantic_hits env query intent ->
     (snd p <=? 1)%float = true -> (snd p * 0.7 <=? 0.7)%float = true) /\
  (forall q embs,
     default true (needs_rag intent) = true ->
     compute_embedding env (default query (semantic_query intent)) = Ok q ->
     get_log_embeddings (db env) = Ok embs ->
     Forall (fun e => length (le_embedding e) = length q) embs ->
     map fst (semantic_scan env query intent) = embs).
Proof.
  intros Hinv. split; [|split; [|split; [|split]]].
  - intros p _ Hle Hin. unfold semantic_hits in Hin.
    apply list_elem_of_In, filter_In in Hin as [_ Hlt].
    apply FloatOrder.leb_ltb_false in Hle. congruence.
  - intros p Hin. unfold semantic_hits in Hin.
    apply list_elem_of_In, filter_In in Hin as [Hin Hlt].
    split; [by apply list_elem_of_In|done].
  - intros id. by apply semantic_channel_score.
  - intros p Hin Hle. unfold semantic_hits in Hin.
    apply list_elem_of_In, filter_In in Hin as [_ Hlt].
    by apply FloatArith.mul_0_7_le.
  - intros q embs Hrag Hq Hembs Hdim. unfold semantic_scan.
    rewrite Hrag, Hq, Hembs. by apply similarities_all.
Qed.

Lemma semantic_channel_credits_witness :
  acc_inv acc_empty /\
  score_of "C" (results (semantic_channel Scenario.the_env Scenario.the_query
                           Scenario.the_intent acc_empty))
  = Some (0.6 * 0.7)%float /\
  score_of "A" (results (semantic_channel Scenario.the_env Scenario.the_query
                           Scenario.the_intent acc_empty))
  = None.
Proof.
  split; [apply acc_inv_empty|].
  destruct (semantic_channel_credits Scenario.the_env Scenario.the_query
              Scenario.the_intent acc_empty acc_inv_empty)
    as (_ & _ & Hscore & _).
  split; rewrite Hscore; vm_compute; reflexivity.
Defined.

(** C5.  The date channel and the semantic channel absorb the failure of
    their store, parsing or embedding call: the accumulated state stays as it
    was and the step goes on.  The tag channel has no such guard: when its
    store call fails, the retrieval step fails with it. *)
Theorem tag_channel_failure_propagates (env : Env) (query : string)
  (intent : Intent) :
  (forall st range e,
     date_range intent = Some range -> date_query env range = Raise e ->
     date_channel env intent st = st) /\
  (forall st e,
     compute_embedding env (default query (semantic_query intent)) = Raise e
     \/ get_log_embeddings (db env) = Raise e ->
     semantic_channel env query intent st = st) /\
  (tags intent <> [] -> db_fault (db env) OpByTags = true ->
   _retrieve_logs env query intent = Raise OperationalError).
Proof.
  repeat split.
  - intros st range e Hr Hq. unfold date_channel. by rewrite Hr, Hq.
  - intros st e [He|He]; unfold semantic_channel; destruct (default true _); try done.
    + by rewrite He.
    + rewrite He. by destruct (compute_embedding _ _).
  - intros Htags Hfault.
    unfold _retrieve_logs, accumulated, run_channels, tag_channel.
    destruct (tags intent) as [|t ts]; [done|].
    unfold get_logs_by_tags, with_db. by rewrite Hfault.
Qed.

Lemma tag_channel_failure_propagates_witness :
  tags Scenario.the_intent <> [] /\
  db_fault (db Scenario.tag_fault_env) OpByTags = true /\
  _retrieve_logs Scenario.tag_fault_env Scenario.the_query Scenario.the_intent
  = Raise OperationalError.
Proof.
  assert (H1 : tags Scenario.the_intent <> []) by discriminate.
  assert (H2 : db_fault (db Scenario.tag_fault_env) OpByTags = true) by reflexivity.
  exact (conj H1 (conj H2
    (proj2 (proj2 (tag_channel_failure_propagates Scenario.tag_fault_env
                     Scenario.the_query Scenario.the_intent)) H1 H2))).
Defined.

(** The ranking leaves a list of equal scores as it is. *)
Lemma sort_by_score_constant (s : float) (recent : list Log) :
  sort_by_score (map (with_score s) recent) = map (with_score s) recent.
Proof.
  apply (sort_desc_all_same retrieval_score PrimFloat.ltb).
  intros x y (lx & -> & _)%elem_of_map (ly & -> & _)%elem_of_map. simpl.
  apply FloatOrder.ltb_irrefl.
Qed.

Lemma get_all_logs_length (d : Db) (recent : list Log) :
  get_all_logs d 20 = Ok recent ->
  length recent = Nat.min 20 (length (logs d)).
Proof.
  unfold get_all_logs, with_db. destruct (db_fault _ _); [done|]. intros [= <-].
  rewrite length_map, DatabaseFacts.sql_limit_length by lia.
  unfold order_by_timestamp_desc. rewrite sort_desc_length. done.
Qed.

(** What the retrieval step returns when the three channels found nothing. *)
Lemma retrieve_logs_fallback (env : Env) (query : string) (intent : Intent)
  (st : Acc) (recent : list Log) :
  run_channels env query intent = Ok st -> results st = [] ->
  get_all_logs (db env) 20 = Ok recent ->
  _retrieve_logs env query intent = Ok (map (with_score 0.1%float) recent).
Proof.
  intros Hrun Hempty Hrecent.
  unfold _retrieve_logs, accumulated. rewrite Hrun. simpl. rewrite Hempty. simpl.
  rewrite Hrecent. simpl. rewrite sort_by_score_constant.
  rewrite firstn_all2; [done|].
  rewrite length_map, (get_all_logs_length _ _ Hrecent). lia.
Qed.

(** What the retrieval step returns when the three channels found nothing,
    in rows of the table. *)
Lemma retrieve_logs_fallback_rows (env : Env) (query : string) (intent : Intent)
  (st : Acc) :
  run_channels env query intent = Ok st -> results st = [] ->
  db_fault (db env) OpAllLogs = false ->
  exists recent older : list Row,
    Permutation (logs (db env)) (recent ++ older) /\
    length recent = Nat.min 20 (length (logs (db env))) /\
    StronglySorted (fun a b => (row_timestamp b <= row_timestamp a)%Z) recent /\
    (forall a b, a ∈ recent -> b ∈ older -> (row_timestamp b <= row_timestamp a)%Z) /\
    _retrieve_logs env query intent
    = Ok (map (fun r => {| rl_id := row_id r;
                           rl_content := row_content r;
                           rl_timestamp := row_timestamp r;
                           rl_tags := row_tags_json r;
                           rl_source := Some (row_source r);
                           rl_summary := row_summary r;
                           retrieval_score := 0.1%float |}) recent).
Proof.
  intros Hrun Hempty Hfault.
  destruct (get_all_logs (db env) 20) as [logs20|e] eqn:Hrecent.
  - destruct (DatabaseFacts.get_all_logs_recent_rows _ _ Hrecent)
      as (recent & older & -> & Hperm & Hlen & Hsorted & Hold).
    exists recent, older. repeat split; try done.
    rewrite (retrieve_logs_fallback _ _ _ _ _ Hrun Hempty Hrecent).
    by rewrite map_map.
  - unfold get_all_logs, with_db in Hrecent. by rewrite Hfault in Hrecent.
Qed.

(** C6, the claim as stated fails: with a store whose tag query fails, a
    question that names a tag and nothing else leaves [results] empty (no
    date range, a failed tag channel, no semantic search) over a corpus of
    three logs, and the fallback query would answer; the retrieval step
    raises the error of the tag query and returns nothing. *)
Lemma fallback_skipped_on_tag_failure_counterexample :
  logs (db Scenario.tag_fault_env) <> [] /\
  date_channel Scenario.tag_fault_env Scenario.tags_only_intent acc_empty = acc_empty /\
  get_logs_by_tags (db Scenario.tag_fault_env) (tags Scenario.tags_only_intent)
  = Raise OperationalError /\
  semantic_channel Scenario.tag_fault_env Scenario.the_query
    Scenario.tags_only_intent acc_empty = acc_empty /\
  db_fault (db Scenario.tag_fault_env) OpAllLogs = false /\
  _retrieve_logs Scenario.tag_fault_env Scenario.the_query Scenario.tags_only_intent
  = Raise OperationalError /\
  (forall out,
     _retrieve_logs Scenario.tag_fault_env Scenario.the_query
       Scenario.tags_only_intent <> Ok out).
Proof.
  assert (H : _retrieve_logs Scenario.tag_fault_env Scenario.the_query
                Scenario.tags_only_intent = Raise OperationalError)
    by (vm_compute; reflexivity).
  split; [discriminate|]. split; [reflexivity|]. split; [reflexivity|].
  split; [reflexivity|]. split; [reflexivity|]. split; [exact H|].
  intros out Hout. rewrite H in Hout. discriminate Hout.
Qed.

(** C6, amended.  A date channel that is skipped or whose query fails, no
    tags, and a semantic channel that is skipped or whose embedding service
    or table fails leave [results] empty.  Whenever the three channels leave
    [results] empty and the query of the fallback answers, the step returns
    the rows of the fallback, 20 at most and all of them when the table has
    fewer, each with the columns of its row and the score 0.1; so on a
    corpus that is not empty a returned sequence is never empty.  What
    happens when the tag query fails is left out. *)
Theorem fallback_scores_recent_logs (env : Env) (query : string) (intent : Intent) :
  ((date_range intent = None \/
    exists range e, date_range intent = Some range /\ date_query env range = Raise e) ->
   tags intent = [] ->
   (needs_rag intent = Some false \/
    (exists e, compute_embedding env (default query (semantic_query intent)) = Raise e)
    \/ (exists e, get_log_embeddings (db env) = Raise e)) ->
   run_channels env query intent = Ok acc_empty) /\
  (forall st,
     run_channels env query intent = Ok st -> results st = [] ->
     db_fault (db env) OpAllLogs = false ->
     exists recent older : list Row,
       Permutation (logs (db env)) (recent ++ older) /\
       length recent = Nat.min 20 (length (logs (db env))) /\
       _retrieve_logs env query intent
       = Ok (map (fun r => {| rl_id := row_id r;
                              rl_content := row_content r;
                              rl_timestamp := row_timestamp r;
                              rl_tags := row_tags_json r;
                              rl_source := Some (row_source r);
                              rl_summary := row_summary r;
                              retrieval_score := 0.1%float |}) recent)) /\
  (forall out,
     logs (db env) <> [] -> _retrieve_logs env query intent = Ok out -> out <> []).
Proof.
  split; [|split].
  - intros Hdate Htags Hsem. unfold run_channels, tag_channel. rewrite Htags. simpl.
    f_equal.
    assert (Hd : date_channel env intent acc_empty = acc_empty).
    { unfold date_channel. destruct Hdate as [->|(range & e & -> & ->)]; done. }
    rewrite Hd. unfold semantic_channel.
    destruct Hsem as [->|[[e He]|[e He]]]; [done| |].
    + destruct (default true _); [|done]. by rewrite He.
    + destruct (default true _); [|done]. rewrite He.
      by destruct (compute_embedding _ _).
  - intros st Hrun Hempty Hfault.
    destruct (retrieve_logs_fallback_rows _ _ _ _ Hrun Hempty Hfault)
      as (recent & older & Hperm & Hlen & _ & _ & Hout).
    by exists recent, older.
  - intros out Hne. unfold _retrieve_logs.
    destruct (accumulated env query intent) as [acc|] eqn:Hacc; simpl; [|done].
    intros [= <-] Hnil.
    assert (Hacc_ne : acc <> []).
    { unfold accumulated in Hacc.
      destruct (run_channels env query intent) as [st|]; simpl in Hacc; [|done].
      unfold fallback in Hacc. destruct (results st) as [|r rs]; [|by injection Hacc as <-].
      destruct (get_all_logs (db env) 20) as [recent|] eqn:Hrecent; simpl in Hacc; [|done].
      injection Hacc as <-. intros Hmap.
      apply (f_equal length) in Hmap. rewrite length_map in Hmap.
      rewrite (get_all_logs_length _ _ Hrecent) in Hmap. simpl in Hmap.
      destruct (logs (db env)); [done|]. simpl in Hmap. lia. }
    apply Hacc_ne. apply (sort_desc_nil retrieval_score PrimFloat.ltb).
    destruct (sort_desc retrieval_score PrimFloat.ltb acc) eqn:E; [done|].
    unfold sort_by_score in Hnil. rewrite E in Hnil. discriminate.
Qed.

(** A question whose date range cannot be parsed and whose embedding
    cannot be computed, over the corpus of twenty-one logs: the 20 most
    recent come back. *)
Lemma fallback_scores_recent_logs_witness :
  (exists range e,
     date_range Scenario.unreadable_intent = Some range /\
     date_query Scenario.busy_env range = Raise e) /\
  tags Scenario.unreadable_intent = [] /\
  (exists e,
     compute_embedding Scenario.busy_env
       (default Scenario.the_query (semantic_query Scenario.unreadable_intent))
     = Raise e) /\
  run_channels Scenario.busy_env Scenario.the_query Scenario.unreadable_intent
  = Ok acc_empty /\
  exists recent older : list Row,
    Permutation (logs (db Scenario.busy_env)) (recent ++ older) /\
    length recent = Nat.min 20 (length (logs (db Scenario.busy_env))) /\
    _retrieve_logs Scenario.busy_env Scenario.the_query Scenario.unreadable_intent
    = Ok (map (fun r => {| rl_id := row_id r;
                           rl_content := row_content r;
                           rl_timestamp := row_timestamp r;
                           rl_tags := row_tags_json r;
                           rl_source := Some (row_source r);
                           rl_summary := row_summary r;
                           retrieval_score := 0.1%float |}) recent).
Proof.
  assert (H1 : exists range e,
             date_range Scenario.unreadable_intent = Some range /\
             date_query Scenario.busy_env range = Raise e)
    by (exists ("last week", "today"), ValueError; split; reflexivity).
  assert (H2 : tags Scenario.unreadable_intent = []) by reflexivity.
  assert (H3 : exists e,
             compute_embedding Scenario.busy_env
               (default Scenario.the_query (semantic_query Scenario.unreadable_intent))
             = Raise e) by (exists RuntimeError; reflexivity).
  destruct (fallback_scores_recent_logs Scenario.busy_env Scenario.the_query
              Scenario.unreadable_intent) as (Hskip & Hfall & _).
  pose proof (Hskip (or_intror H1) H2 (or_intror (or_introl H3))) as Hrun.
  exact (conj H1 (conj H2 (conj H3 (conj Hrun
           (Hfall acc_empty Hrun eq_refl eq_refl))))).
Defined.

(** C10.  When the fallback runs, the returned sequence is the (at most 20)
    most recent rows of table [logs], most recent first, each with the
    columns of its row and the score 0.1: the ranking leaves the order of
    the store as it is. *)
Theorem fallback_returns_most_recent_first (env : Env) (query : string)
  (intent : Intent) (st : Acc) (out : list RetrievedLog) :
  run_channels env query intent = Ok st -> results st = [] ->
  _retrieve_logs env query intent = Ok out ->
  exists recent older : list Row,
    Permutation (logs (db env)) (recent ++ older) /\
    length recent = Nat.min 20 (length (logs (db env))) /\
    StronglySorted (fun a b => (row_timestamp b <= row_timestamp a)%Z) recent /\
    (forall a b, a ∈ recent -> b ∈ older -> (row_timestamp b <= row_timestamp a)%Z) /\
    out = map (fun r => {| rl_id := row_id r;
                           rl_content := row_content r;
                           rl_timestamp := row_timestamp r;
                           rl_tags := row_tags_json r;
                           rl_source := Some (row_source r);
                           rl_summary := row_summary r;
                           retrieval_score := 0.1%float |}) recent.
Proof.
  intros Hrun Hempty Hout.
  destruct (db_fault (db env) OpAllLogs) eqn:Hfault.
  - unfold _retrieve_logs, accumulated in Hout. rewrite Hrun in Hout. simpl in Hout.
    rewrite Hempty in Hout. simpl in Hout.
    unfold get_all_logs, with_db in Hout. by rewrite Hfault in Hout.
  - destruct (retrieve_logs_fallback_rows _ _ _ _ Hrun Hempty Hfault)
      as (recent & older & Hperm & Hlen & Hsorted & Hold & Hret).
    exists recent, older. repeat split; try done. congruence.
Qed.

(** The corpus of three logs, stored in the order C, A, B, comes back in
    the order A, B, C. *)
Lemma fallback_returns_most_recent_first_witness :
  run_channels Scenario.the_env Scenario.the_query Scenario.bare_intent
  = Ok acc_empty /\
  _retrieve_logs Scenario.the_env Scenario.the_query Scenario.bare_intent
  = Ok [ mkRetrievedLog "A" "fixed the login page" 1704200000000
           [Scenario.tag_python] (Some "manual") None 0.1%float;
         mkRetrievedLog "B" "CORS preflight" 1690000000000
           [Scenario.tag_cors] (Some "manual") (Some "cors") 0.1%float;
         mkRetrievedLog "C" "cross-origin headers" 1680000000000
           [] (Some "external-commit") None 0.1%float ] /\
  exists recent older : list Row,
    Permutation (logs (db Scenario.the_env)) (recent ++ older) /\
    length recent = Nat.min 20 (length (logs (db Scenario.the_env))) /\
    StronglySorted (fun a b => (row_timestamp b <= row_timestamp a)%Z) recent /\
    (forall a b, a ∈ recent -> b ∈ older -> (row_timestamp b <= row_timestamp a)%Z) /\
    [ mkRetrievedLog "A" "fixed the login page" 1704200000000
        [Scenario.tag_python] (Some "manual") None 0.1%float;
      mkRetrievedLog "B" "CORS preflight" 1690000000000
        [Scenario.tag_cors] (Some "manual") (Some "cors") 0.1%float;
      mkRetrievedLog "C" "cross-origin headers" 1680000000000
        [] (Some "external-commit") None 0.1%float ]
    = map (fun r => {| rl_id := row_id r;
                       rl_content := row_content r;
                       rl_timestamp := row_timestamp r;
                       rl_tags := row_tags_json r;
                       rl_source := Some (row_source r);
                       rl_summary := row_summary r;
                       retrieval_score := 0.1%float |}) recent.
Proof.
  assert (H1 : run_channels Scenario.the_env Scenario.the_query Scenario.bare_intent
               = Ok acc_empty) by reflexivity.
  assert (H2 : results acc_empty = []) by reflexivity.
  assert (H3 : _retrieve_logs Scenario.the_env Scenario.the_query Scenario.bare_intent
               = Ok [ mkRetrievedLog "A" "fixed the login page" 1704200000000
                        [Scenario.tag_python] (Some "manual") None 0.1%float;
                      mkRetrievedLog "B" "CORS preflight" 1690000000000
                        [Scenario.tag_cors] (Some "manual") (Some "cors") 0.1%float;
                      mkRetrievedLog "C" "cross-origin headers" 1680000000000
                        [] (Some "external-commit") None 0.1%float ])
    by (vm_compute; reflexivity).
  exact (conj H1 (conj H3 (fallback_returns_most_recent_first _ _ _ _ _ H1 H2 H3))).
Defined.

(** C8.  [get_logs_by_tags] returns a log, with the columns of its row,
    exactly when one of its tag names and one of the requested names have
    the same lowercase form: names are compared whole, not searched for.
    For names written in ASCII that is to be the same name without regard
    to the case of the letters A to Z, place by place and so of one
    length. *)
Theorem get_logs_by_tags_exact_names (d : Db) (tag_names : list string)
  (found : list Log) :
  get_logs_by_tags d tag_names = Ok found ->
  (forall log, log ∈ found <->
     exists row, row ∈ logs d /\
       log = {| log_id := row_id row;
                log_content := row_content row;
                log_timestamp := row_timestamp row;
                log_tags := row_tags_json row;
                log_source := row_source row;
                log_summary := row_summary row |} /\
       exists t name, t ∈ row_tags_json row /\ name ∈ tag_names /\
         lower (name_of t) = lower name) /\
  (forall a b,
     DatabaseFacts.all_ascii a -> DatabaseFacts.all_ascii b ->
     (lower a = lower b <-> DatabaseFacts.eq_ignore_case a b)) /\
  (forall a b,
     DatabaseFacts.eq_ignore_case a b -> String.length a = String.length b).
Proof.
  unfold get_logs_by_tags, with_db.
  destruct (db_fault _ _); [done|]. intros [= <-].
  split; [|split; [apply DatabaseFacts.lower_eq_ignore_case
                  |apply DatabaseFacts.eq_ignore_case_length]].
  intros log. split.
  - intros (row & -> & Hrow)%elem_of_map. exists row.
    apply list_elem_of_In, filter_In in Hrow as [Hin Hm].
    apply list_elem_of_In in Hin. unfold order_by_timestamp_desc in Hin.
    apply sort_desc_elem_of in Hin. repeat split; try done.
    by apply DatabaseFacts.tags_match_spec.
  - intros (row & Hin & -> & Hm). apply elem_of_map. exists row. split; [done|].
    apply list_elem_of_In, filter_In.
    split; [|by apply DatabaseFacts.tags_match_spec].
    apply list_elem_of_In. unfold order_by_timestamp_desc. by apply sort_desc_elem_of.
Qed.

(** Asked for "React" and "CAFÉ", the store returns the log tagged "react"
    and the log tagged "café"; the log tagged "React Native" is not
    returned. *)
Lemma get_logs_by_tags_exact_names_witness :
  get_logs_by_tags Scenario.names_db ["React"; "CAFÉ"]
  = Ok [ mkLog "R3" "espresso notes" 1700000002000 [mkTag (Some "café") "Other"]
           "manual" None;
         mkLog "R1" "hooks" 1700000000000 [mkTag (Some "react") "Framework"]
           "manual" None ] /\
  (forall log,
     log ∈ [ mkLog "R3" "espresso notes" 1700000002000
               [mkTag (Some "café") "Other"] "manual" None;
             mkLog "R1" "hooks" 1700000000000 [mkTag (Some "react") "Framework"]
               "manual" None ] <->
     exists row, row ∈ logs Scenario.names_db /\
       log = {| log_id := row_id row;
                log_content := row_content row;
                log_timestamp := row_timestamp row;
                log_tags := row_tags_json row;
                log_source := row_source row;
                log_summary := row_summary row |} /\
       exists t name, t ∈ row_tags_json row /\ name ∈ ["React"; "CAFÉ"] /\
         lower (name_of t) = lower name) /\
  (lower "react" = lower "React" <-> DatabaseFacts.eq_ignore_case "react" "React") /\
  lower "React Native" <> lower "React".
Proof.
  assert (H : get_logs_by_tags Scenario.names_db ["React"; "CAFÉ"]
              = Ok [ mkLog "R3" "espresso notes" 1700000002000
                       [mkTag (Some "café") "Other"] "manual" None;
                     mkLog "R1" "hooks" 1700000000000
                       [mkTag (Some "react") "Framework"] "manual" None ])
    by (vm_compute; reflexivity).
  destruct (get_logs_by_tags_exact_names _ _ _ H) as (Hiff & Hcase & Hlen).
  split; [exact H|]. split; [exact Hiff|]. split.
  - apply Hcase; simpl; repeat split; apply Nat.ltb_lt; reflexivity.
  - intros Heq.
    assert (Hl : String.length "React Native" = String.length "React").
    { apply Hlen, Hcase;
        [simpl; repeat split; apply Nat.ltb_lt; reflexivity..|exact Heq]. }
    discriminate Hl.
Defined.

(** ** Cosine similarity *)

Lemma dot_exact_acc (v w : list R) (a : R) :
  fold_left (fun acc p => (acc + fst p * snd p)%R) (combine v w) a
  = (a + dot_exact v w)%R.
Proof.
  unfold dot_exact. revert w a. induction v as [|x v IH]; intros w a; simpl.
  - lra.
  - destruct w as [|y w]; simpl; [lra|].
    rewrite (IH w (a + x * y)%R), (IH w (0 + x * y)%R). lra.
Qed.

Lemma dot_exact_cons (x : R) (v : list R) :
  dot_exact (x :: v) (x :: v) = (x * x + dot_exact v v)%R.
Proof. unfold dot_exact at 1. simpl. rewrite dot_exact_acc. lra. Qed.

Lemma dot_exact_self_nonneg (v : list R) : (0 <= dot_exact v v)%R.
Proof.
  induction v as [|x v IH]; [unfold dot_exact; simpl; lra|].
  rewrite dot_exact_cons. pose proof (Rle_0_sqr x) as Hx. unfold Rsqr in Hx. lra.
Qed.

Lemma dot_exact_self_pos (v : list R) :
  Exists (fun x => x <> 0%R) v -> (0 < dot_exact v v)%R.
Proof.
  induction 1 as [x v Hx|x v _ IH]; rewrite dot_exact_cons.
  - pose proof (dot_exact_self_nonneg v).
    pose proof (Rsqr_pos_lt x Hx) as Hxx. unfold Rsqr in Hxx. lra.
  - pose proof (Rle_0_sqr x) as Hx. unfold Rsqr in Hx. lra.
Qed.

Lemma dot_exact_zero (w : list R) :
  Forall (fun x => x = 0%R) w -> dot_exact w w = 0%R.
Proof.
  induction 1 as [|x w -> _ IH]; [done|]. rewrite dot_exact_cons, IH. lra.
Qed.

(** C7, the claim as stated fails: [np.dot] raises on vectors of different
    lengths; the similarity of (1, 1) to itself is computed as
    0.9999999999999998; and the similarity of the non-zero vector (1e-200)
    to itself is 0.0, because its square underflows to 0. *)
Lemma cosine_similarity_counterexample :
  cosine_similarity [1; 2]%float [1; 2; 3]%float = Raise ValueError /\
  cosine_similarity [1; 1]%float [1; 1]%float = Ok 0.9999999999999998%float /\
  (0.9999999999999998 <? 1)%float = true /\
  cosine_similarity [1e-200]%float [1e-200]%float = Ok 0%float /\
  (1e-200 =? 0)%float = false.
Proof. repeat split; vm_compute; reflexivity. Qed.

(** C7, amended.  [cosine_similarity] returns a value exactly when the two
    vectors have the same length, and raises [ValueError] otherwise.  When
    one of the computed norms is 0 it returns 0.0 and does not divide;
    otherwise it returns the quotient.  In exact real arithmetic the formula
    gives 1 for a non-zero vector and itself, and 0 against a zero vector;
    the binary64 result can differ from 1.0 by rounding and by underflow. *)
Theorem cosine_similarity_total_on_equal_lengths :
  (forall v1 v2 : list float,
     length v1 = length v2 -> exists r, cosine_similarity v1 v2 = Ok r) /\
  (forall v1 v2 : list float,
     length v1 <> length v2 -> cosine_similarity v1 v2 = Raise ValueError) /\
  (forall (v1 v2 : list float) (r : float),
     cosine_similarity v1 v2 = Ok r ->
     (np_linalg_norm v1 =? 0)%float = true \/ (np_linalg_norm v2 =? 0)%float = true ->
     r = 0%float) /\
  (forall (v1 v2 : list float) (r : float),
     cosine_similarity v1 v2 = Ok r ->
     (np_linalg_norm v1 =? 0)%float = false ->
     (np_linalg_norm v2 =? 0)%float = false ->
     r = (dot_sum v1 v2 / (np_linalg_norm v1 * np_linalg_norm v2))%float) /\
  (forall v : list R, Exists (fun x => x <> 0%R) v -> cosine_exact v v = 1%R) /\
  (forall v w : list R, Forall (fun x => x = 0%R) w -> cosine_exact v w = 0%R).
Proof.
  repeat split.
  - intros v1 v2 Hlen. unfold cosine_similarity, np_dot.
    rewrite Hlen, Nat.eqb_refl. simpl. destruct (_ || _); eauto.
  - intros v1 v2 Hlen. unfold cosine_similarity, np_dot.
    by apply Nat.eqb_neq in Hlen as ->.
  - intros v1 v2 r. unfold cosine_similarity, np_dot.
    destruct (length v1 =? length v2)%nat; simpl; [|done].
    intros Hr Hz. apply orb_true_iff in Hz. rewrite Hz in Hr. by injection Hr.
  - intros v1 v2 r. unfold cosine_similarity, np_dot.
    destruct (length v1 =? length v2)%nat; simpl; [|done].
    intros Hr H1 H2. rewrite H1, H2 in Hr. simpl in Hr. by injection Hr.
  - intros v Hv. unfold cosine_exact, norm_exact.
    pose proof (dot_exact_self_pos v Hv) as Hpos.
    pose proof (sqrt_lt_R0 _ Hpos) as Hn.
    destruct (Req_dec_T _ 0%R) as [H0|_]; [lra|].
    rewrite sqrt_sqrt by lra. field. lra.
  - intros v w Hw. unfold cosine_exact, norm_exact.
    rewrite (dot_exact_zero w Hw), sqrt_0.
    destruct (Req_dec_T _ 0%R); [done|].
    destruct (Req_dec_T 0%R 0%R); [done|lra].
Qed.

(** ** JSON extraction *)

Module LLMFacts.
Import LLM.
#[local] Arguments String.append !_ _ / : simpl nomatch.

Fixpoint has_char (c : ascii) (s : string) : bool :=
  match s with
  | EmptyString => false
  | String d s' => Ascii.eqb d c || has_char c s'
  end.

Lemma append_assoc (a b c : string) : (a +:+ b) +:+ c = a +:+ (b +:+ c).
Proof. induction a as [|x a IH]; simpl; [done|]. by rewrite IH. Qed.

Lemma append_length (a b : string) :
  String.length (a +:+ b) = (String.length a + String.length b)%nat.
Proof. induction a as [|x a IH]; simpl; [done|]. by rewrite IH. Qed.

Lemma find_from_none c s i : has_char c s = false -> find_from c s i = (-1)%Z.
Proof.
  revert i. induction s as [|d s IH]; intros i; simpl; [done|].
  intros [Hd Hs]%orb_false_iff. rewrite Hd. by apply IH.
Qed.

Lemma find_from_first c pre post i :
  has_char c pre = false ->
  find_from c (pre +:+ String c post) i = (i + Z.of_nat (String.length pre))%Z.
Proof.
  revert i. induction pre as [|d pre IH]; intros i; simpl.
  - intros _. rewrite Ascii.eqb_refl. lia.
  - intros [Hd Hs]%orb_false_iff. rewrite Hd, IH by done. lia.
Qed.

Lemma rfind_from_none c s i last : has_char c s = false -> rfind_from c s i last = last.
Proof.
  revert i last. induction s as [|d s IH]; intros i last; simpl; [done|].
  intros [Hd Hs]%orb_false_iff. rewrite Hd. by apply IH.
Qed.

Lemma rfind_from_last c pre post i last :
  has_char c post = false ->
  rfind_from c (pre +:+ String c post) i last = (i + Z.of_nat (String.length pre))%Z.
Proof.
  intros Hpost. revert i last. induction pre as [|d pre IH]; intros i last; simpl.
  - rewrite Ascii.eqb_refl, rfind_from_none by done. lia.
  - rewrite IH. lia.
Qed.

Lemma first_split c s :
  has_char c s = true ->
  exists pre post, s = pre +:+ String c post /\ has_char c pre = false.
Proof.
  induction s as [|d s IH]; simpl; [done|].
  destruct (Ascii.eqb_spec d c) as [->|Hne]; simpl.
  - intros _. by exists EmptyString, s.
  - intros (pre & post & -> & Hpre)%IH. exists (String d pre), post.
    split; [done|]. simpl. rewrite Hpre. by apply Ascii.eqb_neq in Hne as ->.
Qed.

Lemma last_split c s :
  has_char c s = true ->
  exists pre post, s = pre +:+ String c post /\ has_char c post = false.
Proof.
  induction s as [|d s IH]; simpl; [done|].
  destruct (has_char c s) eqn:Hs.
  - intros _. destruct (IH eq_refl) as (pre & post & -> & Hpost).
    by exists (String d pre), post.
  - rewrite orb_false_r. intros ->%Ascii.eqb_eq. by exists EmptyString, s.
Qed.

(** Two ways of cutting a text at different characters overlap. *)
Lemma split_overlap a b pre1 post1 pre2 post2 :
  pre1 +:+ String a post1 = pre2 +:+ String b post2 ->
  a <> b -> (String.length pre1 <= String.length pre2)%nat ->
  exists mid, pre2 = pre1 +:+ String a mid /\ post1 = mid +:+ String b post2.
Proof.
  intros Heq Hab. revert pre2 Heq. induction pre1 as [|x pre1 IH]; intros pre2 Heq Hlen.
  - destruct pre2 as [|y pre2]; simpl in Heq; injection Heq as -> ->; [done|].
    by exists pre2.
  - destruct pre2 as [|y pre2]; simpl in Heq, Hlen; [lia|].
    injection Heq as -> Heq. destruct (IH pre2 Heq ltac:(lia)) as (mid & -> & ->).
    by exists mid.
Qed.

Lemma substring_middle (a b c : string) :
  String.substring (String.length a) (String.length b) (a +:+ b +:+ c) = b.
Proof.
  induction a as [|x a IH]; simpl; [|done].
  induction b as [|y b IHb]; simpl; [by destruct c|]. by rewrite IHb.
Qed.

(** The handler parses the text from its first opening brace to its last
    closing brace, when the first comes before the last. *)
Ltac str_norm := repeat first [rewrite append_assoc | progress simpl]; try done.

Lemma slice_middle (a b c : string) :
  slice (a +:+ b +:+ c) (Z.of_nat (String.length a))
        (Z.of_nat (String.length a) + Z.of_nat (String.length b))
  = b.
Proof.
  unfold slice. rewrite Nat2Z.id.
  replace (Z.to_nat _) with (String.length b) by lia.
  apply substring_middle.
Qed.

Lemma brace_slice_found pre mid post :
  has_char "{" pre = false -> has_char "}" post = false ->
  brace_slice (pre +:+ "{" +:+ mid +:+ "}" +:+ post) = Some ("{" +:+ mid +:+ "}").
Proof.
  intros Hpre Hpost. unfold brace_slice, str_find, str_rfind.
  assert (Hfind : find_from "{" (pre +:+ "{" +:+ mid +:+ "}" +:+ post) 0
                  = Z.of_nat (String.length pre)).
  { change (pre +:+ "{" +:+ mid +:+ "}" +:+ post)
      with (pre +:+ String "{" (mid +:+ "}" +:+ post)).
    by rewrite find_from_first. }
  assert (Hrfind : rfind_from "}" (pre +:+ "{" +:+ mid +:+ "}" +:+ post) 0 (-1)
                   = (Z.of_nat (String.length pre) + Z.of_nat (String.length mid) + 1)%Z).
  { replace (pre +:+ "{" +:+ mid +:+ "}" +:+ post)
      with ((pre +:+ "{" +:+ mid) +:+ String "}" post)
      by str_norm.
    rewrite rfind_from_last by done. rewrite !append_length. simpl. lia. }
  rewrite Hfind, Hrfind.
  replace (negb _ && _) with true
    by (symmetry; apply andb_true_iff; split; [apply negb_true_iff|]; lia).
  f_equal.
  replace (pre +:+ "{" +:+ mid +:+ "}" +:+ post)
    with (pre +:+ ("{" +:+ mid +:+ "}") +:+ post)
    by str_norm.
  replace (Z.of_nat (String.length pre) + Z.of_nat (String.length mid) + 1 + 1)%Z
    with (Z.of_nat (String.length pre) + Z.of_nat (String.length ("{" +:+ mid +:+ "}")))%Z
    by (simpl; rewrite append_length; simpl; lia).
  apply slice_middle.
Qed.

(** The handler parses the text from its first opening brace to its last
    closing brace, when the first comes before the last. *)
Lemma brace_slice_spec text inner :
  brace_slice text = Some inner <->
  exists pre mid post,
    text = pre +:+ "{" +:+ mid +:+ "}" +:+ post /\
    has_char "{" pre = false /\ has_char "}" post = false /\
    inner = "{" +:+ mid +:+ "}".
Proof.
  split.
  - intros Hslice.
    destruct (has_char "{" text) eqn:Ho.
    2:{ unfold brace_slice, str_find in Hslice.
        rewrite find_from_none in Hslice by done. done. }
    destruct (first_split _ _ Ho) as (pre1 & post1 & Ht1 & Hpre1).
    assert (Hfind : str_find "{" text = Z.of_nat (String.length pre1)).
    { unfold str_find. rewrite Ht1. by rewrite find_from_first. }
    destruct (has_char "}" text) eqn:Hc.
    2:{ unfold brace_slice in Hslice. rewrite Hfind in Hslice. unfold str_rfind in Hslice.
        rewrite (rfind_from_none "}" text) in Hslice by done.
        destruct (negb _ && _) eqn:E; [|done].
        apply andb_prop in E as [_ E]. apply Z.ltb_lt in E. exfalso. clear -E. lia. }
    destruct (last_split _ _ Hc) as (pre2 & post2 & Ht2 & Hpost2).
    assert (Hrfind : str_rfind "}" text = Z.of_nat (String.length pre2)).
    { unfold str_rfind. rewrite Ht2. by rewrite rfind_from_last. }
    assert (Hlen : (String.length pre1 <= String.length pre2)%nat).
    { unfold brace_slice in Hslice. rewrite Hfind, Hrfind in Hslice.
      destruct (negb _ && _) eqn:E; [|done].
      apply andb_prop in E as [_ E]. apply Z.ltb_lt in E. clear -E. lia. }
    assert (Hne : "{"%char <> "}"%char) by discriminate.
    rewrite Ht1 in Ht2.
    destruct (split_overlap _ _ pre1 post1 pre2 post2 Ht2 Hne Hlen) as (mid & -> & ->).
    exists pre1, mid, post2.
    assert (Ht : text = pre1 +:+ "{" +:+ mid +:+ "}" +:+ post2) by done.
    repeat split; try done.
    rewrite Ht, brace_slice_found in Hslice by done. by injection Hslice.
  - intros (pre & mid & post & -> & Hpre & Hpost & ->). by apply brace_slice_found.
Qed.

(** *** The fenced block *)

Fixpoint all_space (s : string) : bool :=
  match s with
  | EmptyString => true
  | String c s' => is_space c && all_space s'
  end.

Lemma prefix_split p s :
  String.prefix p s = true -> s = p +:+ drop_chars (String.length p) s.
Proof.
  revert s. induction p as [|a p IH]; intros s; simpl.
  - intros _. by destruct s.
  - destruct s as [|b s]; [done|]. cbn [String.prefix].
    destruct (ascii_dec a b) as [->|]; [|done].
    intros Hp. simpl. f_equal. by apply IH.
Qed.

Lemma after_fence_split s rest :
  after_fence s = Some rest -> exists pre, s = pre +:+ fence +:+ rest.
Proof.
  induction s as [|c s IH]; [done|]. cbn [after_fence].
  destruct (String.prefix fence (String c s)) eqn:Hp.
  - intros [= <-]. exists EmptyString. by apply (prefix_split fence).
  - intros (pre & ->)%IH. by exists (String c pre).
Qed.

Lemma until_fence_split s group1 :
  until_fence s = Some group1 -> exists post, s = group1 +:+ fence +:+ post.
Proof.
  revert group1. induction s as [|c s IH]; intros group1; [done|]. cbn [until_fence].
  destruct (String.prefix fence (String c s)) eqn:Hp.
  - intros [= <-]. exists (drop_chars 3 (String c s)). by apply (prefix_split fence).
  - destruct (until_fence s) as [g|]; simpl; [|done]. intros [= <-].
    destruct (IH g eq_refl) as (post & ->). by exists post.
Qed.

(** The group is the shortest one: it holds no fence. *)
Lemma until_fence_shortest s group1 :
  until_fence s = Some group1 -> forall a b, group1 <> a +:+ fence +:+ b.
Proof.
  revert group1. induction s as [|c s IH]; intros group1; [done|]. cbn [until_fence].
  destruct (String.prefix fence (String c s)) eqn:Hp.
  - intros [= <-] a b. by destruct a.
  - destruct (until_fence s) as [g|] eqn:Hg; simpl; [|done]. intros [= <-] a b Heq.
    destruct (until_fence_split _ _ Hg) as (post & ->).
    destruct a as [|x a].
    + simpl in Heq. injection Heq as -> ->. simpl in Hp. by destruct b.
    + simpl in Heq. injection Heq as -> ->. by eapply IH.
Qed.

Lemma skip_json_split s :
  exists lang, s = lang +:+ skip_json s /\ (lang = "" \/ lang = "json").
Proof.
  unfold skip_json. destruct (String.prefix "json" s) eqn:Hp.
  - exists "json". split; [|by right]. by apply (prefix_split "json").
  - exists "". split; [done|by left].
Qed.

Lemma lstrip_split s :
  exists ws, s = ws +:+ lstrip s /\ all_space ws = true.
Proof.
  induction s as [|c s (ws & Hs & Hws)]; simpl; [by exists ""|].
  destruct (is_space c) eqn:Hc.
  - exists (String c ws). simpl. rewrite Hc, Hws. split; [by f_equal|done].
  - by exists "".
Qed.

(** What the regular expression captures: after a first fence, an optional
    "json" and blanks, the text up to the next fence. *)
Lemma re_search_fenced_spec text group1 :
  re_search_fenced text = Some group1 ->
  exists pre lang ws post,
    text = pre +:+ fence +:+ lang +:+ ws +:+ group1 +:+ fence +:+ post /\
    (lang = "" \/ lang = "json") /\ all_space ws = true /\
    (forall a b, group1 <> a +:+ fence +:+ b).
Proof.
  unfold re_search_fenced.
  destruct (after_fence text) as [rest|] eqn:Hrest; [|done]. intros Hg.
  destruct (after_fence_split _ _ Hrest) as (pre & ->).
  destruct (skip_json_split rest) as (lang & Hlang & Hl).
  destruct (lstrip_split (skip_json rest)) as (ws & Hws & Hsp).
  destruct (until_fence_split _ _ Hg) as (post & Hpost).
  exists pre, lang, ws, post. repeat split; try done.
  - rewrite <- Hpost, <- Hws, <- Hlang. done.
  - by eapply until_fence_shortest.
Qed.

(** Without two fences there is no block. *)
Lemma re_search_fenced_none text :
  (forall a b c, text <> a +:+ fence +:+ b +:+ fence +:+ c) ->
  re_search_fenced text = None.
Proof.
  intros Hno. destruct (re_search_fenced text) as [g|] eqn:E; [|done].
  destruct (re_search_fenced_spec _ _ E) as (pre & lang & ws & post & Ht & _).
  exfalso. apply (Hno pre (lang +:+ ws +:+ g) post).
  rewrite Ht. by rewrite !append_assoc.
Qed.

Lemma rstrip_split s :
  exists ws, s = rstrip s +:+ ws /\ all_space ws = true.
Proof.
  induction s as [|c s (ws & Hs & Hws)]; simpl; [by exists ""|].
  destruct (rstrip s) as [|d r] eqn:Hr.
  - simpl in Hs. subst s. destruct (is_space c) eqn:Hc.
    + exists (String c ws). simpl. by rewrite Hc, Hws.
    + by exists ws.
  - exists ws. split; [|done]. simpl. f_equal. by rewrite Hs at 1.
Qed.

(** [str.strip] removes blanks at both ends and nothing else. *)
Lemma strip_split s :
  exists ws1 ws2,
    s = ws1 +:+ strip s +:+ ws2 /\ all_space ws1 = true /\ all_space ws2 = true.
Proof.
  destruct (lstrip_split s) as (ws1 & Hs1 & Hws1).
  destruct (rstrip_split (lstrip s)) as (ws2 & Hs2 & Hws2).
  exists ws1, ws2. unfold strip. repeat split; try done.
  by rewrite <- Hs2.
Qed.

(** The first success of the attempts, in their order. *)
Fixpoint first_success {Json : Type} (attempts : list (option Json)) : result Json :=
  match attempts with
  | [] => Raise JSONDecodeError
  | Some v :: _ => Ok v
  | None :: rest => first_success rest
  end.

End LLMFacts.

(** The three ways a JSON value is found: in the first fenced block, as the
    whole text, and between the first opening and the last closing brace. *)
Example extract_json_examples :
  LLM._extract_json _ MiniJson.loads Scenario.fenced_answer
  = Ok (MiniJson.JObject []) /\
  LLM._extract_json _ MiniJson.loads " [1, 2] "
  = Ok (MiniJson.JArray [MiniJson.JInt 1; MiniJson.JInt 2]) /\
  LLM._extract_json _ MiniJson.loads "Sure: {} I hope it helps."
  = Ok (MiniJson.JObject []).
Proof. repeat split; vm_compute; reflexivity. Qed.

(** C9, the claim as stated fails.  A JSON object with a fenced block inside
    one of its strings parses directly, and [_extract_json] raises on it: the
    fenced content "x" is all it tries.  An answer with a fenced command
    followed by a JSON object has a substring from its first brace to its
    last that parses, and [_extract_json] raises on it as well. *)
Lemma extract_json_counterexample :
  LLM.strategy_direct _ MiniJson.loads Scenario.json_with_fence
  = Some (MiniJson.JObject [("code", MiniJson.JString "```x```")]) /\
  LLM._extract_json _ MiniJson.loads Scenario.json_with_fence
  = Raise JSONDecodeError /\
  LLM.strategy_braces _ MiniJson.loads Scenario.answer_after_fence
  = Some (MiniJson.JObject []) /\
  LLM._extract_json _ MiniJson.loads Scenario.answer_after_fence
  = Raise JSONDecodeError.
Proof. repeat split; vm_compute; reflexivity. Qed.

(** C9, amended.  [_extract_json] first settles on the text to parse: the
    stripped content of the first fenced block when the text has one, the
    text itself otherwise.  It parses that candidate directly and, when that
    fails, the candidate from its first opening brace to its last closing
    brace; it returns the first success and raises a parse error only when
    both fail.  Once a fenced block is found, the text itself is parsed
    neither directly nor from brace to brace. *)
Theorem extract_json_parses_one_candidate (Json : Type)
  (json_loads : string -> option Json) (text : string) :
  (LLM.re_search_fenced text = None ->
   LLM._extract_json Json json_loads text
   = LLMFacts.first_success
       [LLM.strategy_direct Json json_loads text;
        LLM.strategy_braces Json json_loads text]) /\
  (forall group1,
     LLM.re_search_fenced text = Some group1 ->
     LLM._extract_json Json json_loads text
     = LLMFacts.first_success
         [LLM.strategy_fenced Json json_loads text;
          LLM.strategy_braces Json json_loads (LLM.strip group1)] /\
     exists pre lang ws post,
       text = pre +:+ LLM.fence +:+ lang +:+ ws +:+ group1 +:+ LLM.fence +:+ post /\
       (lang = "" \/ lang = "json") /\ LLMFacts.all_space ws = true /\
       (forall a b, group1 <> a +:+ LLM.fence +:+ b)) /\
  (forall candidate inner,
     LLM.brace_slice candidate = Some inner <->
     exists pre mid post,
       candidate = pre +:+ "{" +:+ mid +:+ "}" +:+ post /\
       LLMFacts.has_char "{" pre = false /\ LLMFacts.has_char "}" post = false /\
       inner = "{" +:+ mid +:+ "}").
Proof.
  split; [|split].
  - intros Hnone. unfold LLM._extract_json, LLM.candidate, LLM.strategy_direct,
      LLM.strategy_braces. rewrite Hnone. simpl.
    destruct (json_loads text); [done|].
    destruct (LLM.brace_slice text); [|done]. by destruct (json_loads _).
  - intros group1 Hgroup. split; [|by apply LLMFacts.re_search_fenced_spec].
    unfold LLM._extract_json, LLM.candidate, LLM.strategy_fenced,
      LLM.strategy_braces. rewrite Hgroup. simpl.
    destruct (json_loads (LLM.strip group1)); [done|].
    destruct (LLM.brace_slice _); [|done]. by destruct (json_loads _).
  - intros candidate inner. apply LLMFacts.brace_slice_spec.
Qed.

(* ===================================================================== *)
(** * Part IV: the rest of the backend                                    *)
(* ===================================================================== *)

(** ** Sorting and selecting *)
Section StableSortFilter.
Context {A K : Type}.
Variable key : A -> K.
Variable lt : K -> K -> bool.
Variable valid : K -> Prop.
Hypothesis lt_asym : forall a b, valid a -> valid b -> lt a b = true -> lt b a = false.
Hypothesis lt_ntrans : forall a b c, valid a -> valid b -> valid c ->
  lt a b = false -> lt b c = false -> lt a c = false.

Lemma insert_desc_head x l :
  (forall z, z ∈ l -> lt (key x) (key z) = false) -> insert_desc key lt x l = x :: l.
Proof.
  destruct l as [|y l]; [done|]. intros H. simpl. rewrite H; [done|constructor].
Qed.

(** Sorting and selecting commute: the stable sort of the selected
    elements is the selection from the sorted list. *)
Lemma insert_desc_filter (p : A -> bool) x l :
  valid (key x) -> Forall (fun y => valid (key y)) l -> sorted_desc key lt l ->
  List.filter p (insert_desc key lt x l)
  = if p x then insert_desc key lt x (List.filter p l) else List.filter p l.
Proof.
  intros Hx Hv Hs. induction Hs as [|y l Hs IH Hy]; simpl.
  - by destruct (p x).
  - apply Forall_cons in Hv as [Hvy Hv].
    destruct (lt (key x) (key y)) eqn:Hxy; simpl.
    + rewrite IH by done. destruct (p x), (p y); simpl; try done. by rewrite Hxy.
    + destruct (p x); [|done]. f_equal. symmetry.
      change (insert_desc key lt x (List.filter p (y :: l)) = x :: List.filter p (y :: l)).
      apply insert_desc_head. intros z Hz%list_elem_of_In.
      apply filter_In in Hz as [Hz%list_elem_of_In _].
      apply elem_of_cons in Hz as [->|Hz]; [done|].
      rewrite Forall_forall in Hy, Hv.
      apply (lt_ntrans _ (key y)); auto.
Qed.

Lemma sort_desc_filter (p : A -> bool) l :
  Forall (fun y => valid (key y)) l ->
  List.filter p (sort_desc key lt l) = sort_desc key lt (List.filter p l).
Proof.
  induction 1 as [|x l Hx Hl IH]; [done|].
  cbn [sort_desc foldr]. fold (sort_desc key lt l).
  rewrite insert_desc_filter; [| done | | ].
  - simpl. rewrite IH. by destruct (p x).
  - rewrite Forall_forall in Hl |- *. intros y Hy. apply Hl.
    by apply (sort_desc_elem_of key lt).
  - by apply (sort_desc_sorted key lt valid).
Qed.

End StableSortFilter.

(** ** Adding a number that is not negative does not lower a sum *)
Module FloatMono.
Import FloatOrder FloatArith.
Local Open Scope Z_scope.

Lemma pack_ge mx ex m e :
  0 < m -> ex < e \/ (ex = e /\ Zpos mx <= m) ->
  SFleb (S754_finite false mx ex) (pack false m e) = true.
Proof.
  intros Hm H. apply SFleb_rank. destruct m as [|p|p]; try lia. cbn [pack].
  destruct (e <=? emax - prec); cbn; (split; [done|split; [done|lia]]).
Qed.

Lemma valid_finite mx ex :
  valid_binary (S754_finite false mx ex) = true ->
  fexp (Zdigits2 (Zpos mx) + ex) = ex /\ ex <= 971.
Proof.
  cbn -[Z.pow]. unfold bounded, canonical_mantissa.
  intros [Hc He]%andb_prop. apply Z.eqb_eq in Hc. apply Z.leb_le in He.
  change (emax - prec) with 971 in He. done.
Qed.

(** The second shift of [binary_round_aux] leaves a positive mantissa. *)
Lemma second_shift mx ex m2 e1 :
  -1074 <= ex -> ex <= e1 -> 0 < m2 -> (e1 = ex -> Zpos mx <= m2) ->
  let n2 := Z.max 0 (fexp (Zdigits2 m2 + e1) - e1) in
  SFleb (S754_finite false mx ex) (pack false (m2 / 2 ^ n2) (e1 + n2)) = true.
Proof.
  intros Hex He1 Hm2 Hmx n2.
  destruct (Z_le_gt_dec n2 0) as [Hn|Hn].
  - assert (n2 = 0) as -> by (unfold n2 in *; lia).
    rewrite Z.pow_0_r, Z.div_1_r, Z.add_0_r. apply pack_ge; [done|]. lia.
  - assert (Hd : n2 = Zdigits2 m2 - 53).
    { unfold n2 in *. rewrite fexp_eq in *. lia. }
    pose proof (Zdigits2_bounds m2 Hm2) as [Hlo _].
    assert (Hpow : 2 ^ (Zdigits2 m2 - 1) = 2 ^ 52 * 2 ^ n2).
    { rewrite <- Z.pow_add_r by lia. f_equal. lia. }
    pose proof (pow2_pos n2 ltac:(lia)) as Hp.
    assert (2 ^ 52 <= m2 / 2 ^ n2).
    { apply Z.div_le_lower_bound; [done|]. rewrite Z.mul_comm. lia. }
    apply pack_ge; [|lia].
    pose proof (pow2_pos 52 ltac:(lia)). lia.
Qed.

Lemma binary_round_ge mx ex M ez :
  valid_binary (S754_finite false mx ex) = true ->
  ez <= ex -> Zpos mx * 2 ^ (ex - ez) <= Zpos M ->
  SFleb (S754_finite false mx ex) (binary_round prec emax false M ez) = true.
Proof.
  intros [Hc Hmax]%valid_finite Hez HM.
  assert (Hex : -1074 <= ex) by (rewrite fexp_eq in Hc; lia).
  pose proof (pow2_pos (ex - ez) ltac:(lia)) as Hp.
  assert (Hd : Zdigits2 (Zpos mx) + (ex - ez) <= Zdigits2 (Zpos M)).
  { pose proof (Zdigits2_bounds (Zpos mx) ltac:(lia)) as [Hlo _].
    pose proof (Zdigits2_pos (Zpos mx) ltac:(lia)).
    pose proof (Zdigits2_lower (Zpos M) (Zdigits2 (Zpos mx) - 1 + (ex - ez))
                  ltac:(lia)) as Hl.
    rewrite Z.pow_add_r in Hl by lia.
    assert (2 ^ (Zdigits2 (Zpos mx) - 1) * 2 ^ (ex - ez) <= Zpos M) by nia.
    specialize (Hl ltac:(done)). lia. }
  unfold binary_round.
  change (Zpos (digits2_pos M)) with (Zdigits2 (Zpos M)).
  set (t := fexp (Zdigits2 (Zpos M) + ez)).
  assert (Ht : ex <= t) by (unfold t; rewrite fexp_eq in *; lia).
  destruct (Z_le_gt_dec t ez) as [Hle|Hgt].
  - assert (t = ez) as Htz by lia. assert (ez = ex) as Hzx by lia.
    pose proof (shl_align_spec M ez t Hle) as [Hmz Hsnd].
    destruct (shl_align M ez t) as [mz e'] eqn:Es. cbn [fst snd] in Hmz, Hsnd. subst e'.
    assert (Hmz' : Zpos mz = Zpos M).
    { rewrite Hmz. replace (ez - t) with 0 by lia. lia. }
    destruct (binary_round_aux_spec false (Zpos mz) t loc_Exact ltac:(lia))
      as (m2 & Hm2 & ->).
    assert (Hn1 : Z.max 0 (fexp (Zdigits2 (Zpos mz) + t) - t) = 0).
    { rewrite Hmz', Htz. fold t. lia. }
    rewrite Hn1 in *. rewrite Z.pow_0_r, Z.div_1_r in Hm2. rewrite Z.add_0_r.
    apply second_shift; [lia..|].
    intros _. replace (ex - ez) with 0 in HM by lia. lia.
  - rewrite shl_align_ge by lia.
    destruct (binary_round_aux_spec false (Zpos M) ez loc_Exact ltac:(lia))
      as (m2 & Hm2 & ->).
    fold t in Hm2 |- *.
    assert (Hn1 : Z.max 0 (t - ez) = t - ez) by lia.
    rewrite Hn1 in *. replace (ez + (t - ez)) with t by lia.
    pose proof (pow2_pos (t - ez) ltac:(lia)) as Hp1.
    assert (Hm1 : 0 <= Zpos M / 2 ^ (t - ez)) by (apply Z.div_pos; lia).
    assert (Hpos : 0 < Zpos M / 2 ^ (t - ez) \/ t = ex).
    { destruct (Z.eq_dec t ex) as [|Hne]; [by right|left].
      assert (Ht' : t = Zdigits2 (Zpos M) + ez - 53) by (unfold t in *; rewrite fexp_eq in *; lia).
      pose proof (Zdigits2_bounds (Zpos M) ltac:(lia)) as [Hlo _].
      assert (Hpow : 2 ^ (Zdigits2 (Zpos M) - 1) = 2 ^ 52 * 2 ^ (t - ez)).
      { rewrite <- Z.pow_add_r by lia. f_equal. lia. }
      assert (2 ^ 52 <= Zpos M / 2 ^ (t - ez)).
      { apply Z.div_le_lower_bound; [done|]. rewrite Z.mul_comm. lia. }
      pose proof (pow2_pos 52 ltac:(lia)). lia. }
    assert (Heq : t = ex -> Zpos mx <= Zpos M / 2 ^ (t - ez)).
    { intros ->. apply Z.div_le_lower_bound; [done|]. rewrite Z.mul_comm. done. }
    apply second_shift; [lia..| |].
    + destruct Hpos as [?|Hx]; [lia|]. specialize (Heq Hx). lia.
    + intros Hx. specialize (Heq Hx). lia.
Qed.

Lemma SFleb_refl_finite mx ex :
  SFleb (S754_finite false mx ex) (S754_finite false mx ex) = true.
Proof. apply SFleb_rank. cbn. split; [done|split; [done|lia]]. Qed.

(** Adding a number that is not negative does not give less. *)
Lemma SFadd_le x y :
  valid_binary x = true -> sf_nonneg x = true -> sf_nonneg y = true ->
  SFleb x (SF64add x y) = true.
Proof.
  destruct x as [sx|[]| |[] mx ex], y as [sy|[]| |[] my ey]; try done.
  - intros _ _ _. by destruct sx, sy.
  - intros _ _ _. apply SFleb_refl_finite.
  - intros Hv _ _. unfold SF64add, SFadd. cbn [cond_Zopp].
    change (Zpos ?a + Zpos ?b) with (Zpos (a + b)). cbn [binary_normalize].
    pose proof (shl_align_spec mx ex (Z.min ex ey) ltac:(lia)) as [Ha _].
    apply binary_round_ge; [done|lia|]. rewrite Pos2Z.inj_add, <- Ha. lia.
Qed.

Lemma add_le (x y : float) :
  (0 <=? x)%float = true -> (0 <=? y)%float = true -> (x <=? x + y)%float = true.
Proof.
  rewrite !nonneg_spec, FloatAxioms.leb_spec, add_spec.
  apply SFadd_le, Prim2SF_valid.
Qed.

Lemma leb_trans (a b c : float) :
  (a <=? b)%float = true -> (b <=? c)%float = true -> (a <=? c)%float = true.
Proof.
  rewrite !leb_rank. intros (Ha & Hb & Hab) (_ & Hc & Hbc).
  split; [done|]. split; [done|].
  destruct (rank (Prim2SF a)) as [[? ?] ?], (rank (Prim2SF b)) as [[? ?] ?],
    (rank (Prim2SF c)) as [[? ?] ?].
  cbn in *. lia.
Qed.

Lemma leb_refl (a : float) : (0 <=? a)%float = true -> (a <=? a)%float = true.
Proof.
  intros Ha. apply leb_rank. pose proof (nonneg_not_nan a Ha).
  split; [done|]. split; [done|].
  destruct (rank (Prim2SF a)) as [[? ?] ?]. cbn. lia.
Qed.

End FloatMono.

(** ** The retrieval step: where its entries come from, when it fails *)
Module RetrievalFacts.

(** An entry that carries the id, the content, the timestamp and the tags
    of a row of table [logs]. *)
Definition from_row (r : Row) (e : RetrievedLog) : Prop :=
  rl_id e = row_id r /\ rl_content e = row_content r /\
  rl_timestamp e = row_timestamp r /\ rl_tags e = row_tags_json r.

Definition from_store (d : Db) (e : RetrievedLog) : Prop :=
  exists r, r ∈ logs d /\ from_row r e.

Lemma boost_from_store d id delta rs :
  Forall (from_store d) rs -> Forall (from_store d) (boost id delta rs).
Proof.
  induction 1 as [|r rs Hr Hrs IH]; simpl; [constructor|].
  destruct (String.eqb (rl_id r) id); constructor; try done.
Qed.

Lemma append_from_store d entry st :
  from_store d entry -> Forall (from_store d) (results st) ->
  Forall (from_store d) (results (acc_append entry st)).
Proof. intros He Hst. simpl. apply Forall_app. split; [done|by constructor]. Qed.

Lemma with_score_from_store d s row :
  row ∈ logs d -> from_store d (with_score s (row_to_log row)).
Proof. intros Hin. exists row. by repeat split. Qed.

Lemma order_by_timestamp_desc_elem_of row rows :
  row ∈ order_by_timestamp_desc rows <-> row ∈ rows.
Proof. apply sort_desc_elem_of. Qed.

Lemma get_logs_by_date_range_rows d a b date_logs :
  get_logs_by_date_range d a b = Ok date_logs ->
  Forall (fun l => exists row, row ∈ logs d /\ l = row_to_log row) date_logs.
Proof.
  unfold get_logs_by_date_range, with_db. destruct (db_fault _ _); [done|].
  intros [= <-]. apply Forall_forall. intros l (row & -> & Hrow)%elem_of_map.
  exists row. split; [|done]. apply (proj1 (order_by_timestamp_desc_elem_of _ _)) in Hrow.
  by apply list_elem_of_In, filter_In in Hrow as [Hrow%list_elem_of_In _].
Qed.

Lemma get_logs_by_tags_rows d names tag_logs :
  get_logs_by_tags d names = Ok tag_logs ->
  Forall (fun l => exists row, row ∈ logs d /\ l = row_to_log row) tag_logs.
Proof.
  unfold get_logs_by_tags, with_db. destruct (db_fault _ _); [done|].
  intros [= <-]. apply Forall_forall. intros l (row & -> & Hrow)%elem_of_map.
  exists row. split; [|done].
  apply list_elem_of_In, filter_In in Hrow as [Hrow%list_elem_of_In _].
  by apply (proj1 (order_by_timestamp_desc_elem_of _ _)) in Hrow.
Qed.

Lemma get_all_logs_rows d limit recent :
  get_all_logs d limit = Ok recent ->
  Forall (fun l => exists row, row ∈ logs d /\ l = row_to_log row) recent.
Proof.
  unfold get_all_logs, with_db. destruct (db_fault _ _); [done|].
  intros [= <-]. apply Forall_forall. intros l (row & -> & Hrow)%elem_of_map.
  exists row. split; [|done].
  apply order_by_timestamp_desc_elem_of.
  eapply elem_of_sublist; [done|]. apply DatabaseFacts.sql_limit_sublist.
Qed.

Lemma get_log_embeddings_rows d embs :
  get_log_embeddings d = Ok embs ->
  Forall (fun e => forall s, from_store d (from_embedding s e)) embs.
Proof.
  unfold get_log_embeddings, with_db. destruct (db_fault _ _); [done|].
  intros [= <-]. apply Forall_forall. intros e (p & -> & Hp)%elem_of_map s.
  apply (proj1 (sort_desc_elem_of (fun p => row_timestamp (fst p)) Z.ltb _ _)) in Hp.
  apply list_elem_of_In, in_flat_map in Hp as (row & Hrow & Hp).
  unfold join_embeddings in Hp. apply in_map_iff in Hp as (er & <- & Her).
  apply filter_In in Her as [_ Heq%String.eqb_eq].
  exists row. split; [by apply list_elem_of_In|]. by repeat split.
Qed.

Lemma fold_rows_from_store d (step : Acc -> Log -> Acc) ls st :
  (forall st row, row ∈ logs d -> Forall (from_store d) (results st) ->
     Forall (from_store d) (results (step st (row_to_log row)))) ->
  Forall (fun l => exists row, row ∈ logs d /\ l = row_to_log row) ls ->
  Forall (from_store d) (results st) ->
  Forall (from_store d) (results (fold_left step ls st)).
Proof.
  intros Hstep Hls. revert st. induction Hls as [|l ls (row & Hrow & ->) Hls IH];
    intros st Hst; simpl; [done|].
  apply IH. by apply Hstep.
Qed.

Lemma run_channels_from_store env query intent st :
  run_channels env query intent = Ok st ->
  Forall (from_store (db env)) (results st).
Proof.
  unfold run_channels.
  assert (H1 : Forall (from_store (db env))
                 (results (date_channel env intent acc_empty))).
  { unfold date_channel. destruct (date_range intent) as [range|]; [|constructor].
    destruct (date_query env range) as [date_logs|] eqn:E; [|constructor].
    unfold date_query in E.
    destruct (strptime env (fst range)); simpl in E; [|done].
    destruct (strptime env (snd range)); simpl in E; [|done].
    apply get_logs_by_date_range_rows in E.
    apply (fold_rows_from_store (db env)); [|done|constructor].
    intros st0 row Hrow Hst0. unfold date_step. case_bool_decide; [done|].
    apply append_from_store; [by apply with_score_from_store|done]. }
  destruct (tag_channel _ _ _) as [st2|] eqn:E; simpl; [|done]. intros [= <-].
  assert (H2 : Forall (from_store (db env)) (results st2)).
  { unfold tag_channel in E. destruct (tags intent); [by injection E as <-|].
    destruct (get_logs_by_tags _ _) as [tag_logs|] eqn:Et; simpl in E; [|done].
    injection E as <-. apply get_logs_by_tags_rows in Et.
    apply (fold_rows_from_store (db env)); [|done..].
    intros st0 row Hrow Hst0. unfold tag_step. case_bool_decide.
    - by apply boost_from_store.
    - apply append_from_store; [by apply with_score_from_store|done]. }
  unfold semantic_channel. destruct (default true _); [|done].
  destruct (compute_embedding _ _) as [q|]; [|done].
  destruct (get_log_embeddings _) as [embs|] eqn:Ee; [|done].
  apply get_log_embeddings_rows in Ee. clear E H1.
  revert st2 H2. induction Ee as [|e embs He Hembs IH]; intros st2 H2; simpl; [done|].
  destruct (cosine_similarity _ _) as [sim|]; [|done]. apply IH.
  unfold semantic_step. destruct (0.3 <? sim)%float; [|done].
  case_bool_decide; [by apply boost_from_store|by apply append_from_store].
Qed.


(** X1.  What [_retrieve_logs] returns was read from table [logs]: every
    entry carries the id, the content, the timestamp and the tags of one of
    its rows. An embedding whose log is gone is never returned. *)
Theorem retrieve_logs_from_store (env : Env) (query : string) (intent : Intent)
  (out : list RetrievedLog) :
  _retrieve_logs env query intent = Ok out ->
  forall e, e ∈ out ->
    exists r, r ∈ logs (db env) /\
      rl_id e = row_id r /\ rl_content e = row_content r /\
      rl_timestamp e = row_timestamp r /\ rl_tags e = row_tags_json r.
Proof.
  unfold _retrieve_logs, accumulated.
  destruct (run_channels env query intent) as [st|] eqn:Hrun; simpl; [|done].
  pose proof (run_channels_from_store _ _ _ _ Hrun) as Hst.
  destruct (fallback env (results st)) as [acc|] eqn:Hfb; simpl; [|done].
  intros [= <-] e He.
  assert (He' : e ∈ acc).
  { apply (sort_desc_elem_of retrieval_score PrimFloat.ltb).
    eapply elem_of_sublist; [done|apply sublist_take]. }
  unfold fallback in Hfb. destruct (results st) as [|r rs] eqn:Hres.
  - destruct (get_all_logs _ _) as [recent|] eqn:Hrecent; simpl in Hfb; [|done].
    injection Hfb as <-. apply elem_of_map in He' as (l & -> & Hl).
    apply get_all_logs_rows in Hrecent. rewrite Forall_forall in Hrecent.
    destruct (Hrecent _ Hl) as (row & Hrow & ->). by exists row.
  - injection Hfb as <-. rewrite Forall_forall in Hst. by apply Hst.
Qed.

Lemma retrieve_logs_from_store_witness :
  _retrieve_logs Scenario.the_env Scenario.the_query Scenario.the_intent
  = Ok Scenario.the_result /\
  forall e, e ∈ Scenario.the_result ->
    exists r, r ∈ logs (db Scenario.the_env) /\
      rl_id e = row_id r /\ rl_content e = row_content r /\
      rl_timestamp e = row_timestamp r /\ rl_tags e = row_tags_json r.
Proof.
  assert (H : _retrieve_logs Scenario.the_env Scenario.the_query
                Scenario.the_intent = Ok Scenario.the_result)
    by (vm_compute; reflexivity).
  exact (conj H (retrieve_logs_from_store _ _ _ _ H)).
Defined.

(** X2.  [_retrieve_logs] fails with the error of the store in two cases
    and no other: the tag channel runs and its query fails, or the three
    channels leave [results] empty and the query of the fallback fails.  A
    failure of the date query or of the embedding table never comes out of
    the step as that error. *)
Theorem retrieve_logs_failure_cases (env : Env) (query : string) (intent : Intent) :
  _retrieve_logs env query intent = Raise OperationalError <->
  (tags intent <> [] /\ db_fault (db env) OpByTags = true) \/
  (exists st, run_channels env query intent = Ok st /\ results st = [] /\
              db_fault (db env) OpAllLogs = true).
Proof.
  unfold _retrieve_logs, accumulated, run_channels, tag_channel.
  destruct (tags intent) as [|t ts] eqn:Ht; simpl.
  - set (st := semantic_channel _ _ _ _).
    unfold fallback. destruct (results st) as [|r rs] eqn:Hres; simpl.
    + unfold get_all_logs, with_db. destruct (db_fault (db env) OpAllLogs) eqn:Hf; simpl.
      * split; [|done]. intros _. right. by exists st.
      * split; [done|]. intros [[? _]|(? & _ & _ & ?)]; done.
    + split; [done|].
      intros [[? _]|(st' & [= <-] & Hnil & _)]; [done|congruence].
  - unfold get_logs_by_tags, with_db.
    destruct (db_fault (db env) OpByTags) eqn:Hf; simpl.
    + split; [|done]. intros _. by left.
    + set (st := semantic_channel _ _ _ _).
      unfold fallback. destruct (results st) as [|r rs] eqn:Hres; simpl.
      * unfold get_all_logs, with_db.
        destruct (db_fault (db env) OpAllLogs) eqn:Hf'; simpl.
        -- split; [|done]. intros _. right. by exists st.
        -- split; [done|]. intros [[_ ?]|(? & _ & _ & ?)]; done.
      * split; [done|].
        intros [[_ ?]|(st' & [= <-] & Hnil & _)]; [done|congruence].
Qed.

(** X3.  The semantic loop stops at the first stored embedding whose
    dimension is not that of the query: the rows before it are credited, the
    rows after it are not looked at, whatever their similarity. *)
Theorem semantic_loop_stops_at_mismatch (q : list float)
  (before : list LogEmbedding) (odd : LogEmbedding) (after : list LogEmbedding)
  (st : Acc) :
  Forall (fun e => length (le_embedding e) = length q) before ->
  length (le_embedding odd) <> length q ->
  semantic_loop q (before ++ odd :: after) st = semantic_loop q before st /\
  semantic_loop q before st
  = fold_left (fun s p => semantic_step (snd p) (fst p) s) (similarities q before) st /\
  map fst (similarities q before) = before.
Proof.
  intros Hbefore Hodd. split; [|split].
  - revert st. induction Hbefore as [|e before He Hb IH]; intros st; simpl.
    + unfold cosine_similarity, np_dot.
      replace (length q =? length (le_embedding odd))%nat with false; [done|].
      symmetry. apply Nat.eqb_neq. congruence.
    + destruct (cosine_similarity q (le_embedding e)); [apply IH|done].
  - clear Hbefore. revert st. induction before as [|e before IH]; intros st; simpl; [done|].
    destruct (cosine_similarity q (le_embedding e)); simpl; [apply IH|done].
  - by apply similarities_all.
Qed.

Lemma semantic_loop_stops_at_mismatch_witness :
  Forall (fun e => length (le_embedding e) = length [1; 0]%float) [Examples.emb_first] /\
  length (le_embedding Examples.emb_odd) <> length [1; 0]%float /\
  semantic_loop [1; 0]%float ([Examples.emb_first] ++ Examples.emb_odd :: [Examples.emb_last])
    acc_empty
  = semantic_loop [1; 0]%float [Examples.emb_first] acc_empty.
Proof.
  assert (H1 : Forall (fun e => length (le_embedding e) = length [1; 0]%float)
                 [Examples.emb_first]) by (repeat constructor).
  assert (H2 : length (le_embedding Examples.emb_odd) <> length [1; 0]%float)
    by (simpl; lia).
  exact (conj H1 (conj H2 (proj1 (semantic_loop_stops_at_mismatch _ _ _
                                    [Examples.emb_last] acc_empty H1 H2)))).
Defined.


Lemma fuse_from_is_Some s deltas : is_Some (fuse_from (Some s) deltas).
Proof.
  revert s. induction deltas as [|d ds IH]; intros s; simpl; [done|]. apply IH.
Qed.

Lemma fuse_None deltas : fuse deltas = None <-> deltas = [].
Proof.
  split; [|by intros ->]. destruct deltas as [|d ds]; [done|].
  unfold fuse. simpl. intros H.
  pose proof (fuse_from_is_Some d ds) as [x Hx]. unfold add_delta in H. congruence.
Qed.

Lemma app3_not_nil {A} (l1 l2 l3 : list A) :
  l1 ++ l2 ++ l3 <> [] <-> l1 <> [] \/ l2 <> [] \/ l3 <> [].
Proof.
  destruct l1 as [|a l1]; [|split; [by left|done]].
  destruct l2 as [|b l2]; [|split; [right; by left|done]].
  simpl. split; [intros ?; right; by right|]. by intros [?|[?|?]].
Qed.

(** X4.  Before the cut, the accumulated list holds exactly the ids that a
    channel credited: those the date query returned, those the tag query
    returned, and those of a tuple the semantic loop reached with a
    similarity above 0.3. *)
Theorem results_iff_credited (env : Env) (query : string) (intent : Intent)
  (st : Acc) (id : string) :
  run_channels env query intent = Ok st ->
  (id ∈ map rl_id (results st) <->
   (exists range date_logs,
      date_range intent = Some range /\ date_query env range = Ok date_logs /\
      id ∈ map log_id date_logs) \/
   (exists tag_logs,
      tags intent <> [] /\ get_logs_by_tags (db env) (tags intent) = Ok tag_logs /\
      id ∈ map log_id tag_logs) \/
   (exists e sim,
      (e, sim) ∈ semantic_scan env query intent /\ le_id e = id /\
      (0.3 <? sim)%float = true)).
Proof.
  intros Hrun. pose proof (score_fusion env query intent st id Hrun) as Hscore.
  fold (ids (results st)).
  assert (Hin : id ∈ ids (results st) <->
    date_deltas env intent id ++ tag_deltas env intent id
      ++ semantic_deltas env query intent id <> []).
  { rewrite <- fuse_None, <- Hscore, score_of_None.
    split; [by intros ? ?|]. intros Hnn. by apply dec_stable. }
  rewrite Hin. clear Hin Hscore Hrun.
  assert (Hd : date_deltas env intent id <> [] <->
    exists range date_logs,
      date_range intent = Some range /\ date_query env range = Ok date_logs /\
      id ∈ map log_id date_logs).
  { unfold date_deltas. destruct (date_range intent) as [range|].
    - destruct (date_query env range) as [date_logs|] eqn:Eq.
      + destruct (existsb _ date_logs) eqn:E.
        * split; [intros _|done]. exists range, date_logs.
          apply existsb_exists in E as (l & Hl & <-%String.eqb_eq).
          split; [done|]. split; [done|]. apply elem_of_map. exists l.
          split; [done|by apply list_elem_of_In].
        * split; [done|]. intros (range' & logs' & [= <-] & Hq & Hin).
          rewrite Eq in Hq. injection Hq as <-.
          apply elem_of_map in Hin as (l & -> & Hl).
          assert (existsb (fun l0 => String.eqb (log_id l0) (log_id l)) date_logs = true);
            [|congruence].
          apply existsb_exists. exists l.
          split; [by apply list_elem_of_In|apply String.eqb_refl].
      + split; [done|]. intros (range' & ? & [= <-] & Hq & _). congruence.
    - split; [done|]. by intros (? & ? & ? & _). }
  assert (Ht : tag_deltas env intent id <> [] <->
    exists tag_logs,
      tags intent <> [] /\ get_logs_by_tags (db env) (tags intent) = Ok tag_logs /\
      id ∈ map log_id tag_logs).
  { unfold tag_deltas. destruct (tags intent) as [|t ts] eqn:Etags.
    - split; [done|]. by intros (? & ? & _).
    - destruct (get_logs_by_tags _ _) as [tag_logs|] eqn:Eq.
      + split.
        * intros Hne. exists tag_logs. split; [done|]. split; [done|].
          destruct (List.filter _ tag_logs) as [|l ls] eqn:Ef; [done|].
          assert (Hl : In l (List.filter (fun l => String.eqb (log_id l) id) tag_logs))
            by (rewrite Ef; by left).
          apply filter_In in Hl as [Hl <-%String.eqb_eq].
          apply elem_of_map. exists l. split; [done|by apply list_elem_of_In].
        * intros (logs' & _ & [= <-] & Hin). apply elem_of_map in Hin as (l & -> & Hl).
          assert (Hf : In l (List.filter (fun l0 => String.eqb (log_id l0) (log_id l)) tag_logs)).
          { apply filter_In. split; [by apply list_elem_of_In|apply String.eqb_refl]. }
          by destruct (List.filter _ tag_logs).
      + split; [done|]. by intros (? & _ & ? & _). }
  assert (Hs : semantic_deltas env query intent id <> [] <->
    exists e sim,
      (e, sim) ∈ semantic_scan env query intent /\ le_id e = id /\
      (0.3 <? sim)%float = true).
  { unfold semantic_deltas, semantic_hits. split.
    - intros Hne.
      destruct (List.filter (fun p => String.eqb (le_id (fst p)) id) _)
        as [|[e sim] ps] eqn:Ef; [done|].
      assert (Hp : In (e, sim)
                (List.filter (fun p => String.eqb (le_id (fst p)) id)
                   (List.filter (fun p => (0.3 <? snd p)%float)
                      (semantic_scan env query intent))))
        by (rewrite Ef; by left).
      apply filter_In in Hp as [Hp Hid%String.eqb_eq].
      apply filter_In in Hp as [Hp Hsim]. exists e, sim.
      split; [by apply list_elem_of_In|done].
    - intros (e & sim & Hin & Hid & Hsim).
      assert (Hp : In (e, sim)
                (List.filter (fun p => String.eqb (le_id (fst p)) id)
                   (List.filter (fun p => (0.3 <? snd p)%float)
                      (semantic_scan env query intent)))).
      { apply filter_In. split; [|by apply String.eqb_eq].
        apply filter_In. split; [by apply list_elem_of_In|done]. }
      by destruct (List.filter (fun p => String.eqb (le_id (fst p)) id) _). }
  rewrite <- Hd, <- Ht, <- Hs. apply app3_not_nil.
Qed.

Lemma results_iff_credited_witness :
  exists st,
    run_channels Scenario.the_env Scenario.the_query Scenario.the_intent = Ok st /\
    ("C" ∈ map rl_id (results st) <->
     (exists range date_logs,
        date_range Scenario.the_intent = Some range /\
        date_query Scenario.the_env range = Ok date_logs /\
        "C" ∈ map log_id date_logs) \/
     (exists tag_logs,
        tags Scenario.the_intent <> [] /\
        get_logs_by_tags (db Scenario.the_env) (tags Scenario.the_intent) = Ok tag_logs /\
        "C" ∈ map log_id tag_logs) \/
     (exists e sim,
        (e, sim) ∈ semantic_scan Scenario.the_env Scenario.the_query Scenario.the_intent /\
        le_id e = "C" /\ (0.3 <? sim)%float = true)).
Proof.
  destruct (run_channels Scenario.the_env Scenario.the_query Scenario.the_intent)
    as [st|e] eqn:H.
  - exists st. split; [reflexivity|]. exact (results_iff_credited _ _ _ st "C" H).
  - exfalso. vm_compute in H. discriminate H.
Defined.

(** The environment with another embedding service, another embedding
    table and another state of the embedding query. *)
Definition with_embedding_side (env : Env)
  (service : string -> result (list float)) (table : list EmbeddingRow)
  (fault : bool) : Env :=
  {| db := {| logs := logs (db env);
              log_embeddings := table;
              db_fault := fun op =>
                match op with OpEmbeddings => fault | _ => db_fault (db env) op end |};
     compute_embedding := service;
     strptime := strptime env;
     timestamp_ms := timestamp_ms env |}.

(** X5.  When the intent says [needs_rag: false], the retrieval step asks
    neither the embedding service nor the embedding table: its result is the
    same whatever they hold and whether or not they fail. *)
Theorem retrieve_logs_without_rag (env : Env) (query : string) (intent : Intent)
  (service : string -> result (list float)) (table : list EmbeddingRow)
  (fault : bool) :
  needs_rag intent = Some false ->
  _retrieve_logs (with_embedding_side env service table fault) query intent
  = _retrieve_logs env query intent.
Proof.
  intros Hrag.
  unfold _retrieve_logs, accumulated, run_channels, semantic_channel.
  rewrite Hrag. reflexivity.
Qed.

Lemma retrieve_logs_without_rag_witness :
  needs_rag Scenario.bare_intent = Some false /\
  _retrieve_logs
    (with_embedding_side Scenario.the_env (fun _ => Raise RuntimeError) [] true)
    Scenario.the_query Scenario.bare_intent
  = _retrieve_logs Scenario.the_env Scenario.the_query Scenario.bare_intent.
Proof.
  assert (H : needs_rag Scenario.bare_intent = Some false) by reflexivity.
  exact (conj H (retrieve_logs_without_rag Scenario.the_env Scenario.the_query
                   Scenario.bare_intent (fun _ => Raise RuntimeError) [] true H)).
Defined.

Lemma fuse_from_le s deltas :
  score_ok s -> Forall score_ok deltas ->
  exists s', fuse_from (Some s) deltas = Some s' /\ (s <=? s')%float = true.
Proof.
  intros Hs Hd. revert s Hs. induction Hd as [|d ds Hd Hds IH]; intros s Hs; simpl.
  - exists s. split; [done|]. by apply FloatMono.leb_refl.
  - destruct (IH (s + d)%float) as (s' & Heq & Hle).
    { by apply FloatArith.add_nonneg. }
    exists s'. split; [done|].
    eapply FloatMono.leb_trans; [|done]. by apply FloatMono.add_le.
Qed.

(** X6.  Evidence only adds up: the score an id has after the date channel
    is not lowered by the tag channel, and the score it has after the tag
    channel is not lowered by the semantic channel. *)
Theorem scores_never_decrease (env : Env) (query : string) (intent : Intent)
  (st2 : Acc) (id : string) :
  tag_channel env intent (date_channel env intent acc_empty) = Ok st2 ->
  (forall s1, score_of id (results (date_channel env intent acc_empty)) = Some s1 ->
     exists s2, score_of id (results st2) = Some s2 /\ (s1 <=? s2)%float = true) /\
  (forall s2, score_of id (results st2) = Some s2 ->
     exists s3, score_of id (results (semantic_channel env query intent st2)) = Some s3
                /\ (s2 <=? s3)%float = true).
Proof.
  intros Htag.
  pose proof (date_channel_inv env intent _ acc_inv_empty) as H1.
  pose proof (tag_channel_inv _ _ _ _ H1 Htag) as H2.
  split.
  - intros s1 Hs1. rewrite (tag_channel_score _ _ _ _ _ H1 Htag), Hs1.
    apply fuse_from_le; [|apply tag_deltas_ok].
    apply score_of_Some in Hs1 as (r & Hr & _ & <-).
    destruct H1 as [_ _ Hsc]. rewrite Forall_forall in Hsc. by apply Hsc.
  - intros s2 Hs2. rewrite semantic_channel_score by done. rewrite Hs2.
    apply fuse_from_le; [|apply semantic_deltas_ok].
    apply score_of_Some in Hs2 as (r & Hr & _ & <-).
    destruct H2 as [_ _ Hsc]. rewrite Forall_forall in Hsc. by apply Hsc.
Qed.

Lemma scores_never_decrease_witness :
  exists st2,
    tag_channel Scenario.the_env Scenario.the_intent
      (date_channel Scenario.the_env Scenario.the_intent acc_empty) = Ok st2 /\
    (forall s1,
       score_of "A" (results (date_channel Scenario.the_env Scenario.the_intent acc_empty))
       = Some s1 ->
       exists s2, score_of "A" (results st2) = Some s2 /\ (s1 <=? s2)%float = true) /\
    (forall s2, score_of "A" (results st2) = Some s2 ->
       exists s3,
         score_of "A" (results (semantic_channel Scenario.the_env Scenario.the_query
                                  Scenario.the_intent st2)) = Some s3
         /\ (s2 <=? s3)%float = true).
Proof.
  destruct (tag_channel Scenario.the_env Scenario.the_intent
              (date_channel Scenario.the_env Scenario.the_intent acc_empty))
    as [st2|e] eqn:H.
  - exists st2. split; [reflexivity|].
    exact (scores_never_decrease Scenario.the_env Scenario.the_query
             Scenario.the_intent st2 "A" H).
  - exfalso. vm_compute in H. discriminate H.
Defined.

End RetrievalFacts.

(** ** The store accessors: what each query returns *)
Module StoreFacts.
Import Database.

Lemma order_by_filter (p : Row -> bool) rows :
  order_by_timestamp_desc (List.filter p rows)
  = List.filter p (order_by_timestamp_desc rows).
Proof.
  symmetry. apply (sort_desc_filter row_timestamp Z.ltb (fun _ => True)
                     DatabaseFacts.Z_ltb_asym DatabaseFacts.Z_ltb_ntrans).
  by apply Forall_true.
Qed.

Lemma sublist_filter {A} (p : A -> bool) (l : list A) : List.filter p l `sublist_of` l.
Proof.
  induction l as [|x l IH]; simpl; [done|].
  destruct (p x); [by apply sublist_skip|by apply sublist_cons].
Qed.

Lemma sublist_map {A B} (f : A -> B) (l1 l2 : list A) :
  l1 `sublist_of` l2 -> map f l1 `sublist_of` map f l2.
Proof. induction 1; simpl; [done|by apply sublist_skip|by apply sublist_cons]. Qed.

(** X7.  [get_logs_by_date_range]: the result holds each row of the range
    once, both bounds included, most recent first; a range whose end lies
    before its start gives nothing. *)
Theorem date_range_query_result (d : Db) (start_ts end_ts : Z)
  (date_logs : list Log) :
  get_logs_by_date_range d start_ts end_ts = Ok date_logs ->
  Permutation date_logs
    (map row_to_log
       (List.filter (fun r => bool_decide (start_ts <= row_timestamp r <= end_ts)%Z)
          (logs d))) /\
  StronglySorted (fun a b => (log_timestamp b <= log_timestamp a)%Z) date_logs /\
  ((end_ts < start_ts)%Z -> date_logs = []).
Proof.
  unfold get_logs_by_date_range, with_db. destruct (db_fault _ _); [done|].
  intros [= <-].
  assert (Hext : List.filter (in_range start_ts end_ts) (logs d)
    = List.filter (fun r => bool_decide (start_ts <= row_timestamp r <= end_ts)%Z) (logs d)).
  { apply filter_ext. intros r. unfold in_range. case_bool_decide; lia. }
  split; [|split].
  - rewrite <- Hext. apply Permutation_map, DatabaseFacts.order_by_timestamp_desc_perm.
  - apply StronglySorted_map. simpl.
    apply DatabaseFacts.order_by_timestamp_desc_sorted.
  - intros Hlt. replace (List.filter _ (logs d)) with (@nil Row); [done|].
    symmetry. clear Hext. induction (logs d) as [|r rs IH]; simpl; [done|].
    unfold in_range at 1. replace (_ && _) with false by lia. done.
Qed.

Lemma date_range_query_result_witness :
  exists date_logs,
    get_logs_by_date_range Scenario.the_db 1685000000000 1704200000000 = Ok date_logs /\
    map log_id date_logs = ["A"; "B"] /\
    Permutation date_logs
      (map row_to_log
         (List.filter
            (fun r => bool_decide (1685000000000 <= row_timestamp r <= 1704200000000)%Z)
            (logs Scenario.the_db))) /\
    StronglySorted (fun a b => (log_timestamp b <= log_timestamp a)%Z) date_logs /\
    ((1704200000000 < 1685000000000)%Z -> date_logs = []).
Proof.
  destruct (get_logs_by_date_range Scenario.the_db 1685000000000 1704200000000)
    as [date_logs|e] eqn:H.
  - exists date_logs. split; [reflexivity|].
    split; [by vm_compute in H; injection H as <-|].
    exact (date_range_query_result _ _ _ _ H).
  - exfalso. vm_compute in H. discriminate H.
Defined.

(** X8.  [get_all_logs(limit)]: the [limit] most recent logs, most recent
    first; all of them when there are fewer, none for a limit of 0, and all
    of them for a negative limit, which SQLite reads as no limit. *)
Theorem get_all_logs_limit (d : Db) (limit : Z) (recent : list Log) :
  get_all_logs d limit = Ok recent ->
  exists older,
    Permutation (map row_to_log (logs d)) (recent ++ older) /\
    length recent
    = (if (limit <? 0)%Z then length (logs d)
       else Nat.min (Z.to_nat limit) (length (logs d))) /\
    StronglySorted (fun a b => (log_timestamp b <= log_timestamp a)%Z) recent /\
    (forall a b, a ∈ recent -> b ∈ older -> (log_timestamp b <= log_timestamp a)%Z).
Proof.
  unfold get_all_logs, with_db. destruct (db_fault _ _); [done|]. intros [= <-].
  set (sorted := order_by_timestamp_desc (logs d)).
  pose proof (DatabaseFacts.order_by_timestamp_desc_sorted (logs d)) as Hsorted.
  pose proof (DatabaseFacts.order_by_timestamp_desc_perm (logs d)) as Hperm.
  fold sorted in Hsorted, Hperm.
  assert (Hlen : length sorted = length (logs d)) by by apply Permutation_length.
  unfold sql_limit. destruct (limit <? 0)%Z.
  - exists []. rewrite app_nil_r, length_map.
    split; [by apply Permutation_map|]. split; [done|].
    split; [by apply StronglySorted_map|]. by intros a b _ ?%not_elem_of_nil.
  - exists (map row_to_log (skipn (Z.to_nat limit) sorted)).
    split; [|split; [|split]].
    + rewrite <- map_app, firstn_skipn. by apply Permutation_map.
    + by rewrite length_map, length_take, Hlen.
    + apply StronglySorted_map. simpl. by apply StronglySorted_firstn.
    + intros a b (ra & -> & Ha)%elem_of_map (rb & -> & Hb)%elem_of_map. simpl.
      rewrite <- (firstn_skipn (Z.to_nat limit) sorted) in Hsorted.
      by eapply StronglySorted_app_1_elem_of in Hsorted.
Qed.

Lemma get_all_logs_limit_witness :
  exists recent,
    get_all_logs Scenario.the_db 2 = Ok recent /\
    map log_id recent = ["A"; "B"] /\
    exists older,
      Permutation (map row_to_log (logs Scenario.the_db)) (recent ++ older) /\
      length recent
      = (if (2 <? 0)%Z then length (logs Scenario.the_db)
         else Nat.min (Z.to_nat 2) (length (logs Scenario.the_db))) /\
      StronglySorted (fun a b => (log_timestamp b <= log_timestamp a)%Z) recent /\
      (forall a b, a ∈ recent -> b ∈ older -> (log_timestamp b <= log_timestamp a)%Z).
Proof.
  destruct (get_all_logs Scenario.the_db 2) as [recent|e] eqn:H.
  - exists recent. split; [reflexivity|].
    split; [by vm_compute in H; injection H as <-|].
    exact (get_all_logs_limit _ _ _ H).
  - exfalso. vm_compute in H. discriminate H.
Defined.

Lemma str_in_spec t l : str_in t l = true <-> t ∈ l.
Proof.
  unfold str_in. rewrite existsb_exists. split.
  - intros (x & Hx & ->%String.eqb_eq). by apply list_elem_of_In.
  - intros Hin. exists t. split; [by apply list_elem_of_In|apply String.eqb_refl].
Qed.

Lemma tags_match_mono names names' r :
  names ⊆ names' -> tags_match names r = true -> tags_match names' r = true.
Proof.
  intros Hsub. unfold tags_match. rewrite !existsb_exists.
  intros (t & Ht & Hin). exists t. split; [done|].
  apply str_in_spec. apply Hsub. by apply str_in_spec.
Qed.

(** X9.  [get_logs_by_tags] returns rows of table [logs] with their columns,
    most recent first and none more often than the table holds it, however
    many of its tags match.  No name gives no log; more names never lose a
    log; and names written in ASCII that differ from the requested ones,
    written in ASCII too, in the case of their letters only give the same
    result. *)
Theorem get_logs_by_tags_result (d : Db) (tag_names : list string)
  (tag_logs : list Log) :
  get_logs_by_tags d tag_names = Ok tag_logs ->
  (exists sorted rows : list Row,
     Permutation sorted (logs d) /\
     StronglySorted (fun a b => (row_timestamp b <= row_timestamp a)%Z) sorted /\
     rows `sublist_of` sorted /\
     tag_logs = map (fun r => {| log_id := row_id r;
                                 log_content := row_content r;
                                 log_timestamp := row_timestamp r;
                                 log_tags := row_tags_json r;
                                 log_source := row_source r;
                                 log_summary := row_summary r |}) rows) /\
  (tag_names = [] -> tag_logs = []) /\
  (forall more larger,
     get_logs_by_tags d (tag_names ++ more) = Ok larger ->
     forall l, l ∈ tag_logs -> l ∈ larger) /\
  (forall names',
     Forall DatabaseFacts.all_ascii tag_names ->
     Forall DatabaseFacts.all_ascii names' ->
     Forall2 DatabaseFacts.eq_ignore_case tag_names names' ->
     get_logs_by_tags d names' = Ok tag_logs).
Proof.
  unfold get_logs_by_tags, with_db. destruct (db_fault _ _); [done|].
  intros [= <-]. cbv zeta.
  split; [|split; [|split]].
  - exists (order_by_timestamp_desc (logs d)),
      (List.filter (tags_match (map lower tag_names)) (order_by_timestamp_desc (logs d))).
    split; [apply DatabaseFacts.order_by_timestamp_desc_perm|].
    split; [apply DatabaseFacts.order_by_timestamp_desc_sorted|].
    split; [apply sublist_filter|done].
  - intros ->. simpl. replace (List.filter _ _) with (@nil Row); [done|].
    symmetry. induction (order_by_timestamp_desc (logs d)) as [|r rs IH]; simpl; [done|].
    replace (tags_match [] r) with false; [done|]. symmetry.
    unfold tags_match. induction (map _ (row_tags_json r)) as [|t ts IHt]; done.
  - intros more larger [= <-] l (row & -> & Hrow)%elem_of_map.
    apply elem_of_map. exists row. split; [done|].
    apply list_elem_of_In, filter_In in Hrow as [Hrow Hm].
    apply list_elem_of_In, filter_In. split; [done|].
    apply (tags_match_mono (map lower tag_names)); [|done].
    rewrite map_app. intros x Hx. apply elem_of_app. by left.
  - intros names' Ha Hb Hnames.
    by rewrite (DatabaseFacts.map_lower_ignore_case _ _ Ha Hb Hnames).
Qed.

Lemma get_logs_by_tags_result_witness :
  get_logs_by_tags Scenario.the_db ["PYTHON"]
  = Ok [mkLog "A" "fixed the login page" 1704200000000 [Scenario.tag_python]
          "manual" None] /\
  Forall2 DatabaseFacts.eq_ignore_case ["PYTHON"] ["Python"] /\
  get_logs_by_tags Scenario.the_db ["Python"]
  = Ok [mkLog "A" "fixed the login page" 1704200000000 [Scenario.tag_python]
          "manual" None].
Proof.
  assert (H : get_logs_by_tags Scenario.the_db ["PYTHON"]
              = Ok [mkLog "A" "fixed the login page" 1704200000000
                      [Scenario.tag_python] "manual" None])
    by (vm_compute; reflexivity).
  assert (Ha : Forall DatabaseFacts.all_ascii ["PYTHON"])
    by (repeat constructor; apply Nat.ltb_lt; reflexivity).
  assert (Hb : Forall DatabaseFacts.all_ascii ["Python"])
    by (repeat constructor; apply Nat.ltb_lt; reflexivity).
  assert (Hn : Forall2 DatabaseFacts.eq_ignore_case ["PYTHON"] ["Python"]).
  { constructor; [|constructor].
    apply DatabaseFacts.fold_case_eq. vm_compute. reflexivity. }
  exact (conj H (conj Hn
           (proj2 (proj2 (proj2 (get_logs_by_tags_result _ _ _ H))) _ Ha Hb Hn))).
Defined.

Lemma filter_map_comm {A B} (f : A -> B) (p : B -> bool) (l : list A) :
  map f (List.filter (fun x => p (f x)) l) = List.filter p (map f l).
Proof.
  induction l as [|x l IH]; simpl; [done|]. destruct (p (f x)); simpl; by rewrite IH.
Qed.

Lemma filter_disjoint_app {A} (p q : A -> bool) (l : list A) :
  (forall x, p x = true -> q x = false) ->
  Permutation (List.filter p l ++ List.filter q l) (List.filter (fun x => p x || q x) l).
Proof.
  intros Hpq. induction l as [|x l IH]; simpl; [done|].
  destruct (p x) eqn:Ep; simpl.
  - rewrite (Hpq x Ep). by constructor.
  - destruct (q x); simpl; [|done].
    rewrite <- Permutation_middle. by constructor.
Qed.

Lemma joined_ids (table : list EmbeddingRow) (rows : list Row) :
  NoDup (map row_id rows) ->
  Permutation
    (map (fun p => er_log_id (snd p)) (flat_map (join_embeddings table) rows))
    (List.filter (fun id => bool_decide (id ∈ map row_id rows)) (map er_log_id table)).
Proof.
  induction rows as [|r rows IH]; intros Hnd; cbn [flat_map map].
  - induction (map er_log_id table) as [|x l IHl]; cbn [List.filter]; [done|].
    rewrite bool_decide_eq_false_2; [done|apply not_elem_of_nil].
  - apply NoDup_cons in Hnd as [Hr Hnd]. rewrite map_app, IH by done.
    unfold join_embeddings. rewrite map_map. cbn [snd].
    rewrite (filter_map_comm er_log_id (fun id => String.eqb id (row_id r))).
    rewrite filter_disjoint_app.
    + erewrite filter_ext; [done|]. intros id. cbv beta.
      destruct (String.eqb_spec id (row_id r)) as [->|Hne].
      * symmetry. apply bool_decide_eq_true_2. constructor.
      * cbn [orb]. apply bool_decide_ext. rewrite elem_of_cons. tauto.
    + intros id ->%String.eqb_eq. by apply bool_decide_eq_false_2.
Qed.

(** X10.  [get_log_embeddings] is an inner join: it returns one entry for
    each pair of a stored embedding and a log with the id the embedding
    names, with the content, the timestamp and the tags of that log, ordered
    by the timestamp of the log, most recent first. An embedding without its
    log gives no entry. *)
Theorem get_log_embeddings_join (d : Db) (embs : list LogEmbedding) :
  get_log_embeddings d = Ok embs ->
  (forall e, e ∈ embs <->
     exists row er, row ∈ logs d /\ er ∈ log_embeddings d /\
       er_log_id er = row_id row /\
       e = mkLogEmbedding (er_log_id er) (er_embedding er) (row_content row)
             (row_timestamp row) (row_tags_json row)) /\
  StronglySorted (fun a b => (le_timestamp b <= le_timestamp a)%Z) embs /\
  (NoDup (map row_id (logs d)) ->
   Permutation (map le_id embs)
     (List.filter (fun id => bool_decide (id ∈ map row_id (logs d)))
        (map er_log_id (log_embeddings d)))).
Proof.
  unfold get_log_embeddings, with_db. destruct (db_fault _ _); [done|].
  intros [= <-].
  set (joined := flat_map (join_embeddings (log_embeddings d)) (logs d)).
  set (sorted := sort_desc (fun p => row_timestamp (fst p)) Z.ltb joined).
  assert (Hperm : Permutation sorted joined) by apply sort_desc_perm.
  assert (Hjoined : forall p, p ∈ joined <->
            fst p ∈ logs d /\ snd p ∈ log_embeddings d /\
            er_log_id (snd p) = row_id (fst p)).
  { intros [row er]. unfold joined. rewrite list_elem_of_In, in_flat_map. simpl. split.
    - intros (row' & Hrow & Hp). unfold join_embeddings in Hp.
      apply in_map_iff in Hp as (er' & [= <- <-] & Her).
      apply filter_In in Her as [Her Heq%String.eqb_eq].
      by rewrite !list_elem_of_In.
    - intros (Hrow & Her & Heq). exists row. split; [by apply list_elem_of_In|].
      unfold join_embeddings. apply in_map_iff. exists er. split; [done|].
      apply filter_In. split; [by apply list_elem_of_In|by apply String.eqb_eq]. }
  split; [|split].
  - intros e. rewrite elem_of_map. split.
    + intros ([row er] & -> & Hp). rewrite Hperm in Hp.
      apply Hjoined in Hp as (Hrow & Her & Heq). by exists row, er.
    + intros (row & er & Hrow & Her & Heq & ->). exists (row, er).
      split; [done|]. rewrite Hperm. by apply Hjoined.
  - apply StronglySorted_map. simpl.
    eapply StronglySorted_weaken;
      [|apply (sort_desc_sorted (fun p : Row * EmbeddingRow => row_timestamp (fst p))
                 Z.ltb (fun _ => True)
                 DatabaseFacts.Z_ltb_asym DatabaseFacts.Z_ltb_ntrans);
        by apply Forall_true].
    intros a b _ _. cbv beta. lia.
  - intros Hnd. rewrite map_map. simpl.
    rewrite (Permutation_map _ Hperm). by apply joined_ids.
Qed.

Lemma get_log_embeddings_join_witness :
  exists embs,
    get_log_embeddings
      (mkDb (logs Scenario.the_db)
            (mkEmbeddingRow "gone" [1; 1]%float :: log_embeddings Scenario.the_db)
            Scenario.no_fault) = Ok embs /\
    map le_id embs = ["A"; "B"; "C"] /\
    StronglySorted (fun a b => (le_timestamp b <= le_timestamp a)%Z) embs.
Proof.
  destruct (get_log_embeddings
              (mkDb (logs Scenario.the_db)
                    (mkEmbeddingRow "gone" [1; 1]%float :: log_embeddings Scenario.the_db)
                    Scenario.no_fault)) as [embs|e] eqn:H.
  - exists embs. split; [reflexivity|].
    split; [by vm_compute in H; injection H as <-|].
    exact (proj1 (proj2 (get_log_embeddings_join _ _ H))).
  - exfalso. vm_compute in H. discriminate H.
Defined.

End StoreFacts.

(** ** The choice of the provider *)
Module FactoryFacts.
Import Factory.

(** The key the settings hold for a provider. *)
Definition key_of (cfg : Settings) (p : Provider) : option string :=
  match p with
  | DeepSeek => DEEPSEEK_API_KEY cfg
  | Gemini => GEMINI_API_KEY cfg
  | OpenAI => OPENAI_API_KEY cfg
  end.

Definition no_key (cfg : Settings) : Prop :=
  forall p, is_set (key_of cfg p) = false.

(** The name a request has to spell, in any mix of cases. *)
Definition request_name (p : Provider) : string :=
  match p with
  | DeepSeek => "deepseek"
  | Gemini => "gemini"
  | OpenAI => "openai"
  end.

Lemma is_set_default k : is_set k = true -> k = Some (default EmptyString k) /\ default EmptyString k <> EmptyString.
Proof. destruct k as [[|c s]|]; try done. Qed.

Lemma auto_detect_sound cfg llm :
  auto_detect cfg = Ok llm ->
  key_of cfg (llm_provider llm) = Some (llm_api_key llm) /\ llm_api_key llm <> EmptyString.
Proof.
  unfold auto_detect.
  destruct (is_set (DEEPSEEK_API_KEY cfg)) eqn:E1;
    [intros [= <-]; by apply is_set_default|].
  destruct (is_set (GEMINI_API_KEY cfg)) eqn:E2;
    [intros [= <-]; by apply is_set_default|].
  destruct (is_set (OPENAI_API_KEY cfg)) eqn:E3;
    [intros [= <-]; by apply is_set_default|done].
Qed.

Lemma auto_detect_raises cfg e :
  auto_detect cfg = Raise e <-> e = ValueError /\ no_key cfg.
Proof.
  unfold auto_detect, no_key.
  destruct (is_set (DEEPSEEK_API_KEY cfg)) eqn:E1.
  { split; [done|]. intros [_ H]. specialize (H DeepSeek). simpl in H. congruence. }
  destruct (is_set (GEMINI_API_KEY cfg)) eqn:E2.
  { split; [done|]. intros [_ H]. specialize (H Gemini). simpl in H. congruence. }
  destruct (is_set (OPENAI_API_KEY cfg)) eqn:E3.
  { split; [done|]. intros [_ H]. specialize (H OpenAI). simpl in H. congruence. }
  split.
  - intros [= <-]. split; [done|]. by intros [].
  - by intros [-> _].
Qed.

Lemma get_llm_raises cfg provider e :
  get_llm cfg provider = Raise e <-> e = ValueError /\ no_key cfg.
Proof.
  unfold get_llm. cbv zeta.
  destruct (nonempty (selected cfg provider)); [|apply auto_detect_raises].
  destruct (String.eqb _ "deepseek" && is_set (DEEPSEEK_API_KEY cfg)) eqn:E1.
  { apply andb_prop in E1 as [_ E1]. split; [done|].
    intros [_ H]. specialize (H DeepSeek). simpl in H. congruence. }
  destruct (String.eqb _ "gemini" && is_set (GEMINI_API_KEY cfg)) eqn:E2.
  { apply andb_prop in E2 as [_ E2]. split; [done|].
    intros [_ H]. specialize (H Gemini). simpl in H. congruence. }
  destruct (String.eqb _ "openai" && is_set (OPENAI_API_KEY cfg)) eqn:E3.
  { apply andb_prop in E3 as [_ E3]. split; [done|].
    intros [_ H]. specialize (H OpenAI). simpl in H. congruence. }
  apply auto_detect_raises.
Qed.

Lemma get_llm_sound cfg provider llm :
  get_llm cfg provider = Ok llm ->
  key_of cfg (llm_provider llm) = Some (llm_api_key llm) /\
  llm_api_key llm <> EmptyString.
Proof.
  unfold get_llm. cbv zeta.
  destruct (nonempty (selected cfg provider)); [|apply auto_detect_sound].
  destruct (String.eqb _ "deepseek" && is_set (DEEPSEEK_API_KEY cfg)) eqn:E1.
  { apply andb_prop in E1 as [_ E1]. intros [= <-]. by apply is_set_default. }
  destruct (String.eqb _ "gemini" && is_set (GEMINI_API_KEY cfg)) eqn:E2.
  { apply andb_prop in E2 as [_ E2]. intros [= <-]. by apply is_set_default. }
  destruct (String.eqb _ "openai" && is_set (OPENAI_API_KEY cfg)) eqn:E3.
  { apply andb_prop in E3 as [_ E3]. intros [= <-]. by apply is_set_default. }
  apply auto_detect_sound.
Qed.

(** X11.  [get_llm] fails only with [ValueError], and exactly when none of
    the three keys is set to a non-empty string, whatever provider is asked
    for. The instance it returns is built with the key the settings hold for
    its provider, and that key is not empty. *)
Theorem get_llm_needs_a_key (cfg : Settings) (provider : option string) :
  (forall e, get_llm cfg provider = Raise e <-> e = ValueError /\ no_key cfg) /\
  (forall llm, get_llm cfg provider = Ok llm ->
     key_of cfg (llm_provider llm) = Some (llm_api_key llm) /\
     llm_api_key llm <> EmptyString).
Proof.
  split; [intros e; apply get_llm_raises|intros llm; apply get_llm_sound].
Qed.

Lemma request_name_inj p q : request_name p = request_name q -> p = q.
Proof. by destruct p, q. Qed.

(** X12.  A request for a provider, spelled in any mix of cases, is honoured
    when the key of that provider is set. When it is not set, the request is
    dropped without an error and the choice is the automatic one, the first
    of DeepSeek, Gemini and OpenAI that has a key: an instance of another
    provider than the one asked for. *)
Theorem get_llm_request (cfg : Settings) (provider : option string) (p : Provider) :
  Database.lower (selected cfg provider) = request_name p ->
  (is_set (key_of cfg p) = true ->
   get_llm cfg provider = Ok (mkLLM p (default EmptyString (key_of cfg p)))) /\
  (is_set (key_of cfg p) = false ->
   get_llm cfg provider = auto_detect cfg /\
   forall llm, get_llm cfg provider = Ok llm -> llm_provider llm <> p).
Proof.
  intros Hname. unfold get_llm. cbv zeta.
  assert (Hne : nonempty (selected cfg provider) = true).
  { destruct (selected cfg provider); [by destruct p|done]. }
  rewrite Hne, Hname. split.
  - intros Hkey. destruct p; simpl in *; by rewrite ?Hkey.
  - intros Hkey.
    assert (Hauto : forall llm, auto_detect cfg = Ok llm -> llm_provider llm <> p).
    { intros llm Hllm <-. destruct (auto_detect_sound _ _ Hllm) as [Hk Hne'].
      rewrite Hk in Hkey. simpl in Hkey. by destruct (llm_api_key llm). }
    destruct p; simpl in *; rewrite ?Hkey, ?andb_false_r; done.
Qed.

Lemma get_llm_request_witness :
  Database.lower (selected Examples.two_keys (Some "Gemini")) = request_name Gemini /\
  Database.lower (selected Examples.two_keys None) = request_name DeepSeek /\
  get_llm Examples.two_keys (Some "Gemini") = Ok (mkLLM Gemini "g-key") /\
  get_llm Examples.two_keys None = Ok (mkLLM Gemini "g-key").
Proof.
  assert (H1 : Database.lower (selected Examples.two_keys (Some "Gemini"))
               = request_name Gemini) by reflexivity.
  assert (H2 : Database.lower (selected Examples.two_keys None)
               = request_name DeepSeek) by reflexivity.
  split; [exact H1|]. split; [exact H2|]. split.
  - exact (proj1 (get_llm_request Examples.two_keys (Some "Gemini") Gemini H1) eq_refl).
  - destruct (proj2 (get_llm_request Examples.two_keys None DeepSeek H2) eq_refl)
      as [Hauto _].
    rewrite Hauto. reflexivity.
Defined.

(** X13.  [get_current_provider_name] does not fail: it gives "None" exactly
    when no key is set, and the name of a provider whose key is set
    otherwise. *)
Theorem current_provider_name_reports (cfg : Settings) :
  exists s, get_current_provider_name cfg = Ok s /\
    (s = "None" <-> no_key cfg) /\
    (s <> "None" -> exists p, s = name p /\ is_set (key_of cfg p) = true).
Proof.
  unfold get_current_provider_name.
  destruct (get_llm cfg None) as [llm|e] eqn:E.
  - exists (name (llm_provider llm)). split; [done|].
    destruct (get_llm_sound _ _ _ E) as [Hk Hne].
    assert (Htruthy : is_set (key_of cfg (llm_provider llm)) = true).
    { rewrite Hk. simpl. by destruct (llm_api_key llm). }
    split; [split|].
    + by destruct (llm_provider llm).
    + intros Hno. rewrite Hno in Htruthy. done.
    + intros _. by exists (llm_provider llm).
  - apply get_llm_raises in E as [-> Hno]. exists "None". by repeat split.
Qed.

End FactoryFacts.

(** ** The similarity matrix *)
Module EmbeddingFacts.
Import Agent Embedding.

(** [matrix[a][b]] *)
Definition entry (matrix : list (list float)) (a b : nat) : option float :=
  matrix !! a ≫= fun row => row !! b.

Definition square (n : nat) (matrix : list (list float)) : Prop :=
  length matrix = n /\ Forall (fun row => length row = n) matrix.

Lemma square_row n matrix i :
  square n matrix -> i < n -> length (matrix !!! i) = n.
Proof.
  intros [Hlen Hrows] Hi. rewrite Forall_forall in Hrows. apply Hrows.
  apply list_elem_of_lookup. exists i. apply list_lookup_lookup_total_lt. lia.
Qed.

Lemma set_entry_square n matrix i j x :
  square n matrix -> i < n -> square n (set_entry matrix i j x).
Proof.
  intros Hsq Hi. pose proof (square_row n matrix i Hsq Hi) as Hrow.
  destruct Hsq as [Hlen Hrows]. unfold set_entry. split.
  - by rewrite length_insert.
  - apply Forall_insert; [done|]. by rewrite length_insert.
Qed.

Lemma entry_set_same n matrix i j x :
  square n matrix -> i < n -> j < n -> entry (set_entry matrix i j x) i j = Some x.
Proof.
  intros Hsq Hi Hj. pose proof (square_row n matrix i Hsq Hi) as Hrow.
  destruct Hsq as [Hlen _]. unfold entry, set_entry.
  rewrite list_lookup_insert_eq by lia. simpl.
  apply list_lookup_insert_eq. lia.
Qed.

Lemma entry_set_other matrix i j x a b :
  i < length matrix -> (a, b) <> (i, j) ->
  entry (set_entry matrix i j x) a b = entry matrix a b.
Proof.
  intros Hi Hne. unfold entry, set_entry.
  destruct (decide (a = i)) as [->|Ha].
  - rewrite list_lookup_insert_eq by done. simpl.
    rewrite list_lookup_insert_ne by congruence.
    by rewrite (list_lookup_lookup_total_lt matrix i).
  - by rewrite list_lookup_insert_ne.
Qed.

(** What a pass over row [i] has written at [matrix[a][b]]. *)
Definition written (embeddings : list (list float)) (matrix : list (list float))
  (a b : nat) : Prop :=
  exists sim,
    cosine_similarity (embeddings !!! Nat.min a b) (embeddings !!! Nat.max a b) = Ok sim /\
    entry matrix a b = Some sim.

Lemma fill_row_spec embeddings n i js matrix matrix' :
  square n matrix -> i < n -> Forall (fun j => i <= j < n) js ->
  fill_row embeddings i js matrix = Ok matrix' ->
  square n matrix' /\
  forall a b, a < n -> b < n ->
    ((a = i /\ b ∈ js) \/ (b = i /\ a ∈ js) -> written embeddings matrix' a b) /\
    (~ ((a = i /\ b ∈ js) \/ (b = i /\ a ∈ js)) -> entry matrix' a b = entry matrix a b).
Proof.
  intros Hsq Hi Hjs. revert matrix Hsq.
  induction Hjs as [|j js [Hij Hj] Hjs IH]; intros matrix Hsq; simpl.
  - intros [= <-]. split; [done|]. intros a b _ _. split; [|done].
    by intros [[_ ?%not_elem_of_nil]|[_ ?%not_elem_of_nil]].
  - destruct (cosine_similarity _ _) as [sim|] eqn:Hsim; simpl; [|done].
    set (m1 := set_entry (set_entry matrix i j sim) j i sim).
    assert (Hsq0 : square n (set_entry matrix i j sim)) by by apply set_entry_square.
    assert (Hsq1 : square n m1) by by apply set_entry_square.
    intros Hfill. destruct (IH m1 Hsq1 Hfill) as [Hsq' Hent].
    split; [done|]. intros a b Ha Hb. destruct (Hent a b Ha Hb) as [Hin Hout].
    assert (Hm1 : (a = i /\ b = j) \/ (b = i /\ a = j) ->
                  entry m1 a b = Some sim).
    { intros Hab. unfold m1.
      destruct (decide ((a, b) = (j, i))) as [[= -> ->]|Hne].
      - by apply (entry_set_same n).
      - rewrite entry_set_other; [|destruct Hsq0; lia|done].
        destruct Hab as [[-> ->]|[-> ->]]; [|done]. by apply (entry_set_same n). }
    assert (Hm1' : ~ ((a = i /\ b = j) \/ (b = i /\ a = j)) ->
                   entry m1 a b = entry matrix a b).
    { intros Hab. unfold m1.
      rewrite entry_set_other; [|destruct Hsq0; lia|intros [= -> ->]; tauto].
      rewrite entry_set_other; [done|destruct Hsq; lia|intros [= -> ->]; tauto]. }
    destruct (decide ((a = i /\ b ∈ js) \/ (b = i /\ a ∈ js))) as [Hlater|Hlater].
    + split; [by intros _; apply Hin|]. intros Hno. exfalso. apply Hno.
      destruct Hlater as [[? ?]|[? ?]]; [left|right]; (split; [done|by constructor]).
    + split.
      * intros Hnow. exists sim.
        assert (Hab : (a = i /\ b = j) \/ (b = i /\ a = j)).
        { destruct Hnow as [[? [->|?]%elem_of_cons]|[? [->|?]%elem_of_cons]]; tauto. }
        split; [|by rewrite (Hout Hlater), Hm1].
        destruct Hab as [[-> ->]|[-> ->]].
        -- by rewrite Nat.min_l, Nat.max_r by lia.
        -- by rewrite Nat.min_r, Nat.max_l by lia.
      * intros Hno. rewrite (Hout Hlater). apply Hm1'. intros Hab. apply Hno.
        destruct Hab as [[? ->]|[? ->]]; [left|right]; (split; [done|constructor]).
Qed.

Lemma fill_rows_spec embeddings n k i0 matrix matrix' :
  i0 + k = n -> square n matrix ->
  fill_rows embeddings n (seq i0 k) matrix = Ok matrix' ->
  square n matrix' /\
  forall a b, a < n -> b < n ->
    (i0 <= Nat.min a b -> written embeddings matrix' a b) /\
    (Nat.min a b < i0 -> entry matrix' a b = entry matrix a b).
Proof.
  revert i0 matrix. induction k as [|k IH]; intros i0 matrix Hn Hsq; simpl.
  - intros [= <-]. split; [done|]. intros a b Ha Hb. split; [lia|done].
  - destruct (fill_row _ _ _ _) as [m1|] eqn:Hrow; simpl; [|done].
    intros Hrows.
    destruct (fill_row_spec embeddings n i0 (seq i0 (n - i0)) matrix m1)
      as [Hsq1 Hent1]; [done|lia| |done|].
    { apply Forall_forall. intros j Hj%elem_of_seq. lia. }
    destruct (IH (S i0) m1 ltac:(lia) Hsq1 Hrows) as [Hsq' Hent].
    split; [done|]. intros a b Ha Hb.
    destruct (Hent a b Ha Hb) as [Hin Hout], (Hent1 a b Ha Hb) as [Hin1 Hout1].
    split.
    + intros Hmin. destruct (decide (S i0 <= Nat.min a b)) as [Hlater|Hnow]; [by apply Hin|].
      destruct Hin1 as (sim & Hsim & Hentry).
      { rewrite !elem_of_seq. lia. }
      exists sim. split; [done|]. rewrite Hout by lia. done.
    + intros Hmin. rewrite Hout by lia. apply Hout1. rewrite !elem_of_seq. lia.
Qed.

Lemma replicate_square n : square n (replicate n (replicate n 0%float)).
Proof.
  split; [apply length_replicate|].
  apply Forall_replicate. apply length_replicate.
Qed.

Lemma compute_similarity_matrix_spec embeddings matrix :
  compute_similarity_matrix embeddings = Ok matrix ->
  square (length embeddings) matrix /\
  forall a b, a < length embeddings -> b < length embeddings ->
    written embeddings matrix a b.
Proof.
  unfold compute_similarity_matrix. intros H.
  destruct (fill_rows_spec embeddings (length embeddings) (length embeddings) 0 _ matrix
              eq_refl (replicate_square _) H) as [Hsq Hent].
  split; [done|]. intros a b Ha Hb. apply Hent; [done..|lia].
Qed.

(** X14.  [compute_similarity_matrix]: the result is a square matrix of the
    size of the input, symmetric, and [matrix[a][b]] is the similarity
    computed for the pair with the smaller index first. *)
Theorem similarity_matrix_entries (embeddings : list (list float))
  (matrix : list (list float)) :
  compute_similarity_matrix embeddings = Ok matrix ->
  length matrix = length embeddings /\
  Forall (fun row => length row = length embeddings) matrix /\
  forall a b, a < length embeddings -> b < length embeddings ->
    entry matrix a b = entry matrix b a /\
    exists sim,
      cosine_similarity (embeddings !!! Nat.min a b) (embeddings !!! Nat.max a b)
      = Ok sim /\
      entry matrix a b = Some sim.
Proof.
  intros [[Hlen Hrows] Hent]%compute_similarity_matrix_spec.
  split; [done|]. split; [done|]. intros a b Ha Hb.
  destruct (Hent a b Ha Hb) as (sim & Hsim & Hab).
  destruct (Hent b a Hb Ha) as (sim' & Hsim' & Hba).
  split; [|by exists sim].
  rewrite Nat.min_comm, Nat.max_comm in Hsim'. congruence.
Qed.

Lemma similarity_matrix_entries_witness :
  exists matrix,
    compute_similarity_matrix [[3; 4]; [4; 3]; [0; 0]]%float = Ok matrix /\
    matrix = [[1; 0.96; 0]; [0.96; 1; 0]; [0; 0; 0]]%float /\
    length matrix = 3 /\
    forall a b, a < 3 -> b < 3 -> entry matrix a b = entry matrix b a.
Proof.
  destruct (compute_similarity_matrix [[3; 4]; [4; 3]; [0; 0]]%float)
    as [matrix|e] eqn:H.
  - exists matrix. split; [reflexivity|].
    split; [by vm_compute in H; injection H as <-|].
    destruct (similarity_matrix_entries _ _ H) as (Hlen & _ & Hent).
    split; [exact Hlen|]. intros a b Ha Hb. exact (proj1 (Hent a b Ha Hb)).
  - exfalso. vm_compute in H. discriminate H.
Defined.

Lemma cosine_similarity_ok v1 v2 :
  (exists sim, cosine_similarity v1 v2 = Ok sim) <-> length v1 = length v2.
Proof.
  unfold cosine_similarity, np_dot. split.
  - intros [sim H]. destruct (Nat.eqb_spec (length v1) (length v2)); done.
  - intros ->. rewrite Nat.eqb_refl. simpl. destruct (_ || _); eauto.
Qed.

Lemma cosine_similarity_raise v1 v2 e :
  cosine_similarity v1 v2 = Raise e -> e = ValueError.
Proof.
  unfold cosine_similarity, np_dot.
  destruct (length v1 =? length v2)%nat; simpl; [|by intros [= <-]].
  by destruct (_ || _).
Qed.

Lemma fill_row_total embeddings i js matrix :
  (forall j, j ∈ js -> length (embeddings !!! i) = length (embeddings !!! j)) ->
  exists matrix', fill_row embeddings i js matrix = Ok matrix'.
Proof.
  revert matrix. induction js as [|j js IH]; intros matrix Hlen; simpl; [eauto|].
  destruct (proj2 (cosine_similarity_ok (embeddings !!! i) (embeddings !!! j)))
    as [sim ->]; [apply Hlen; constructor|]. simpl.
  apply IH. intros j' Hj'. apply Hlen. by constructor.
Qed.

Lemma fill_row_raise embeddings i js matrix e :
  fill_row embeddings i js matrix = Raise e -> e = ValueError.
Proof.
  revert matrix. induction js as [|j js IH]; intros matrix; simpl; [done|].
  destruct (cosine_similarity _ _) as [sim|e'] eqn:E; simpl; [apply IH|].
  intros [= <-]. by eapply cosine_similarity_raise.
Qed.

Lemma fill_rows_total embeddings n rows matrix :
  Forall (fun i => i < n) rows ->
  (forall i j, i < n -> j < n ->
     length (embeddings !!! i) = length (embeddings !!! j)) ->
  exists matrix', fill_rows embeddings n rows matrix = Ok matrix'.
Proof.
  intros Hrows Hlen. revert matrix.
  induction Hrows as [|i rows Hi Hrows IH]; intros matrix; simpl; [eauto|].
  destruct (fill_row_total embeddings i (seq i (n - i)) matrix) as [m1 ->].
  { intros j Hj%elem_of_seq. apply Hlen; lia. }
  simpl. apply IH.
Qed.

Lemma fill_rows_raise embeddings n rows matrix e :
  fill_rows embeddings n rows matrix = Raise e -> e = ValueError.
Proof.
  revert matrix. induction rows as [|i rows IH]; intros matrix; simpl; [done|].
  destruct (fill_row _ _ _ _) as [m1|e'] eqn:E; simpl; [apply IH|].
  intros [= <-]. by eapply fill_row_raise.
Qed.

(** X15.  [compute_similarity_matrix] fails exactly when two of the
    embeddings have different lengths, and then with the [ValueError] of
    [np.dot]; the empty list gives the empty matrix. *)
Theorem similarity_matrix_fails_iff (embeddings : list (list float)) :
  (forall e, compute_similarity_matrix embeddings = Raise e -> e = ValueError) /\
  (compute_similarity_matrix embeddings = Raise ValueError <->
   exists v1 v2, v1 ∈ embeddings /\ v2 ∈ embeddings /\ length v1 <> length v2) /\
  compute_similarity_matrix [] = Ok [].
Proof.
  split; [|split; [|done]].
  - intros e. apply fill_rows_raise.
  - split.
    + intros Hraise.
      destruct (decide (Forall (fun v => Forall (fun w => length v = length w) embeddings)
                          embeddings)) as [Hall|Hnot].
      * exfalso. rewrite Forall_forall in Hall.
        destruct (fill_rows_total embeddings (length embeddings)
                    (seq 0 (length embeddings))
                    (replicate (length embeddings)
                       (replicate (length embeddings) 0%float))) as [m Hm].
        { apply Forall_forall. intros i Hi%elem_of_seq. lia. }
        { intros i j Hi Hj.
          assert (Hvi : embeddings !!! i ∈ embeddings).
          { apply list_elem_of_lookup. exists i. by apply list_lookup_lookup_total_lt. }
          assert (Hvj : embeddings !!! j ∈ embeddings).
          { apply list_elem_of_lookup. exists j. by apply list_lookup_lookup_total_lt. }
          specialize (Hall _ Hvi). rewrite Forall_forall in Hall. by apply Hall. }
        unfold compute_similarity_matrix in Hraise. congruence.
      * apply not_Forall_Exists in Hnot; [|apply _].
        apply Exists_exists in Hnot as (v1 & Hv1 & Hnot). cbv beta in Hnot.
        apply not_Forall_Exists in Hnot; [|apply _].
        apply Exists_exists in Hnot as (v2 & Hv2 & Hne). by exists v1, v2.
    + intros (v1 & v2 & Hv1 & Hv2 & Hne).
      destruct (compute_similarity_matrix embeddings) as [m|e] eqn:E.
      * exfalso. apply compute_similarity_matrix_spec in E as [_ Hent].
        apply list_elem_of_lookup in Hv1 as [a Ha], Hv2 as [b Hb].
        pose proof (lookup_lt_Some _ _ _ Ha) as Hla.
        pose proof (lookup_lt_Some _ _ _ Hb) as Hlb.
        destruct (Hent a b Hla Hlb) as (sim & Hsim & _).
        assert (Hlen : length (embeddings !!! Nat.min a b)
                       = length (embeddings !!! Nat.max a b)).
        { apply cosine_similarity_ok. by exists sim. }
        apply list_lookup_total_correct in Ha, Hb.
        destruct (Nat.le_ge_cases a b).
        -- rewrite Nat.min_l, Nat.max_r in Hlen by done. congruence.
        -- rewrite Nat.min_r, Nat.max_l in Hlen by done. congruence.
      * f_equal. by eapply fill_rows_raise.
Qed.

End EmbeddingFacts.

(** ** Chunking *)
Module ChunkingFacts.
Import PyStr Chunking.
Local Open Scope Z_scope.

Lemma len_app (a b : str) : len (a ++ b) = len a + len b.
Proof. unfold len. rewrite length_app. lia. Qed.

Lemma len_nonneg (s : str) : 0 <= len s.
Proof. unfold len. lia. Qed.

Lemma truthy_len (s : str) : truthy s = true <-> 0 < len s.
Proof. destruct s; unfold len; simpl; split; try done; lia. Qed.

Lemma len_pos (s : str) : s <> [] <-> 0 < len s.
Proof. destruct s; unfold len; simpl; split; try done; lia. Qed.

(** A window that starts inside the string is not empty and no longer than
    asked. *)
Lemma slice_window (s : str) (i k : Z) :
  0 <= i < len s -> 0 < k -> 0 < len (slice s i (i + k)) <= k.
Proof.
  intros Hi Hk. unfold slice, clamp.
  replace (i <? 0) with false by lia. replace (i + k <? 0) with false by lia.
  unfold len in *. rewrite length_take, length_drop. lia.
Qed.

Lemma prev_tail_len (overlap_chars : Z) (prev : str) :
  0 < overlap_chars -> len (prev_tail overlap_chars prev) <= overlap_chars.
Proof.
  intros Ho. unfold prev_tail. destruct (len prev >? overlap_chars) eqn:E; [|lia].
  unfold slice_from, clamp, len in *. rewrite length_drop.
  destruct (- overlap_chars <? 0) eqn:E'; lia.
Qed.

Section Bounds.
Variables max_chars overlap_chars : Z.
Hypothesis Hmax : 0 < max_chars.
Hypothesis Hstep : 0 < max_chars - overlap_chars.

(** A chunk as the loops keep it: not empty, and of [max_chars] characters
    at most. *)
Definition fits (c : str) : Prop := 0 < len c <= max_chars.

Definition state_ok (st : State) : Prop :=
  Forall fits (fst st) /\ len (snd st) <= max_chars.

Lemma flush_fits chunks cur :
  Forall fits chunks -> len cur <= max_chars -> Forall fits (flush chunks cur).
Proof.
  intros Hc Hcur. unfold flush. destruct (truthy cur) eqn:E; [|done].
  apply Forall_app. split; [done|]. repeat constructor; [|done].
  by apply truthy_len.
Qed.

Lemma range_from_0_ok stop :
  exists starts, range_from_0 stop (max_chars - overlap_chars) = Ok starts /\
    Forall (fun i => 0 <= i < stop) starts.
Proof.
  unfold range_from_0.
  replace (max_chars - overlap_chars =? 0) with false by lia.
  replace (max_chars - overlap_chars <? 0) with false by lia.
  eexists. split; [done|]. apply Forall_forall. intros i (k & -> & Hk)%elem_of_map.
  apply elem_of_seq in Hk. set (step := max_chars - overlap_chars) in *.
  destruct (Z_le_gt_dec stop 0) as [Hle|Hgt].
  - assert ((stop + step - 1) / step <= 0); [|lia].
    apply Z.lt_succ_r. apply Z.div_lt_upper_bound; lia.
  - split; [lia|].
    assert (Hk' : Z.of_nat k < (stop + step - 1) / step) by lia.
    apply Z.lt_le_pred in Hk'.
    assert (Z.of_nat k * step <= (stop + step - 1) / step * step - step) by nia.
    pose proof (Z.mul_div_le (stop + step - 1) step ltac:(lia)). lia.
Qed.

Lemma sentence_step_ok st sent :
  state_ok st -> exists st', sentence_step max_chars overlap_chars st sent = Ok st' /\ state_ok st'.
Proof.
  destruct st as [chunks cur]. intros [Hc Hcur]. simpl in Hc, Hcur.
  unfold sentence_step.
  destruct (len cur + len sent + 1 <=? max_chars) eqn:E1.
  - eexists. split; [done|]. split; [done|]. simpl.
    rewrite !len_app. destruct (truthy cur); unfold len at 2; simpl; lia.
  - pose proof (flush_fits chunks cur Hc Hcur) as Hf.
    destruct (len sent >? max_chars) eqn:E2.
    + destruct (range_from_0_ok (len sent)) as (starts & -> & Hstarts). simpl.
      eexists. split; [done|]. split; simpl; [|unfold len; simpl; lia].
      apply Forall_app. split; [done|].
      apply Forall_forall. intros c (i & -> & Hi)%elem_of_map.
      rewrite Forall_forall in Hstarts. apply slice_window; [by apply Hstarts|done].
    + eexists. split; [done|]. split; simpl; [done|lia].
Qed.

Lemma sentence_loop_ok sentences st :
  state_ok st ->
  exists st', sentence_loop max_chars overlap_chars sentences st = Ok st' /\ state_ok st'.
Proof.
  revert st. induction sentences as [|sent rest IH]; intros st Hst; simpl; [eauto|].
  destruct (sentence_step_ok st sent Hst) as (st1 & -> & Hst1). simpl. by apply IH.
Qed.

Lemma paragraph_step_ok st para :
  state_ok st ->
  exists st', paragraph_step max_chars overlap_chars st para = Ok st' /\ state_ok st'.
Proof.
  destruct st as [chunks cur]. intros [Hc Hcur]. simpl in Hc, Hcur.
  unfold paragraph_step.
  destruct (len cur + len para + 2 <=? max_chars) eqn:E1.
  - eexists. split; [done|]. split; [done|]. simpl.
    rewrite !len_app. destruct (truthy cur); unfold len at 2; simpl; lia.
  - pose proof (flush_fits chunks cur Hc Hcur) as Hf.
    destruct (len para >? max_chars) eqn:E2.
    + apply sentence_loop_ok. split; simpl; [done|unfold len; simpl; lia].
    + eexists. split; [done|]. split; simpl; [done|lia].
Qed.

Lemma paragraph_loop_ok paragraphs st :
  state_ok st ->
  exists st', paragraph_loop max_chars overlap_chars paragraphs st = Ok st' /\ state_ok st'.
Proof.
  revert st. induction paragraphs as [|para rest IH]; intros st Hst; simpl; [eauto|].
  destruct (paragraph_step_ok st para Hst) as (st1 & -> & Hst1). simpl. by apply IH.
Qed.

Lemma add_overlap_bound prev chunks :
  0 < overlap_chars -> Forall fits chunks ->
  Forall (fun c => 0 < len c <= overlap_chars + 1 + max_chars)
    (add_overlap overlap_chars prev chunks) /\
  length (add_overlap overlap_chars prev chunks) = length chunks.
Proof.
  intros Ho Hc. revert prev. induction Hc as [|c rest [Hc1 Hc2] Hrest IH]; intros prev; simpl.
  - done.
  - destruct (IH c) as [IH1 IH2]. split; [|by rewrite IH2].
    constructor; [|done].
    pose proof (prev_tail_len overlap_chars prev Ho).
    unfold fits, len in *. rewrite length_app. simpl. lia.
Qed.

End Bounds.

(** X16.  [chunk_text] with an overlap that is not negative and smaller than
    [max_tokens], as with the defaults 8192 and 128: it does not fail; a
    text whose estimate is within [max_tokens] comes back as the one chunk;
    no chunk of a text that is not empty is empty; and the estimate of a
    chunk is at most [max_tokens + overlap], the overlap being added on top
    of a chunk that may already be full. *)
Theorem chunk_text_bounds (text : str) (max_tokens overlap : Z) :
  0 <= overlap < max_tokens ->
  exists chunks,
    chunk_text text max_tokens overlap = Ok chunks /\
    (estimate_tokens text <= max_tokens -> chunks = [text]) /\
    (text <> [] -> Forall (fun c => c <> []) chunks) /\
    Forall (fun c => estimate_tokens c <= max_tokens + overlap) chunks.
Proof.
  intros Ho. unfold chunk_text. cbv zeta.
  destruct (estimate_tokens text <=? max_tokens) eqn:E.
  - exists [text]. split; [done|]. split; [done|]. split; [by repeat constructor|].
    repeat constructor. apply Z.leb_le in E. lia.
  - apply Z.leb_gt in E.
    destruct (paragraph_loop_ok (max_tokens * 3) (overlap * 3) ltac:(lia) ltac:(lia)
                (split [newline; newline] text) ([], [])) as ([chunks cur] & -> & Hc & Hcur).
    { split; simpl; [done|unfold len; simpl; lia]. }
    simpl in Hc, Hcur. cbn [bind].
    pose proof (flush_fits (max_tokens * 3) chunks cur Hc Hcur) as Hf.
    set (final := flush chunks cur) in *.
    assert (Hout : forall out,
      Forall (fun c => 0 < len c <= overlap * 3 + 1 + max_tokens * 3) out ->
      (estimate_tokens text <= max_tokens -> out = [text]) /\
      (text <> [] -> Forall (fun c => c <> []) out) /\
      Forall (fun c => estimate_tokens c <= max_tokens + overlap) out).
    { intros out Hall. split; [lia|]. split.
      - intros _. eapply Forall_impl; [done|]. intros c [Hc0 _]. by apply len_pos.
      - eapply Forall_impl; [done|]. intros c [_ Hc1]. unfold estimate_tokens.
        apply Z.lt_succ_r, Z.div_lt_upper_bound; lia. }
    assert (Hfits : forall c, fits (max_tokens * 3) c ->
              0 < len c <= overlap * 3 + 1 + max_tokens * 3).
    { intros c [? ?]. lia. }
    destruct ((1 <? Z.of_nat (length final)) && (overlap * 3 >? 0)) eqn:Eo.
    + apply andb_prop in Eo as [_ Eo]. destruct final as [|first rest]; eexists; (split; [done|]); apply Hout; [done|].
      apply Forall_cons in Hf as [Hfirst Hrest]. constructor; [by apply Hfits|].
      by apply (add_overlap_bound (max_tokens * 3)); [lia|].
    + eexists. split; [done|]. apply Hout. eapply Forall_impl; [done|]. apply Hfits.
Qed.

Lemma range_from_0_raise stop step e :
  range_from_0 stop step = Raise e -> e = ValueError /\ step = 0.
Proof.
  unfold range_from_0. destruct (step =? 0) eqn:E; [intros [= <-]; split; [done|lia]|].
  by destruct (step <? 0).
Qed.

Lemma sentence_loop_raise max_chars overlap_chars sentences st e :
  sentence_loop max_chars overlap_chars sentences st = Raise e ->
  e = ValueError /\ max_chars = overlap_chars.
Proof.
  revert st. induction sentences as [|sent rest IH]; intros st; simpl; [done|].
  destruct (sentence_step max_chars overlap_chars st sent) as [st1|e1] eqn:E; simpl;
    [apply IH|].
  intros [= <-]. unfold sentence_step in E. destruct st as [chunks cur].
  destruct (_ <=? _); [done|]. destruct (_ >? _); [|done].
  destruct (range_from_0 _ _) as [starts|e2] eqn:Er; simpl in E; [done|].
  injection E as <-. apply range_from_0_raise in Er as [-> Hs]. split; [done|lia].
Qed.

Lemma paragraph_loop_raise max_chars overlap_chars paragraphs st e :
  paragraph_loop max_chars overlap_chars paragraphs st = Raise e ->
  e = ValueError /\ max_chars = overlap_chars.
Proof.
  revert st. induction paragraphs as [|para rest IH]; intros st; simpl; [done|].
  destruct (paragraph_step max_chars overlap_chars st para) as [st1|e1] eqn:E; simpl;
    [apply IH|].
  intros [= <-]. unfold paragraph_step in E. destruct st as [chunks cur].
  destruct (_ <=? _); [done|]. destruct (_ >? _); [|done].
  by apply sentence_loop_raise in E.
Qed.

(** X17.  [chunk_text] fails in one way only: with the [ValueError] of
    [range], when [overlap] equals [max_tokens] and a sentence has to be cut
    by force, the step of the cut being 0 then. *)
Theorem chunk_text_failure (text : str) (max_tokens overlap : Z) (e : exn) :
  chunk_text text max_tokens overlap = Raise e ->
  e = ValueError /\ overlap = max_tokens /\ max_tokens < estimate_tokens text.
Proof.
  unfold chunk_text. cbv zeta.
  destruct (estimate_tokens text <=? max_tokens) eqn:E; [done|].
  destruct (paragraph_loop _ _ _ _) as [[chunks cur]|e1] eqn:Ep; simpl.
  - destruct (_ && _); [|done]. by destruct (flush chunks cur).
  - intros [= <-]. apply paragraph_loop_raise in Ep as [-> Heq].
    apply Z.leb_gt in E. split; [done|lia].
Qed.

Lemma chunk_text_failure_witness :
  chunk_text (lit "abcdefghijklmnopqrstuvwxyz") 2 2 = Raise ValueError /\
  ValueError = ValueError /\ 2 = 2 /\ 2 < estimate_tokens (lit "abcdefghijklmnopqrstuvwxyz").
Proof.
  assert (H : chunk_text (lit "abcdefghijklmnopqrstuvwxyz") 2 2 = Raise ValueError)
    by (vm_compute; reflexivity).
  exact (conj H (chunk_text_failure _ _ _ _ H)).
Defined.

Lemma chunk_text_bounds_witness :
  0 <= 1 < 2 /\
  chunk_text (lit "abcdefghijklmnopq") 2 1
  = Ok [lit "abcdef"; lit "def defghi"; lit "ghi ghijkl"; lit "jkl jklmno";
        lit "mno mnopq"; lit "opq pq"] /\
  exists chunks,
    chunk_text (lit "abcdefghijklmnopq") 2 1 = Ok chunks /\
    (estimate_tokens (lit "abcdefghijklmnopq") <= 2 -> chunks = [lit "abcdefghijklmnopq"]) /\
    (lit "abcdefghijklmnopq" <> [] -> Forall (fun c => c <> []) chunks) /\
    Forall (fun c => estimate_tokens c <= 2 + 1) chunks.
Proof.
  assert (H : 0 <= 1 < 2) by lia.
  split; [exact H|]. split; [vm_compute; reflexivity|].
  exact (chunk_text_bounds (lit "abcdefghijklmnopq") 2 1 H).
Defined.

End ChunkingFacts.

(** ** The title of a conversation *)
Module AiUtilsFacts.
Import PyStr Factory FactoryFacts AiUtils.
Local Open Scope Z_scope.

Lemma lstrip_by_suffix p s : exists pre, s = pre ++ lstrip_by p s.
Proof.
  induction s as [|c s [pre IH]]; simpl; [by exists []|].
  destruct (p c); [|by exists []]. exists (c :: pre). simpl. by rewrite <- IH.
Qed.

Lemma lstrip_by_head p s c : head (lstrip_by p s) = Some c -> p c = false.
Proof.
  induction s as [|d s IH]; simpl; [done|].
  destruct (p d) eqn:E; [done|]. simpl. by intros [= <-].
Qed.

Lemma rstrip_by_prefix p s : exists post, s = rstrip_by p s ++ post.
Proof.
  unfold rstrip_by. destruct (lstrip_by_suffix p (rev s)) as [pre Hpre].
  exists (rev pre). rewrite <- rev_app_distr, <- Hpre. by rewrite rev_involutive.
Qed.

Lemma strip_by_head p s c : head (strip_by p s) = Some c -> p c = false.
Proof.
  unfold strip_by. destruct (rstrip_by_prefix p (lstrip_by p s)) as [post Hpost].
  intros Hhead. apply (lstrip_by_head p s). rewrite Hpost.
  by destruct (rstrip_by p (lstrip_by p s)).
Qed.

Lemma slice_0 (s : str) (k : Z) : 0 <= k -> slice s 0 k = firstn (Z.to_nat k) s.
Proof.
  intros Hk. unfold slice, clamp. change (0 <? 0) with false.
  replace (k <? 0) with false by lia. cbv zeta.
  pose proof (ChunkingFacts.len_nonneg s) as Hn.
  replace (Z.min 0 (len s)) with 0 by lia. rewrite Z.sub_0_r.
  change (Z.to_nat 0) with 0%nat. change (skipn 0 s) with s.
  destruct (Z_le_gt_dec k (len s)).
  - by rewrite Z.min_l.
  - rewrite Z.min_r by lia. unfold len in *. rewrite Nat2Z.id.
    rewrite !firstn_all2; [done|lia..].
Qed.

(** X18.  [generate_conversation_title] fails only when no key is
    configured, [get_llm] being called before the [try]. Otherwise it
    returns a title that is not empty, has 50 characters at most and does
    not start with white space; when the provider fails, and when nothing is
    left of its answer once quotes and white space are stripped, the title
    is "New Chat". *)
Theorem conversation_title_shape (cfg : Settings) (generate : Generate)
  (first_message : str) :
  (forall e, generate_conversation_title cfg generate first_message = Raise e <->
     e = ValueError /\ no_key cfg) /\
  (forall title, generate_conversation_title cfg generate first_message = Ok title ->
     title <> [] /\ len title <= 50 /\
     (forall c, head title = Some c -> is_space c = false)) /\
  (forall llm e, get_llm cfg None = Ok llm ->
     generate llm (title_prompt first_message) 0.5%float = Raise e ->
     generate_conversation_title cfg generate first_message = Ok new_chat) /\
  (forall llm response, get_llm cfg None = Ok llm ->
     generate llm (title_prompt first_message) 0.5%float = Ok response ->
     strip (strip_chars [double_quote; single_quote] (strip response)) = [] ->
     generate_conversation_title cfg generate first_message = Ok new_chat).
Proof.
  unfold generate_conversation_title.
  pose proof (get_llm_raises cfg None) as Hraise.
  destruct (get_llm cfg None) as [llm|e0] eqn:Ellm; simpl.
  - split; [|split; [|split]].
    + intros e. split.
      * by destruct (generate _ _ _) as [response|]; [destruct (truthy _)|].
      * intros Hno. by apply Hraise in Hno.
    + intros title.
      assert (Hnew : new_chat <> [] /\ len new_chat <= 50 /\
                forall c, head new_chat = Some c -> is_space c = false).
      { split; [done|]. split; [by vm_compute|]. by intros c [= <-]. }
      destruct (generate _ _ _) as [response|]; [|by intros [= <-]].
      set (s := strip _). rewrite slice_0 by lia.
      destruct (truthy (firstn _ s)) eqn:Et; intros [= <-]; [|done].
      split; [by destruct (firstn _ s)|]. split.
      * unfold len. rewrite length_take. lia.
      * intros c Hc. apply (strip_by_head is_space
          (strip_chars [double_quote; single_quote] (strip response))).
        fold (strip (strip_chars [double_quote; single_quote] (strip response))).
        fold s. destruct s; [done|]. done.
    + intros llm' e [= <-] ->. done.
    + intros llm' response [= <-] -> ->. done.
  - split; [|split; [|split]]; try done.
    intros e. split; [intros [= <-]; by apply Hraise|].
    intros [-> Hno]. f_equal. by apply Hraise.
Qed.

End AiUtilsFacts.

(** ** The batch of tag extractions *)
Module TagExtractionFacts.
Import PyStr Factory FactoryFacts TagExtraction.

Lemma py_index_elem_of {A} (items : list A) i x : py_index items i = Some x -> x ∈ items.
Proof.
  unfold py_index. destruct (_ && _).
  - intros H. apply list_elem_of_lookup. eauto.
  - destruct (_ && _); [|done]. intros H. apply list_elem_of_lookup. eauto.
Qed.

Lemma batch_loop_keys entries items result_map id :
  is_Some (batch_loop entries items result_map !! id) ->
  is_Some (result_map !! id) \/ exists entry, entry ∈ entries /\ entry_id entry = id.
Proof.
  revert result_map. induction items as [|r rest IH]; intros result_map; simpl; [by left|].
  destruct (item_index r) as [idx|]; [|apply IH].
  destruct (idx <? _)%Z; [|apply IH].
  destruct (py_index entries idx) as [entry|] eqn:E; [|by left].
  intros [H|H]%IH; [|by right].
  destruct (decide (entry_id entry = id)) as [<-|Hne].
  - right. exists entry. split; [by eapply py_index_elem_of|done].
  - left. by rewrite lookup_insert_ne in H.
Qed.

(** X22.  [batch_process_entries]: every key of the map it returns is the id
    of one of the entries. It fails only when there are entries and no key
    is configured, [get_llm] being called before the [try]; with no entry it
    returns the empty map and builds no instance; and when the model fails,
    the map is empty. *)
Theorem batch_results_belong_to_entries (cfg : Settings)
  (generate_json : GenerateResults) (entries : list Entry) :
  (forall result_map id,
     batch_process_entries cfg generate_json entries = Ok result_map ->
     is_Some (result_map !! id) ->
     exists entry, entry ∈ entries /\ entry_id entry = id) /\
  (forall e, batch_process_entries cfg generate_json entries = Raise e <->
     entries <> [] /\ e = ValueError /\ no_key cfg) /\
  batch_process_entries cfg generate_json [] = Ok ∅ /\
  (forall llm e, entries <> [] -> get_llm cfg None = Ok llm ->
     generate_json llm (batch_prompt entries) = Raise e ->
     batch_process_entries cfg generate_json entries = Ok ∅).
Proof.
  split; [|split; [|split; [done|]]].
  - intros result_map id. unfold batch_process_entries.
    destruct entries as [|e0 entries]; [intros [= <-]; by rewrite lookup_empty; intros []|].
    destruct (get_llm cfg None) as [llm|]; simpl; [|done].
    destruct (generate_json _ _) as [items|];
      [|intros [= <-]; by rewrite lookup_empty; intros []].
    intros [= <-] [H|H]%batch_loop_keys; [|done].
    rewrite lookup_empty in H. by destruct H.
  - intros e. unfold batch_process_entries.
    destruct entries as [|e0 entries]; [split; [done|by intros [? _]]|].
    destruct (get_llm cfg None) as [llm|e1] eqn:E; simpl.
    + split; [by destruct (generate_json _ _)|].
      intros (_ & -> & Hno).
      pose proof (proj2 (get_llm_raises cfg None ValueError) (conj eq_refl Hno)).
      congruence.
    + apply get_llm_raises in E as [-> Hno]. split.
      * by intros [= <-].
      * by intros (_ & -> & _).
  - intros llm e Hne Hllm Hgen. unfold batch_process_entries.
    destruct entries as [|e0 entries]; [done|]. rewrite Hllm. simpl. by rewrite Hgen.
Qed.

(** X23.  An index that is negative is read as Python reads it: down to
    minus the number of entries it counts from the end, so that -1 names the
    last entry; below that it ends the loop, and the results that come after
    it are lost while those before it are kept. An index that is not below
    the number of entries is passed over. *)
Theorem batch_index_reading (entries : list Entry) (r : ResultItem) (idx : Z) :
  item_index r = Some idx ->
  let n := Z.of_nat (length entries) in
  (forall rest result_map entry,
     (- n <= idx < 0)%Z -> entries !! Z.to_nat (idx + n) = Some entry ->
     batch_loop entries (r :: rest) result_map
     = batch_loop entries rest (<[entry_id entry := item_result entry r]> result_map)) /\
  (forall before rest result_map,
     (idx < - n)%Z ->
     batch_loop entries (before ++ r :: rest) result_map
     = batch_loop entries before result_map) /\
  (forall rest result_map,
     (n <= idx)%Z ->
     batch_loop entries (r :: rest) result_map = batch_loop entries rest result_map).
Proof.
  intros Hidx n. split; [|split].
  - intros rest result_map entry Hrange Hentry. simpl. rewrite Hidx.
    replace (idx <? _)%Z with true by (fold n; lia).
    unfold py_index. fold n.
    replace ((0 <=? idx) && (idx <? n))%Z with false by lia.
    replace ((- n <=? idx) && (idx <? 0))%Z with true by lia.
    by rewrite Hentry.
  - intros before rest result_map Hlow. revert result_map.
    induction before as [|b before IH]; intros result_map; simpl.
    + rewrite Hidx. replace (idx <? _)%Z with true by (fold n; lia).
      unfold py_index. fold n.
      replace ((0 <=? idx) && (idx <? n))%Z with false by lia.
      replace ((- n <=? idx) && (idx <? 0))%Z with false by lia. done.
    + destruct (item_index b) as [i|]; [|apply IH].
      destruct (i <? _)%Z; [|apply IH].
      destruct (py_index entries i); [apply IH|done].
  - intros rest result_map Hhigh. simpl. rewrite Hidx.
    by replace (idx <? _)%Z with false by (fold n; lia).
Qed.

Lemma batch_index_reading_witness :
  item_index (mkResultItem (Some (-1)%Z) None []) = Some (-1)%Z /\
  batch_loop Examples.two_entries [mkResultItem (Some (-1)%Z) None []] ∅
  = {[ lit "e2" := mkTagExtractionResult [] (lit "CORS preflight") ]} /\
  batch_loop Examples.two_entries
    [mkResultItem (Some 0%Z) (Some (lit "login")) [];
     mkResultItem (Some (-3)%Z) None [];
     mkResultItem (Some 1%Z) None []] ∅
  = {[ lit "e1" := mkTagExtractionResult [] (lit "login") ]}.
Proof.
  assert (H : item_index (mkResultItem (Some (-1)%Z) None []) = Some (-1)%Z)
    by reflexivity.
  split; [exact H|]. split.
  - destruct (batch_index_reading Examples.two_entries _ _ H) as (Hneg & _ & _).
    by rewrite (Hneg [] ∅ (mkEntry (lit "e2") (lit "CORS preflight"))).
  - destruct (batch_index_reading Examples.two_entries (mkResultItem (Some (-3)%Z) None [])
                (-3)%Z eq_refl) as (_ & Hlow & _).
    by rewrite (Hlow [mkResultItem (Some 0%Z) (Some (lit "login")) []]
                  [mkResultItem (Some 1%Z) None []] ∅).
Defined.

End TagExtractionFacts.

(** ** The intent and the answer *)
Module PipelineFacts.
Import Database Agent AgentFacts Factory FactoryFacts Pipeline.

Lemma last_n_nil {A} (n : nat) (items : list A) :
  0 < n -> last_n n items = [] <-> items = [].
Proof.
  intros Hn. unfold last_n. split; [|by intros ->].
  intros H. apply (f_equal length) in H. rewrite length_drop in H. simpl in H.
  destruct items; [done|]. simpl in H. lia.
Qed.

Lemma last_n_idem {A} (n : nat) (items : list A) :
  last_n n (last_n n items) = last_n n items.
Proof.
  unfold last_n. rewrite length_drop.
  replace (length items - (length items - n) - n) with 0 by lia. done.
Qed.

Lemma format_history_window h1 h2 :
  last_n 10 h1 = last_n 10 h2 -> format_history h1 = format_history h2.
Proof.
  intros Heq. unfold format_history.
  destruct h1 as [|m1 h1], h2 as [|m2 h2]; try done.
  - symmetry in Heq. by apply last_n_nil in Heq; [|lia].
  - by apply last_n_nil in Heq; [|lia].
  - by rewrite Heq.
Qed.

(** X20.  The answer is made from the first 15 retrieved logs and the last
    10 messages only: the logs ranked 16 to 20, which [run] returns as well,
    and the earlier messages are not shown to the model. *)
Theorem answer_context_window (w : World) (llm : Client) (query : string)
  (h1 h2 : list Message) (r1 r2 : list RetrievedLog) :
  firstn 15 r1 = firstn 15 r2 -> last_n 10 h1 = last_n 10 h2 ->
  _generate_answer w llm query h1 r1 = _generate_answer w llm query h2 r2.
Proof.
  intros Hr Hh. unfold _generate_answer.
  by rewrite Hr, (format_history_window h1 h2 Hh).
Qed.

Lemma answer_context_window_witness :
  firstn 15 (replicate 16 (with_score 1 (row_to_log Scenario.row_a)))
  = firstn 15 (replicate 15 (with_score 1 (row_to_log Scenario.row_a))) /\
  last_n 10 (map Examples.a_message (seq 0 12))
  = last_n 10 (map Examples.a_message (seq 2 10)) /\
  _generate_answer Examples.the_world Examples.plain_client "why"
    (map Examples.a_message (seq 0 12))
    (replicate 16 (with_score 1 (row_to_log Scenario.row_a)))
  = _generate_answer Examples.the_world Examples.plain_client "why"
      (map Examples.a_message (seq 2 10))
      (replicate 15 (with_score 1 (row_to_log Scenario.row_a))).
Proof.
  assert (H1 : firstn 15 (replicate 16 (with_score 1 (row_to_log Scenario.row_a)))
               = firstn 15 (replicate 15 (with_score 1 (row_to_log Scenario.row_a))))
    by reflexivity.
  assert (H2 : last_n 10 (map Examples.a_message (seq 0 12))
               = last_n 10 (map Examples.a_message (seq 2 10))) by reflexivity.
  exact (conj H1 (conj H2 (answer_context_window Examples.the_world
                             Examples.plain_client "why" _ _ _ _ H1 H2))).
Defined.

(** X19.  When the model's answer to the intent prompt cannot be had or
    read, the intent is the default one, and the retrieval step then runs
    the semantic channel alone, on the question as it was asked; it falls
    back on the recent logs when that gives nothing, and can only fail with
    that fallback. *)
Theorem parse_intent_fallback (w : World) (llm : Client) (query : string) (e : exn) :
  generate_json llm (intent_prompt query (today w)) 0.3%float = Raise e ->
  _parse_intent llm (today w) query = default_intent query /\
  accumulated (retrieval w) query (_parse_intent llm (today w) query)
  = fallback (retrieval w)
      (results (semantic_channel (retrieval w) query (default_intent query) acc_empty)) /\
  semantic_channel (retrieval w) query (default_intent query) acc_empty
  = match compute_embedding (retrieval w) query with
    | Ok query_embedding =>
      match get_log_embeddings (db (retrieval w)) with
      | Ok log_embeddings => semantic_loop query_embedding log_embeddings acc_empty
      | Raise _ => acc_empty
      end
    | Raise _ => acc_empty
    end /\
  (forall e', _retrieve_logs (retrieval w) query (_parse_intent llm (today w) query)
              = Raise e' ->
     e' = OperationalError /\ db_fault (db (retrieval w)) OpAllLogs = true).
Proof.
  intros Hfail.
  assert (Hintent : _parse_intent llm (today w) query = default_intent query).
  { unfold _parse_intent. by rewrite Hfail. }
  rewrite Hintent. split; [done|]. split; [done|]. split; [done|].
  intros e'. unfold _retrieve_logs, accumulated, run_channels. simpl.
  set (st := semantic_channel _ _ _ _). unfold fallback.
  destruct (results st); simpl; [|done].
  unfold get_all_logs, with_db. destruct (db_fault _ _); simpl; [|done].
  by intros [= <-].
Qed.

Lemma parse_intent_fallback_witness :
  generate_json Examples.plain_client
    (intent_prompt Scenario.the_query (today Examples.the_world)) 0.3%float
  = Raise JSONDecodeError /\
  _parse_intent Examples.plain_client (today Examples.the_world) Scenario.the_query
  = default_intent Scenario.the_query /\
  _retrieve_logs Scenario.the_env Scenario.the_query
    (_parse_intent Examples.plain_client (today Examples.the_world) Scenario.the_query)
  = Ok [mkRetrievedLog "C" "cross-origin headers" 1680000000000 []
          None None (0.6 * 0.7)%float].
Proof.
  assert (H : generate_json Examples.plain_client
                (intent_prompt Scenario.the_query (today Examples.the_world)) 0.3%float
              = Raise JSONDecodeError) by reflexivity.
  split; [exact H|].
  destruct (parse_intent_fallback Examples.the_world Examples.plain_client
              Scenario.the_query JSONDecodeError H) as (Hintent & _).
  split; [exact Hintent|]. rewrite Hintent. vm_compute. reflexivity.
Defined.

End PipelineFacts.
